(** * The Lua sandbox bridge of wikitextprocessor ([luaexec.py])

    A shallow embedding of the functions of [wikitextprocessor/luaexec.py]
    that load Lua modules, decode and encode text and JSON for the guest,
    build frame arguments and drive one [#invoke] call, followed by the
    properties proved about them.

    Conventions of the embedding.
    - A Python [str] is a [string]: a sequence of code points below 256.
      Character classes ([str.isspace], [str.isdigit], the regular
      expression classes) are the Python ones restricted to that range.
    - A function that can raise returns a [result]; the exception is data.
    - The expander object [ctx] is the record [Wtp], passed and returned
      explicitly by the code that mutates it.
    - Python library functions whose definition is a data table
      ([html.unescape]'s character references, NFC normalisation) and the
      code that runs inside the guest runtime are parameters. *)

From Stdlib Require Import Bool Arith ZArith List String Ascii Lia.
From Stdlib Require Import Numbers.DecimalString Sorting.Permutation.
From Stdlib Require Import DecimalZ DecimalPos.
Import ListNotations.

Local Open Scope list_scope.
Local Open Scope string_scope.
Set Warnings "-register-all".

(** ** Python exceptions and results *)

Inductive exn : Type :=
| IndexError
| ValueError
| TypeError
| AssertionError
| AttributeError (msg : string)
| OtherError (name : string).

Inductive result (A : Type) : Type :=
| Ok (a : A)
| Raise (e : exn).
Arguments Ok {A} a.
Arguments Raise {A} e.

Definition bind {A B : Type} (r : result A) (f : A -> result B) : result B :=
  match r with
  | Ok a => f a
  | Raise e => Raise e
  end.

Notation "x <- r ;; k" := (bind r (fun x => k))
  (at level 61, r at next level, right associativity).

(** ** Python [str] operations *)

Module Py.

Definition chr (n : nat) : ascii := ascii_of_nat n.
Definition ord (c : ascii) : nat := nat_of_ascii c.

(** [str.isspace] on one character. *)
Definition isspace (c : ascii) : bool :=
  let n := ord c in
  (((9 <=? n) && (n <=? 13)) || ((28 <=? n) && (n <=? 32))
   || (n =? 133) || (n =? 160))%nat.

(** Characters for which [str.isdigit] holds: the decimal digits and the
    superscripts one, two and three. *)
Definition isdigit_char (c : ascii) : bool :=
  let n := ord c in
  (((48 <=? n) && (n <=? 57)) || (n =? 178) || (n =? 179) || (n =? 185))%nat.

Definition isdecimal_char (c : ascii) : bool :=
  let n := ord c in ((48 <=? n) && (n <=? 57))%nat.

Fixpoint forallb_str (p : ascii -> bool) (s : string) : bool :=
  match s with
  | EmptyString => true
  | String c s' => p c && forallb_str p s'
  end.

(** [s.isdigit()]: non-empty and every character is a digit. *)
Definition isdigit (s : string) : bool :=
  match s with
  | EmptyString => false
  | _ => forallb_str isdigit_char s
  end.

(** [int(s)] for a string on which [isdigit] holds: the superscript digits
    are digits for [isdigit] but not for [int], which raises on them. *)
Definition int_of_digits (s : string) : result Z :=
  match NilEmpty.uint_of_string s with
  | Some d => Ok (Z.of_uint d)
  | None => Raise ValueError
  end.

(** [str(n)] for an integer. *)
Definition str_of_int (z : Z) : string :=
  NilEmpty.string_of_int (Z.to_int z).

Fixpoint lstrip (s : string) : string :=
  match s with
  | EmptyString => EmptyString
  | String c s' => if isspace c then lstrip s' else s
  end.

Fixpoint rstrip (s : string) : string :=
  match s with
  | EmptyString => EmptyString
  | String c s' =>
      match rstrip s' with
      | EmptyString => if isspace c then EmptyString else String c EmptyString
      | r => String c r
      end
  end.

(** [s.strip()] *)
Definition strip (s : string) : string := rstrip (lstrip s).

(** [s.startswith(p)] *)
Definition startswith (s p : string) : bool := prefix p s.

(** [s.startswith(t)] for a tuple [t] of prefixes. *)
Definition startswith_any (s : string) (ps : list string) : bool :=
  existsb (startswith s) ps.

(** [sub in s] *)
Fixpoint contains (sub s : string) : bool :=
  prefix sub s ||
  match s with
  | EmptyString => false
  | String _ s' => contains sub s'
  end.

(** [s.find(c)] for a one-character [c]; [-1] when absent. *)
Fixpoint find_char (c : ascii) (s : string) : Z :=
  match s with
  | EmptyString => (-1)%Z
  | String a s' =>
      if Ascii.eqb a c then 0%Z
      else match find_char c s' with
           | Zneg _ => (-1)%Z
           | i => (i + 1)%Z
           end
  end.

Fixpoint drop (n : nat) (s : string) : string :=
  match n, s with
  | O, _ => s
  | S n', EmptyString => EmptyString
  | S n', String _ s' => drop n' s'
  end.

(** The slice [s[i:j]] for [0 <= i]. *)
Definition slice (s : string) (i j : nat) : string := substring i (j - i) s.

(** The slice [s[i:]] for [0 <= i]. *)
Definition slice_from (s : string) (i : nat) : string := drop i s.

(** [s.replace(c, new)] for a one-character [c]. *)
Fixpoint replace_char (c : ascii) (new : string) (s : string) : string :=
  match s with
  | EmptyString => EmptyString
  | String a s' =>
      if Ascii.eqb a c then new ++ replace_char c new s'
      else String a (replace_char c new s')
  end.

(** [sep.join(parts)] *)
Definition join (sep : string) (parts : list string) : string :=
  String.concat sep parts.

(** [s.split("\n", 1)[0]]: the text before the first line feed. *)
Fixpoint first_line (s : string) : string :=
  match s with
  | EmptyString => EmptyString
  | String c s' => if Ascii.eqb c (chr 10) then EmptyString else String c (first_line s')
  end.

End Py.

(** ** Regular expressions

    The patterns of the source are written as [regex] terms and run by a
    backtracking matcher with the priorities of Python's [re]: alternatives
    left to right, greedy repetition longest first, lazy repetition shortest
    first. An iteration of a repetition must consume a character, which
    every pattern of the source does. *)

Module Re.

Inductive regex : Type :=
| Chr (p : ascii -> bool)          (* one character of a class *)
| Eps
| Seq (r1 r2 : regex)
| Alt (r1 r2 : regex)
| Star (greedy : bool) (r : regex)
| Group (n : nat) (r : regex)      (* capturing group number [n] *)
| Bol                              (* [^] *)
| Eol.                             (* [$] without MULTILINE *)

Definition captures := list (nat * string).

Section Matcher.
Context {A : Type}.

(** [run r pos s c k]: match [r] at offset [pos], where [s] is the input
    from [pos] on, then continue with [k]; the first success wins. *)
Fixpoint run (r : regex) (pos : nat) (s : string) (c : captures)
         (k : nat -> string -> captures -> option A) {struct r} : option A :=
  match r with
  | Chr p =>
      match s with
      | String a s' => if p a then k (S pos) s' c else None
      | EmptyString => None
      end
  | Eps => k pos s c
  | Seq r1 r2 => run r1 pos s c (fun pos' s' c' => run r2 pos' s' c' k)
  | Alt r1 r2 =>
      match run r1 pos s c k with
      | Some x => Some x
      | None => run r2 pos s c k
      end
  | Star greedy r1 =>
      (fix loop (fuel : nat) (pos : nat) (s : string) (c : captures)
           {struct fuel} : option A :=
         match fuel with
         | O => k pos s c
         | S fuel' =>
             let again :=
               run r1 pos s c
                   (fun pos' s' c' =>
                      if (pos <? pos')%nat then loop fuel' pos' s' c' else None) in
             if greedy then
               match again with
               | Some x => Some x
               | None => k pos s c
               end
             else
               match k pos s c with
               | Some x => Some x
               | None => again
               end
         end) (S (String.length s)) pos s c
  | Group n r1 =>
      run r1 pos s c
          (fun pos' s' c' => k pos' s' ((n, substring 0 (pos' - pos) s) :: c'))
  | Bol => if (pos =? 0)%nat then k pos s c else None
  | Eol =>
      match s with
      | EmptyString => k pos s c
      | String a EmptyString => if Ascii.eqb a (Py.chr 10) then k pos s c else None
      | _ => None
      end
  end.
End Matcher.

(** A match found at offset [pos]: where it ends and what it captured. *)
Definition match_at (r : regex) (pos : nat) (s : string) : option (nat * captures) :=
  run r pos s [] (fun pos' _ c => Some (pos', c)).

(** [re.match(r, s)] *)
Definition re_match (r : regex) (s : string) : option (nat * captures) :=
  match_at r 0 s.

(** [m.group(n)] *)
Fixpoint group (n : nat) (c : captures) : string :=
  match c with
  | [] => EmptyString
  | (m, v) :: c' => if (m =? n)%nat then v else group n c'
  end.

(** [re.finditer(r, s)]: the matches from left to right, none overlapping,
    each as (start, end, captures). [skip] counts the characters still
    covered by the previous match. No pattern of the source matches the
    empty string; a match of length zero is passed over. *)
Fixpoint finditer_from (r : regex) (pos skip : nat) (s : string)
  : list (nat * nat * captures) :=
  match s with
  | EmptyString => []
  | String _ s' =>
      match skip with
      | S skip' => finditer_from r (S pos) skip' s'
      | O =>
          match match_at r pos s with
          | Some (e, c) =>
              if (pos <? e)%nat
              then (pos, e, c) :: finditer_from r (S pos) (e - pos - 1) s'
              else finditer_from r (S pos) 0 s'
          | None => finditer_from r (S pos) 0 s'
          end
      end
  end.

Definition finditer (r : regex) (s : string) : list (nat * nat * captures) :=
  finditer_from r 0 0 s.

(** [re.sub(r, repl, s)] for a literal replacement [repl]. *)
Fixpoint sub_from (r : regex) (repl : string) (pos skip : nat) (s : string) : string :=
  match s with
  | EmptyString => EmptyString
  | String a s' =>
      match skip with
      | S skip' => sub_from r repl (S pos) skip' s'
      | O =>
          match match_at r pos s with
          | Some (e, _) =>
              if (pos <? e)%nat
              then repl ++ sub_from r repl (S pos) (e - pos - 1) s'
              else String a (sub_from r repl (S pos) 0 s')
          | None => String a (sub_from r repl (S pos) 0 s')
          end
      end
  end.

Definition sub (r : regex) (repl : string) (s : string) : string :=
  sub_from r repl 0 0 s.

(** *** Pattern syntax *)

Definition lit_char (a : ascii) : regex := Chr (Ascii.eqb a).

(** A literal character matched without regard to case ([(?i)]). *)
Definition lit_char_i (a : ascii) : regex :=
  Chr (fun b => Ascii.eqb b a
                || ((97 <=? Py.ord a) && (Py.ord a <=? 122)
                    && (Py.ord b =? Py.ord a - 32))%nat
                || ((65 <=? Py.ord a) && (Py.ord a <=? 90)
                    && (Py.ord b =? Py.ord a + 32))%nat).

Fixpoint lit (s : string) : regex :=
  match s with
  | EmptyString => Eps
  | String a EmptyString => lit_char a
  | String a s' => Seq (lit_char a) (lit s')
  end.

Fixpoint lit_i (s : string) : regex :=
  match s with
  | EmptyString => Eps
  | String a EmptyString => lit_char_i a
  | String a s' => Seq (lit_char_i a) (lit_i s')
  end.

Fixpoint alts (rs : list regex) : regex :=
  match rs with
  | [] => Chr (fun _ => false)
  | [r] => r
  | r :: rs' => Alt r (alts rs')
  end.

Fixpoint seqs (rs : list regex) : regex :=
  match rs with
  | [] => Eps
  | [r] => r
  | r :: rs' => Seq r (seqs rs')
  end.

Definition star (r : regex) : regex := Star true r.          (* r*  *)
Definition star_lazy (r : regex) : regex := Star false r.    (* r*? *)
Definition plus (r : regex) : regex := Seq r (Star true r).  (* r+  *)
Definition plus_lazy (r : regex) : regex := Seq r (Star false r). (* r+? *)

Definition space : regex := Chr Py.isspace.                  (* \s *)
Definition digit : regex := Chr Py.isdecimal_char.           (* \d *)
Definition any_dotall : regex := Chr (fun _ => true).        (* . with (?s) *)
Definition any : regex :=                                    (* . *)
  Chr (fun a => negb (Ascii.eqb a (Py.chr 10))).
Definition none_of (s : string) : regex :=                   (* [^...] *)
  Chr (fun a => negb (Py.contains (String a EmptyString) s)).
Definition range (lo hi : nat) : regex :=                    (* [lo-hi] *)
  Chr (fun a => (lo <=? Py.ord a)%nat && (Py.ord a <=? hi)%nat).

End Re.

(** ** The [html] module of the Python library *)

Module Html.

Definition dquote : ascii := Py.chr 34.
Definition squote : ascii := Py.chr 39.

(** [html.escape(s, quote=True)]: five replacements, the ampersand first. *)
Definition escape (s : string) : string :=
  let s := Py.replace_char "&" "&amp;" s in
  let s := Py.replace_char "<" "&lt;" s in
  let s := Py.replace_char ">" "&gt;" s in
  let s := Py.replace_char dquote "&quot;" s in
  Py.replace_char squote "&#x27;" s.

(** [html.unescape(s)]: a string without an ampersand is returned as it
    is; otherwise every character reference is replaced through the HTML5
    entity table, which is the parameter [charref_sub]. *)
Definition unescape (charref_sub : string -> string) (s : string) : string :=
  if negb (Py.contains "&" s) then s else charref_sub s.

End Html.

(** ** The expander object *)

(** One entry of [ctx.NAMESPACE_DATA]. *)
Record namespace_data : Type := {
  ns_name : string;
  ns_aliases : list string;
  ns_id : Z
}.

(** A message handed to [ctx.debug] or [ctx.error]: its level, the site
    tag [sortid], the text (for a message built by [str.format] from a list
    or a tuple, the format string) and the [trace] argument when given. *)
Inductive level : Type := Debug | Error.

Record diagnostic : Type := {
  d_level : level;
  d_sortid : string;
  d_text : string;
  d_trace : option string
}.

(** An operation the host performed on the guest runtime. The runtime
    object [ctx.lua] is represented by the operations applied to it. *)
Inductive lua_op : Type :=
| OpCreate           (* [lupa.LuaRuntime(...)] and phase 1 *)
| OpResetEnv         (* [ctx.lua_reset_env()] *)
| OpRequirePhase2    (* [new_require("_sandbox_phase2")] *)
| OpSetFunctions     (* [call_set_functions] *)
| OpInvoke (modname modfn : string).

Record Wtp : Type := {
  module_ns : namespace_data;               (* NAMESPACE_DATA["Module"] *)
  pages : string -> Z -> option string;     (* read_by_title *)
  title : string;
  lua : option (list lua_op);
  lua_depth : Z;
  expand_stack : list string;               (* last element is the top *)
  diagnostics : list diagnostic             (* oldest first *)
}.

Definition set_lua (ctx : Wtp) (l : option (list lua_op)) : Wtp :=
  {| module_ns := module_ns ctx; pages := pages ctx; title := title ctx;
     lua := l; lua_depth := lua_depth ctx;
     expand_stack := expand_stack ctx; diagnostics := diagnostics ctx |}.

Definition set_lua_depth (ctx : Wtp) (d : Z) : Wtp :=
  {| module_ns := module_ns ctx; pages := pages ctx; title := title ctx;
     lua := lua ctx; lua_depth := d;
     expand_stack := expand_stack ctx; diagnostics := diagnostics ctx |}.

Definition set_expand_stack (ctx : Wtp) (st : list string) : Wtp :=
  {| module_ns := module_ns ctx; pages := pages ctx; title := title ctx;
     lua := lua ctx; lua_depth := lua_depth ctx;
     expand_stack := st; diagnostics := diagnostics ctx |}.

Definition set_diagnostics (ctx : Wtp) (ds : list diagnostic) : Wtp :=
  {| module_ns := module_ns ctx; pages := pages ctx; title := title ctx;
     lua := lua ctx; lua_depth := lua_depth ctx;
     expand_stack := expand_stack ctx; diagnostics := ds |}.

(** [ctx.debug(text, trace=..., sortid=...)] and [ctx.error(...)] *)
Definition debug (ctx : Wtp) (text : string) (trace : option string)
           (sortid : string) : Wtp :=
  set_diagnostics ctx
    (diagnostics ctx ++ [{| d_level := Debug; d_sortid := sortid;
                            d_text := text; d_trace := trace |}]).

Definition error (ctx : Wtp) (text : string) (trace : option string)
           (sortid : string) : Wtp :=
  set_diagnostics ctx
    (diagnostics ctx ++ [{| d_level := Error; d_sortid := sortid;
                            d_text := text; d_trace := trace |}]).

(** ** The module loader *)

Module Loader.

(** What the loader asks of the outside world, in order. *)
Inductive io_event : Type :=
| ReadByTitle (title : string) (ns : Z)
| IsFile (path : string)
| ReadFile (path : string).

(** The files below [lua_dir]: [os.path.isfile] and the file's text. *)
Record filesystem : Type := {
  lua_dir : string;
  file : string -> option string
}.

Definition builtin_lua_search_paths : list (string * list string) :=
  [ (".", ["string"; "debug"]);
    ("mediawiki-extensions-Scribunto/includes/engines/LuaCommon/lualib", []) ].

(** The first lines of [lua_loader]: trim the name and rewrite a namespace
    alias to the namespace's own prefix. *)
Definition canonical_modname (ctx : Wtp) (modname : string) : string :=
  let modname := Py.strip modname in
  let ns_data := module_ns ctx in
  let ns_prefix := ns_name ns_data ++ ":" in
  let ns_alias_prefixes := map (fun alias => alias ++ ":") (ns_aliases ns_data) in
  if Py.startswith_any modname ns_alias_prefixes
  then ns_prefix ++ Py.slice_from modname (Z.to_nat (Py.find_char ":" modname + 1))
  else modname.

Definition slashes : Re.regex := Re.Seq (Re.lit "/") (Re.plus (Re.lit "/")).
Definition dots : Re.regex := Re.Seq (Re.lit ".") (Re.plus (Re.lit ".")).

(** The file name a library module is looked up under. *)
Definition library_path (modname : string) : string :=
  let path := modname in
  let path := Re.sub (Re.range 0 31) "" path in
  let path := Py.replace_char ":" "/" path in
  let path := Py.replace_char " " "_" path in
  let path := Re.sub slashes "/" path in
  let path := Re.sub dots "." path in
  let path := Re.sub (Re.Seq Re.Bol slashes) "" path in
  path ++ ".lua".

(** The loop over [builtin_lua_search_paths]. *)
Fixpoint search_paths (fs : filesystem) (modname path : string)
         (roots : list (string * list string)) : list io_event * option string :=
  match roots with
  | [] => ([], None)
  | (prefix, exceptions) :: roots' =>
      if existsb (String.eqb modname) exceptions
      then search_paths fs modname path roots'
      else
        let p := lua_dir fs ++ prefix ++ "/" ++ path in
        match file fs p with
        | Some data => ([IsFile p; ReadFile p], Some data)
        | None =>
            let (evs, data) := search_paths fs modname path roots' in
            (IsFile p :: evs, data)
        end
  end.

(** [lua_loader(ctx, modname)]: the events performed and the value
    returned, [None] when the module could not be loaded. *)
Definition lua_loader (fs : filesystem) (ctx : Wtp) (modname : string)
  : list io_event * option string :=
  let modname := canonical_modname ctx modname in
  let ns_data := module_ns ctx in
  let ns_prefix := ns_name ns_data ++ ":" in
  if Py.startswith_any modname ["Module:"; ns_prefix] then
    if Py.startswith_any modname ["Module:_"; ns_prefix ++ "_"] then
      ([], None)
    else
      ([ReadByTitle modname (ns_id ns_data)], pages ctx modname (ns_id ns_data))
  else
    search_paths fs modname (library_path modname) builtin_lua_search_paths.

End Loader.

(** ** Attribute filter of the guest runtime *)

(** An attribute name as the runtime hands it to the filter. *)
Inductive attr_name : Type :=
| AttrStr (s : string)
| AttrOther.            (* a number, a table, any object that is not a [str] *)

(** [filter_attribute_access(obj, attr_name, is_setting)] of
    [initialize_lua]; the object is not looked at. *)
Definition filter_attribute_access {O : Type} (obj : O) (name : attr_name)
           (is_setting : bool) : result attr_name :=
  match name with
  | AttrStr s =>
      if negb (Py.startswith s "_") then Ok name
      else Raise (AttributeError "access denied")
  | AttrOther => Raise (AttributeError "access denied")
  end.

(** ** [mw.text.decode] *)

Module Text.

(** The pattern [&(lt|gt|amp|quot|nbsp);] *)
Definition entity_re : Re.regex :=
  Re.seqs [ Re.lit "&";
            Re.Group 1 (Re.alts [Re.lit "lt"; Re.lit "gt"; Re.lit "amp";
                                 Re.lit "quot"; Re.lit "nbsp"]);
            Re.lit ";" ].

Definition nbsp : string := String (Py.chr 160) EmptyString.

(** The body of the loop over the matches: [parts] and [pos] before and
    after one match. *)
Definition decode_match (text : string) (st : list string * nat)
           (m : nat * nat * Re.captures) : result (list string * nat) :=
  let '(parts, pos) := st in
  let '(m_start, m_end, caps) := m in
  let parts :=
    if (pos <? m_start)%nat then (parts ++ [Py.slice text pos m_start])%list else parts in
  let pos := m_end in
  let tag := Re.group 1 caps in
  if tag =? "lt" then Ok ((parts ++ ["<"])%list, pos)
  else if tag =? "gt" then Ok ((parts ++ [">"])%list, pos)
  else if tag =? "amp" then Ok ((parts ++ ["&"])%list, pos)
  else if tag =? "quot" then Ok ((parts ++ [String Html.dquote EmptyString])%list, pos)
  else if tag =? "nbsp" then Ok ((parts ++ [nbsp])%list, pos)
  else Raise AssertionError.

Fixpoint decode_loop (text : string) (ms : list (nat * nat * Re.captures))
         (st : list string * nat) : result (list string * nat) :=
  match ms with
  | [] => Ok st
  | m :: ms' => st' <- decode_match text st m ;; decode_loop text ms' st'
  end.

(** [mw_text_decode(text, decodeNamedEntities)] *)
Definition mw_text_decode (charref_sub : string -> string)
           (text : string) (decodeNamedEntities : bool) : result string :=
  if decodeNamedEntities then Ok (Html.unescape charref_sub text)
  else
    st <- decode_loop text (Re.finditer entity_re text) ([], 0) ;;
    let '(parts, pos) := st in
    Ok (Py.join "" (parts ++ [Py.slice_from text pos])%list).

(** The five entity references and the character each stands for. *)
Definition entities : list (string * string) :=
  [ ("&lt;", "<"); ("&gt;", ">"); ("&amp;", "&");
    ("&quot;", String Html.dquote EmptyString); ("&nbsp;", nbsp) ].

(** The reading of the decode rule: go through the text from the left;
    where one of the five references starts, put its character and go on
    after the reference; anywhere else keep the character. *)
Inductive Decodes : string -> string -> Prop :=
| Decodes_end : Decodes "" ""
| Decodes_entity e c rest out :
    In (e, c) entities -> Decodes rest out -> Decodes (e ++ rest) (c ++ out)
| Decodes_char a rest out :
    (forall e c, In (e, c) entities -> prefix e (String a rest) = false) ->
    Decodes rest out -> Decodes (String a rest) (String a out).

(** The scan of [finditer] and the loop of [mw_text_decode] fused into one
    pass; used to relate the code to [Decodes]. *)
Definition entity_at (s : string) : option (nat * string) :=
  if prefix "&lt;" s then Some (4, "<")
  else if prefix "&gt;" s then Some (4, ">")
  else if prefix "&amp;" s then Some (5, "&")
  else if prefix "&quot;" s then Some (6, String Html.dquote EmptyString)
  else if prefix "&nbsp;" s then Some (6, nbsp)
  else None.

(** What [entity_re] matches at offset [pos] of an input that continues
    with [s], written with prefix tests. *)
Definition entity_match (pos : nat) (s : string) : option (nat * Re.captures) :=
  if prefix "&lt;" s then Some (pos + 4, [(1, "lt")])
  else if prefix "&gt;" s then Some (pos + 4, [(1, "gt")])
  else if prefix "&amp;" s then Some (pos + 5, [(1, "amp")])
  else if prefix "&quot;" s then Some (pos + 6, [(1, "quot")])
  else if prefix "&nbsp;" s then Some (pos + 6, [(1, "nbsp")])
  else None.

(** The last two statements of [mw_text_decode] on the loop's final state. *)
Definition finalize (text : string) (st : list string * nat) : string :=
  let '(parts, pos) := st in Py.join "" (parts ++ [Py.slice_from text pos])%list.

Fixpoint decode_scan (skip : nat) (s : string) : string :=
  match s with
  | EmptyString => EmptyString
  | String a s' =>
      match skip with
      | S skip' => decode_scan skip' s'
      | O =>
          match entity_at s with
          | Some (len, c) => c ++ decode_scan (len - 1) s'
          | None => String a (decode_scan 0 s')
          end
      end
  end.

End Text.

(** ** [mw.text.jsonEncode] and [mw.text.jsonDecode] *)

Module Json.

(** A key of a Python [dict] or of a guest table seen from Python. A guest
    number that is integral arrives as [int], a guest boolean as [bool];
    [KOther] is any other key object, given by its [str()]: for a guest
    table a number that is not integral, a table, a function. As a key
    of a dictionary handed to the serializer [KOther] is a key the
    serializer rejects (a tuple, bytes, a guest object); a float or
    [None] key of such a dictionary is not represented. *)
Inductive pykey : Type :=
| KInt (z : Z)
| KBool (b : bool)
| KStr (s : string)
| KOther (repr : string).

(** The Python values the two functions handle. A guest table wrapped by
    lupa is given in one of two ways: [PTable] by its items, listed in the
    order the runtime iterates them, or [PRef] by its identity in the
    guest heap, which holds the items of every table; only through the
    heap can a table contain itself. A [dict] is given by its items in
    insertion order. [POpaque] is any other object (a guest function,
    userdata). A float is given by its [repr]. *)
Inductive pyobj : Type :=
| PNone
| PBool (b : bool)
| PInt (z : Z)
| PFloat (repr : string)
| PStr (s : string)
| PList (l : list pyobj)
| PDict (d : list (pykey * pyobj))
| PTable (t : list (pykey * pyobj))
| PRef (r : nat)
| POpaque (repr : string).

(** The guest heap: the items of the table with a given identity. *)
Definition heap : Type := nat -> list (pykey * pyobj).

(** JSON text, represented by the document it denotes, the members of an
    object in the order they are written, an integer literal by its
    number. Text that is not JSON, on which [json.loads] raises, is not
    represented. *)
Inductive json : Type :=
| JNull
| JBool (b : bool)
| JInt (z : Z)
| JFloat (repr : string)
| JStr (s : string)
| JArr (l : list json)
| JObj (members : list (string * json)).

(** The limits of the interpreter the functions run under.
    [recursion_depth] bounds the nesting of the calls of [recurse] and
    [json_depth] the nesting of the containers the serializer and the
    parser of the [json] library accept before the interpreter raises
    [RecursionError]; [int_max_str_digits] is
    [sys.get_int_max_str_digits()], where 0 stands for no limit.

    The two depths count levels of nesting of the value. How many
    interpreter frames one level takes (a call of [recurse], and with it
    the frame of a comprehension or of a generator expression) is not
    modelled: what a function returns here at some depth it returns in
    the interpreter once the recursion limit is high enough, and what
    raises here at every depth raises there at every limit. *)
Record limits : Type := {
  recursion_depth : nat;
  json_depth : nat;
  int_max_str_digits : nat
}.

Definition RecursionError : exn := OtherError "RecursionError".

(** Whether a number written with [n] digits is beyond the limit [maxd]
    for the conversion between [int] and [str]. *)
Definition too_many_digits (maxd n : nat) : bool :=
  negb (maxd =? 0)%nat && (maxd <? n)%nat.

(** The number of digits of an integer, the sign not counted. *)
Definition digits (z : Z) : nat := String.length (Py.str_of_int (Z.abs z)).

(** [str(z)] *)
Definition int_to_str (maxd : nat) (z : Z) : result string :=
  if too_many_digits maxd (digits z) then Raise ValueError else Ok (Py.str_of_int z).

(** [int(s)] for a string on which [isdigit] holds. *)
Definition int_of_str (maxd : nat) (s : string) : result Z :=
  if too_many_digits maxd (String.length s) then Raise ValueError
  else Py.int_of_digits s.

Definition key_eqb (a b : pykey) : bool :=
  match a, b with
  | KInt x, KInt y => (x =? y)%Z
  | KBool x, KBool y => Bool.eqb x y
  | KStr x, KStr y => (x =? y)%string
  | KOther x, KOther y => (x =? y)%string
  | _, _ => false
  end.

(** [d[k] = v] on a dictionary in insertion order. *)
Fixpoint dict_set {V : Type} (d : list (pykey * V)) (k : pykey) (v : V)
  : list (pykey * V) :=
  match d with
  | [] => [(k, v)]
  | (k', v') :: d' =>
      if key_eqb k' k then (k', v) :: d' else (k', v') :: dict_set d' k v
  end.

(** [del d[k]] for a key that is present. *)
Fixpoint dict_del {V : Type} (d : list (pykey * V)) (k : pykey) : list (pykey * V) :=
  match d with
  | [] => []
  | (k', v') :: d' => if key_eqb k' k then d' else (k', v') :: dict_del d' k
  end.

(** [isinstance(k, int)]: a [bool] is an [int]. *)
Definition key_is_int (k : pykey) : bool :=
  match k with
  | KInt _ | KBool _ => true
  | _ => false
  end.

(** The number an [int] key compares as. *)
Definition key_num (k : pykey) : Z :=
  match k with
  | KInt z => z
  | KBool true => 1
  | _ => 0
  end.

(** [str(k)] *)
Definition key_str (maxd : nat) (k : pykey) : result string :=
  match k with
  | KInt z => int_to_str maxd z
  | KBool true => Ok "True"
  | KBool false => Ok "False"
  | KStr s => Ok s
  | KOther r => Ok r
  end.

Fixpoint insert_sorted (x : Z) (l : list Z) : list Z :=
  match l with
  | [] => [x]
  | y :: l' => if (x <=? y)%Z then x :: l else y :: insert_sorted x l'
  end.

(** [sorted(keys)] for integer keys. *)
Definition sorted (l : list Z) : list Z := fold_right insert_sorted [] l.

(** [all(keys[i] == i + 1 for i in range(len(keys)))], from index [i] on. *)
Fixpoint run_from (i : Z) (keys : list Z) : bool :=
  match keys with
  | [] => true
  | k :: keys' => (k =? i + 1)%Z && run_from (i + 1) keys'
  end.

(** The rule for an array: every key is an [int] and the sorted keys are
    1, 2, ..., N. *)
Definition sequential_keys (keys : list pykey) : bool :=
  forallb key_is_int keys && run_from 0 (sorted (map key_num keys)).

Definition flags_of (rest : list Z) : Z :=
  match rest with
  | [] => 0%Z
  | f :: _ => f
  end.

(** [lupa.lua_type(x) == "table"], and then [x.items()]. *)
Definition table_items (h : heap) (x : pyobj) : option (list (pykey * pyobj)) :=
  match x with
  | PTable t => Some t
  | PRef r => Some (h r)
  | _ => None
  end.

Section Traverse.
Context {A B : Type} (f : A -> result B).

(** [[f(x) for x in l]], stopping at the first exception. *)
Fixpoint traverse (l : list A) : result (list B) :=
  match l with
  | [] => Ok []
  | x :: l' => y <- f x ;; ys <- traverse l' ;; Ok (y :: ys)
  end.
End Traverse.

Section DictLoops.
Variable maxd : nat.
Variable recurse : pyobj -> result pyobj.

(** The loop [for k, v in x.items(): ht[str(k)] = recurse(v)] of
    [mw_text_jsonencode]: the value is computed before the key is
    converted. *)
Fixpoint encode_items (items ht : list (pykey * pyobj)) : result (list (pykey * pyobj)) :=
  match items with
  | [] => Ok ht
  | (k, v) :: items' =>
      v' <- recurse v ;;
      name <- key_str maxd k ;;
      encode_items items' (dict_set ht (KStr name) v')
  end.

(** [{k: recurse(v) for k, v in x.items()}] *)
Definition recurse_values (d : list (pykey * pyobj)) : result (list (pykey * pyobj)) :=
  traverse (fun kv => v' <- recurse (snd kv) ;; Ok (fst kv, v')) d.

(** The loop of [mw_text_jsondecode] that turns the keys made of digits
    into integers: [items] is what is left of [list(x.items())], [x] the
    dictionary being changed. *)
Fixpoint coerce_keys (items x : list (pykey * pyobj)) : result (list (pykey * pyobj)) :=
  match items with
  | [] => Ok x
  | (KStr k, v) :: items' =>
      if Py.isdigit k then
        let x := dict_del x (KStr k) in
        v' <- recurse v ;;
        n <- int_of_str maxd k ;;
        coerce_keys items' (dict_set x (KInt n) v')
      else
        v' <- recurse v ;;
        coerce_keys items' (dict_set x (KStr k) v')
  | _ :: _ => Raise (AttributeError "isdigit")
  end.
End DictLoops.

(** [recurse] of [mw_text_jsonencode]; [depth] is the number of nested
    calls the interpreter still allows, this one included. *)
Fixpoint encode_value (maxd : nat) (h : heap) (depth : nat) (flags : Z) (x : pyobj)
  : result pyobj :=
  match depth with
  | O => Raise RecursionError
  | S depth' =>
      match table_items h x with
      | Some t =>
          let conv_to_dict := negb (Z.land flags 1 =? 0)%Z in
          let conv_to_dict :=
            if negb conv_to_dict then
              if negb (forallb key_is_int (map fst t)) then true
              else if negb (run_from 0 (sorted (map key_num (map fst t)))) then true
                   else conv_to_dict
            else conv_to_dict in
          if conv_to_dict then
            ht <- encode_items maxd (encode_value maxd h depth' flags) t [] ;;
            Ok (PDict ht)
          else
            l <- traverse (fun kv => encode_value maxd h depth' flags (snd kv)) t ;;
            Ok (PList l)
      | None => Ok x
      end
  end.

(** *** The serializer *)

Definition key_is_str (k : pykey) : bool :=
  match k with
  | KStr _ => true
  | _ => false
  end.

(** Whether the sort by key can compare the keys: strings compare with
    strings and numbers with numbers; comparing a string with a number
    raises [TypeError]. *)
Definition keys_compare (keys : list pykey) : bool :=
  forallb key_is_str keys || forallb key_is_int keys.

Definition key_leb (a b : pykey) : bool :=
  match a, b with
  | KStr x, KStr y => String.leb x y
  | _, _ => (key_num a <=? key_num b)%Z
  end.

Fixpoint insert_item (kv : pykey * pyobj) (l : list (pykey * pyobj))
  : list (pykey * pyobj) :=
  match l with
  | [] => [kv]
  | kv' :: l' =>
      if key_leb (fst kv) (fst kv') then kv :: l else kv' :: insert_item kv l'
  end.

(** The items sorted by key ([sort_keys=True]). *)
Definition sort_items (d : list (pykey * pyobj)) : list (pykey * pyobj) :=
  fold_right insert_item [] d.

(** The member name the serializer writes for a key. *)
Definition key_json (maxd : nat) (k : pykey) : result string :=
  match k with
  | KStr s => Ok s
  | KInt z => int_to_str maxd z
  | KBool true => Ok "true"
  | KBool false => Ok "false"
  | KOther _ => Raise TypeError
  end.

(** One member: the key is converted, then the value is written. *)
Definition dump_member (maxd : nat) (dump : pyobj -> result json) (kv : pykey * pyobj)
  : result (string * json) :=
  name <- key_json maxd (fst kv) ;;
  j <- dump (snd kv) ;;
  Ok (name, j).

(** [json.dumps(value, sort_keys=True)]; [depth] is the number of nested
    containers the serializer still accepts. Guest tables and opaque
    objects are not serializable. *)
Fixpoint json_dumps (maxd : nat) (depth : nat) (v : pyobj) : result json :=
  match v with
  | PNone => Ok JNull
  | PBool b => Ok (JBool b)
  | PInt z => if too_many_digits maxd (digits z) then Raise ValueError else Ok (JInt z)
  | PFloat r => Ok (JFloat r)
  | PStr s => Ok (JStr s)
  | PList l =>
      match depth with
      | O => Raise RecursionError
      | S depth' => l' <- traverse (json_dumps maxd depth') l ;; Ok (JArr l')
      end
  | PDict d =>
      match depth with
      | O => Raise RecursionError
      | S depth' =>
          if negb (keys_compare (map fst d)) then Raise TypeError
          else
            ms <- traverse (dump_member maxd (json_dumps maxd depth')) (sort_items d) ;;
            Ok (JObj ms)
      end
  | PTable _ | PRef _ | POpaque _ => Raise TypeError
  end.

(** *** The parser *)

(** The dictionary of an object: of two members with one name the later
    value stays. *)
Definition dict_of_members (ms : list (string * pyobj)) : list (pykey * pyobj) :=
  fold_left (fun d m => dict_set d (KStr (fst m)) (snd m)) ms [].

(** [json.loads(s)]; [depth] is the number of nested containers the parser
    still accepts. *)
Fixpoint json_loads (maxd : nat) (depth : nat) (j : json) {struct j}
  : result pyobj :=
  match j with
  | JNull => Ok PNone
  | JBool b => Ok (PBool b)
  | JInt z => if too_many_digits maxd (digits z) then Raise ValueError else Ok (PInt z)
  | JFloat r => Ok (PFloat r)
  | JStr s => Ok (PStr s)
  | JArr l =>
      match depth with
      | O => Raise RecursionError
      | S depth' => l' <- traverse (json_loads maxd depth') l ;; Ok (PList l')
      end
  | JObj ms =>
      match depth with
      | O => Raise RecursionError
      | S depth' =>
          vs <- traverse (fun m => v <- json_loads maxd depth' (snd m) ;; Ok (fst m, v)) ms ;;
          Ok (PDict (dict_of_members vs))
      end
  end.

Definition is_none (v : pyobj) : bool :=
  match v with
  | PNone => true
  | _ => false
  end.

(** [lua.table_from(list)]: the items get the keys 1, 2, ...; storing
    [None] stores nothing. *)
Fixpoint table_items_from (i : Z) (l : list pyobj) : list (pykey * pyobj) :=
  match l with
  | [] => []
  | v :: l' =>
      if is_none v then table_items_from (i + 1) l'
      else (KInt i, v) :: table_items_from (i + 1) l'
  end.

Definition table_from_list (l : list pyobj) : pyobj :=
  PTable (table_items_from 1 l).

(** [lua.table_from(dict)] *)
Definition table_from_dict (d : list (pykey * pyobj)) : pyobj :=
  PTable (filter (fun kv => negb (is_none (snd kv))) d).

(** [recurse] of [mw_text_jsondecode]; [depth] is the number of nested
    calls the interpreter still allows, this one included. *)
Fixpoint decode_value (maxd : nat) (depth : nat) (flags : Z) (x : pyobj)
  : result pyobj :=
  match depth with
  | O => Raise RecursionError
  | S depth' =>
      match x with
      | PList l =>
          l' <- traverse (decode_value maxd depth' flags) l ;; Ok (table_from_list l')
      | PDict d =>
          if (Z.land flags 1 =? 1)%Z then
            d' <- recurse_values (decode_value maxd depth' flags) d ;;
            Ok (table_from_dict d')
          else
            x' <- coerce_keys maxd (decode_value maxd depth' flags) d d ;;
            if negb (forallb key_is_int (map fst x')) then Ok (table_from_dict x')
            else if negb (run_from 0 (sorted (map key_num (map fst x'))))
                 then Ok (table_from_dict x')
                 else Ok (table_from_dict x')
      | _ => Ok x
      end
  end.

(** The key a member name becomes in the decoder when keys are not
    preserved: the integer it writes if it is made of digits. *)
Definition coerce_name (maxd : nat) (name : string) : result pykey :=
  if Py.isdigit name then n <- int_of_str maxd name ;; Ok (KInt n)
  else Ok (KStr name).

(** A string, a number or a boolean. *)
Definition is_scalar (v : pyobj) : bool :=
  match v with
  | PBool _ | PInt _ | PFloat _ | PStr _ => true
  | _ => false
  end.

(** [mw_text_jsonencode(s, *rest)] *)
Definition mw_text_jsonencode (lim : limits) (h : heap) (s : pyobj) (rest : list Z)
  : result json :=
  let flags := flags_of rest in
  value <- encode_value (int_max_str_digits lim) h (recursion_depth lim) flags s ;;
  json_dumps (int_max_str_digits lim) (json_depth lim) value.

(** [mw_text_jsondecode(ctx, s, *rest)] *)
Definition mw_text_jsondecode (lim : limits) (s : json) (rest : list Z) : result pyobj :=
  let flags := flags_of rest in
  value <- json_loads (int_max_str_digits lim) (json_depth lim) s ;;
  decode_value (int_max_str_digits lim) (recursion_depth lim) flags value.

(** *** Statements about round trips *)

(** The limits one level further in: what is left for a value inside a
    container. *)
Definition inner (lim : limits) : limits :=
  {| recursion_depth := pred (recursion_depth lim);
     json_depth := pred (json_depth lim);
     int_max_str_digits := int_max_str_digits lim |}.

(** Encoding under [lim] and decoding the text under [lim']. *)
Definition round_trip (lim : limits) (h : heap) (lim' : limits)
           (rest rest' : list Z) (v : pyobj) : result pyobj :=
  doc <- mw_text_jsonencode lim h v rest ;; mw_text_jsondecode lim' doc rest'.

(** The items have the keys [i], [i + 1], ... in the order of the list,
    and every value passes [ok]. *)
Fixpoint listed_from (ok : pyobj -> bool) (i : Z) (t : list (pykey * pyobj)) : bool :=
  match t with
  | [] => true
  | kv :: t' => key_eqb (fst kv) (KInt i) && ok (snd kv) && listed_from ok (i + 1) t'
  end.


End Json.

(** ** The invocation driver *)

Module Sandbox.

(** A key of the frame arguments: a position or a name. *)
Inductive arg_key : Type :=
| ArgInt (z : Z)
| ArgStr (s : string).

Definition arg_key_eqb (a b : arg_key) : bool :=
  match a, b with
  | ArgInt x, ArgInt y => (x =? y)%Z
  | ArgStr x, ArgStr y => (x =? y)%string
  | _, _ => false
  end.

(** A Python [dict] from argument keys to strings, in insertion order. *)
Definition arg_dict : Type := list (arg_key * string).

(** [d[k] = v] *)
Fixpoint args_set (d : arg_dict) (k : arg_key) (v : string) : arg_dict :=
  match d with
  | [] => [(k, v)]
  | (k', v') :: d' =>
      if arg_key_eqb k' k then (k', v) :: d' else (k', v') :: args_set d' k v
  end.

(** The frame object handed to the guest: its arguments, the parent frame
    and the title. The callbacks of the frame run only inside the guest
    call; what they do to the expander is part of the guest's effect. *)
Inductive frame : Type :=
| Frame (args : arg_dict) (parent : option frame) (frame_title : string).

(** The pattern [(?si)<\s*noinclude\s*/\s*>] *)
Definition noinclude_re : Re.regex :=
  Re.seqs [ Re.lit "<"; Re.star Re.space; Re.lit_i "noinclude"; Re.star Re.space;
            Re.lit "/"; Re.star Re.space; Re.lit ">" ].

(** The pattern that splits [name=value]: with [(?s)], from the start of
    the string, white space, group 1 of one or more characters, as few as
    possible, none of them an angle bracket, an equals sign or a quote
    (single or double), white space, the equals sign, white space, group 2
    of any characters, as few as possible, white space, end of string. *)
Definition arg_re : Re.regex :=
  Re.seqs [ Re.Bol; Re.star Re.space;
            Re.Group 1 (Re.plus_lazy (Re.none_of (String Html.dquote "<>='")));
            Re.star Re.space; Re.lit "="; Re.star Re.space;
            Re.Group 2 (Re.star_lazy Re.any_dotall);
            Re.star Re.space; Re.Eol ].

(** The pattern [.*?:\d+: ] *)
Definition location_re : Re.regex :=
  Re.seqs [ Re.star_lazy Re.any; Re.lit ":"; Re.plus Re.digit; Re.lit ": " ].

(** What comes back from [ctx.lua_invoke]. *)
Record exc_info : Type := {
  exc_str : string;                   (* str(e) *)
  exc_traceback : list string         (* traceback.format_exception(...) *)
}.

(** A value returned by the guest; [VOther] is any other object, given by
    its truth value and its [str()]. *)
Inductive pyval : Type :=
| VNone
| VBool (b : bool)
| VInt (z : Z)
| VStr (s : string)
| VExc (e : exc_info)
| VOther (truthy : bool) (repr : string).

Inductive guest_ret : Type :=
| RetValue (v : pyval)              (* not a list or tuple *)
| RetTuple (vs : list pyval).

Inductive guest_outcome : Type :=
| Returns (ret : guest_ret)
| RaisesUnicodeDecodeError
| RaisesLuaError (e : exc_info)
| RaisesOther (e : exn).

(** The guest call [ctx.lua_invoke(modname, modfn, frame, title, timeout)]:
    what it returns or raises and the state in which it leaves the
    expander, which its callbacks re-enter. *)
Definition guest_fn : Type :=
  string -> string -> frame -> string -> option Z -> Wtp -> Wtp * guest_outcome.

Definition truthy (v : pyval) : bool :=
  match v with
  | VNone => false
  | VBool b => b
  | VInt z => negb (z =? 0)%Z
  | VStr s => negb (s =? "")
  | VExc _ => true
  | VOther t _ => t
  end.

(** [str(v)] *)
Definition str_of (v : pyval) : string :=
  match v with
  | VNone => "None"
  | VBool true => "True"
  | VBool false => "False"
  | VInt z => Py.str_of_int z
  | VStr s => s
  | VExc e => exc_str e
  | VOther _ r => r
  end.

(** [initialize_lua(ctx)] *)
Definition initialize_lua (ctx : Wtp) : Wtp :=
  set_lua ctx (Some [OpCreate; OpRequirePhase2; OpSetFunctions]).

(** The reset of a runtime that exists already. *)
Definition reset_lua (ctx : Wtp) (ops : list lua_op) : Wtp :=
  set_lua ctx (Some (ops ++ [OpResetEnv; OpRequirePhase2; OpSetFunctions])%list).

(** [while len(ctx.expand_stack) > stack_len: ctx.expand_stack.pop()] *)
Definition pop_to (stack_len : nat) (ctx : Wtp) : Wtp :=
  set_expand_stack ctx (firstn stack_len (expand_stack ctx)).

Definition translations_marker : string :=
  "Translations must be for attested and approved ".

Definition banner (msg modname modfn : string) : string :=
  "<strong class=" ++ String Html.dquote "error" ++ String Html.dquote ">"
  ++ msg ++ " in Module:" ++ Html.escape modname
  ++ " function " ++ Html.escape modfn ++ "</strong>".

Section Driver.
Variable charref_sub : string -> string.    (* of [html.unescape] *)
Variable nfc : string -> string.            (* unicodedata.normalize("NFC", .) *)

(** The two statements applied to every argument value. *)
Definition clean_arg (arg : string) : string :=
  let arg := Re.sub noinclude_re "" arg in
  Html.unescape charref_sub arg.

(** One turn of the loop of [make_frame] over a list of arguments:
    [frame_args] and [num] before and after. *)
Definition frame_arg_step (st : arg_dict * Z) (arg : string)
  : result (arg_dict * Z) :=
  let '(frame_args, num) := st in
  kan <- match Re.re_match arg_re arg with
         | Some (_, caps) =>
             (* Have argument name *)
             let k := Re.group 1 caps in
             let arg := Re.group 2 caps in
             if Py.isdigit k then
               k <- Py.int_of_digits k ;;
               let k := if ((k <? 1) || (k >? 1000))%Z then 1000%Z else k in
               let num := if (num <=? k)%Z then (k + 1)%Z else num in
               Ok (ArgInt k, arg, num)
             else Ok (ArgStr k, arg, num)
         | None =>
             (* No argument name *)
             Ok (ArgInt num, arg, (num + 1)%Z)
         end ;;
  let '(k, arg, num) := kan in
  Ok (args_set frame_args k (clean_arg arg), num).

Fixpoint frame_args_loop (args : list string) (st : arg_dict * Z)
  : result (arg_dict * Z) :=
  match args with
  | [] => Ok st
  | arg :: args' => st' <- frame_arg_step st arg ;; frame_args_loop args' st'
  end.

(** The arguments of an invocation: a list, or the [dict] of the page. *)
Inductive frame_input : Type :=
| ArgList (args : list string)
| ArgDict (args : arg_dict).

(** [make_frame(pframe, title, args)]; [lua] is [ctx.lua]. *)
Definition make_frame (lua : option (list lua_op)) (pframe : option frame)
           (title : string) (args : frame_input) : result frame :=
  frame_args <-
    match args with
    | ArgDict d =>
        Ok (fold_left (fun fa kv => args_set fa (fst kv) (clean_arg (snd kv))) d [])
    | ArgList l =>
        st <- frame_args_loop l ([], 1%Z) ;; Ok (fst st)
    end ;;
  match lua with
  | None => Raise (AttributeError "table_from")
  | Some _ => Ok (Frame frame_args pframe title)
  end.

(** The text of a failure: [str(e)] and the stripped trace lines of an
    exception, [str(text)] of anything else. *)
Definition failure_text (text : pyval) : string :=
  match text with
  | VExc e =>
      Py.join (String (Py.chr 10) "")
              (exc_str e :: map (fun x => String (Py.chr 9) (Py.strip x))
                                (exc_traceback e))
  | VStr s => s
  | _ => str_of text
  end.

(** The end of [call_lua_sandbox]: what is returned for a failure with
    trace [text], and what is logged. *)
Definition report_failure (ctx : Wtp) (modname modfn text : string)
  : string * Wtp :=
  let msg := Re.sub location_re "" (Py.first_line text) in
  let swallowed_or_ctx : option Wtp :=
    if Py.contains "'debug.error'" text then
      if negb (Py.startswith msg "This template is deprecated.")
      then Some (debug ctx ("lua error -- " ++ msg) None "luaexec/659")
      else Some ctx
    else if Py.contains translations_marker text then None
    else if Py.contains "attempt to index a nil value (local 'lang')" text
            && Py.contains "in function 'Module:links.getLinkPage'" text
         then None
    else if existsb (String.eqb "check deprecated lang param usage")
                    (expand_stack ctx)
         then Some (debug ctx "LUA error but likely not bug -- in #invoke {} parent {}"
                          (Some text) "luaexec/679")
         else Some (error ctx "LUA error in #invoke {} parent {}"
                          (Some text) "luaexec/683") in
  match swallowed_or_ctx with
  | None => ("", ctx)
  | Some ctx =>
      let msg := "Lua execution error" in
      let msg := if Py.contains "Lua timeout error" text
                 then "Lua timeout error" else msg in
      (banner msg modname modfn, ctx)
  end.

(** The first block of [call_lua_sandbox] after the argument check:
    at depth 0 create the runtime or reset the one that exists. *)
Definition ensure_ready (ctx : Wtp) : Wtp :=
  if (lua_depth ctx =? 0)%Z then
    match lua ctx with
    | None => initialize_lua ctx
    | Some ops => reset_lua ctx ops
    end
  else ctx.

Definition module_name (expander : string -> string) (invoke_args : list string)
  : string := Py.strip (expander (nth 0 invoke_args "")).

Definition function_name (expander : string -> string) (invoke_args : list string)
  : string := Py.strip (expander (nth 1 invoke_args "")).

(** The keys of the page arguments that are strings, expanded. *)
Definition expand_key_args (expander : string -> string) (page_args : arg_dict)
  : arg_dict :=
  fold_left
    (fun d kv =>
       match fst kv with
       | ArgStr k => args_set d (ArgStr (expander k)) (snd kv)
       | k => args_set d k (snd kv)
       end) page_args [].

(** The parent frame, when there is a parent page, and the current
    frame. *)
Definition build_frames (lua : option (list lua_op)) (expander : string -> string)
           (parent : option (string * arg_dict)) (invoke_args : list string)
  : result frame :=
  pframe <- match parent with
            | Some (parent_title, page_args) =>
                f <- make_frame lua None parent_title
                                (ArgDict (expand_key_args expander page_args)) ;;
                Ok (Some f)
            | None => Ok None
            end ;;
  make_frame lua pframe (module_name expander invoke_args)
             (ArgList (skipn 2 invoke_args)).

(** ["Lua:{}:{}()".format(modname, modfn)] *)
Definition call_label (modname modfn : string) : string :=
  "Lua:" ++ modname ++ ":" ++ modfn ++ "()".

(** The label pushed on the expansion stack and the call recorded on
    the runtime, just before the guest runs. *)
Definition enter_guest (ctx : Wtp) (modname modfn : string) : Wtp :=
  let ctx := set_expand_stack ctx
               (expand_stack ctx ++ [call_label modname modfn]) in
  set_lua ctx (option_map (fun ops => (ops ++ [OpInvoke modname modfn])%list) (lua ctx)).

(** The body of [try] after the guest call and the two [except]
    clauses: [(ok, text)], or the exception that is not caught. *)
Definition unpack_outcome (outcome : guest_outcome) (ctx : Wtp)
  : result (pyval * pyval) * Wtp :=
  match outcome with
  | Returns (RetValue ret) => (Ok (ret, VStr ""), ctx)
  | Returns (RetTuple [ret0]) => (Ok (ret0, VStr ""), ctx)
  | Returns (RetTuple (ret0 :: ret1 :: _)) => (Ok (ret0, ret1), ctx)
  | Returns (RetTuple []) => (Raise IndexError, ctx)
  | RaisesUnicodeDecodeError =>
      (Ok (VBool true, VStr ""),
       debug ctx "invalid unicode returned from lua by {}: parent {}"
             None "luaexec/626")
  | RaisesLuaError e => (Ok (VBool false, VExc e), ctx)
  | RaisesOther e => (Raise e, ctx)
  end.

(** [call_lua_sandbox(ctx, invoke_args, expander, parent, timeout)] with
    the guest call [guest] standing for [ctx.lua_invoke]: the value
    returned or the exception that leaves the function, and the expander
    afterwards. *)
Definition call_lua_sandbox (guest : guest_fn) (ctx : Wtp)
           (invoke_args : list string) (expander : string -> string)
           (parent : option (string * arg_dict)) (timeout : option Z)
  : result string * Wtp :=
  if (List.length invoke_args <? 2)%nat then
    let ctx := debug ctx "#invoke {} with too few arguments" None "luaexec/369" in
    match invoke_args with
    | [] => (Raise IndexError, ctx)
    | name :: rest => (Ok ("{{" ++ name ++ ":" ++ Py.join "|" rest ++ "}}"), ctx)
    end
  else
    (* Initialize the Lua sandbox if not already initialized *)
    let ctx := ensure_ready ctx in
    let ctx := set_lua_depth ctx (lua_depth ctx + 1) in
    (* Get module and function name *)
    let modname := module_name expander invoke_args in
    let modfn := function_name expander invoke_args in
    (* Create parent frame and current frame *)
    match build_frames (lua ctx) expander parent invoke_args with
    | Raise e => (Raise e, ctx)
    | Ok frame =>
        (* Call the Lua function in the given module *)
        let stack_len := List.length (expand_stack ctx) in
        let ctx := enter_guest ctx modname modfn in
        let (ctx, outcome) := guest modname modfn frame (title ctx) timeout ctx in
        let (tried, ctx) := unpack_outcome outcome ctx in
        let ctx := pop_to stack_len ctx in        (* finally *)
        match tried with
        | Raise e => (Raise e, ctx)
        | Ok (ok, text) =>
            let ctx := set_lua_depth ctx (lua_depth ctx - 1) in
            if truthy ok then
              let text := match text with VNone => VStr "" | _ => text end in
              let text := str_of text in
              let text := nfc text in
              (Ok text, ctx)
            else
              let (text, ctx) := report_failure ctx modname modfn (failure_text text) in
              (Ok text, ctx)
        end
    end.

(** The expander as the guest call receives it. *)
Definition entry_state (ctx : Wtp) (invoke_args : list string)
           (expander : string -> string) : Wtp :=
  let ctx := ensure_ready ctx in
  let ctx := set_lua_depth ctx (lua_depth ctx + 1) in
  enter_guest ctx (module_name expander invoke_args)
              (function_name expander invoke_args).

(** The failures that return the empty text: the second and third
    message rules, which are tried when the first does not apply. *)
Definition swallowed (text : string) : bool :=
  negb (Py.contains "'debug.error'" text)
  && (Py.contains translations_marker text
      || (Py.contains "attempt to index a nil value (local 'lang')" text
          && Py.contains "in function 'Module:links.getLinkPage'" text)).

End Driver.

(** The key a numeric name is stored under. *)
Definition clamp (k : Z) : Z := if ((k <? 1) || (k >? 1000))%Z then 1000%Z else k.

(** The state of the loop of [make_frame] is in order: the counter is at
    least 1 and every integer key stored so far is at least 1 and below
    the counter. *)
Definition keys_below (st : arg_dict * Z) : Prop :=
  (1 <= snd st)%Z /\ forall z, In (ArgInt z) (map fst (fst st)) -> (1 <= z < snd st)%Z.

End Sandbox.

(** ** Sample data used by the examples *)

Module Samples.

Definition module_namespace : namespace_data :=
  {| ns_name := "Module"; ns_aliases := ["Mod"]; ns_id := 828 |}.

(** A content store that holds a page under an internal module name. *)
Definition store_with_internal_page : Wtp :=
  {| module_ns := module_namespace;
     pages := fun t _ => if (t =? "Module:_sandbox_phase2")%string
                         then Some "return untrusted" else None;
     title := "page"; lua := None; lua_depth := 0;
     expand_stack := []; diagnostics := [] |}.

Definition no_files : Loader.filesystem :=
  {| Loader.lua_dir := "/lua/"; Loader.file := fun _ => None |}.

(** An expander in the middle of a page, before the first invocation. *)
Definition fresh_ctx : Wtp :=
  {| module_ns := module_namespace; pages := fun _ _ => None;
     title := "page"; lua := None; lua_depth := 0;
     expand_stack := ["top"]; diagnostics := [] |}.

Definition identity (s : string) : string := s.

(** The argument [²=x]: the name is the superscript two. *)
Definition superscript_arg : string := String (Py.chr 178) "=x".

(** A guest call that fails with a guest-runtime error after a callback
    left its label on the expansion stack. *)
Definition failing_guest (message : string) : Sandbox.guest_fn :=
  fun _ _ _ _ _ ctx =>
    (set_expand_stack ctx (expand_stack ctx ++ ["frame:preprocess()"]),
     Sandbox.RaisesLuaError
       {| Sandbox.exc_str := message;
          Sandbox.exc_traceback := ["Traceback (most recent call last):"] |}).

(** A guest call that reports a failure by its return values: a false
    flag and the text of the error. *)
Definition reporting_guest (message : string) : Sandbox.guest_fn :=
  fun _ _ _ _ _ ctx =>
    (ctx, Sandbox.Returns (Sandbox.RetTuple [Sandbox.VBool false; Sandbox.VStr message])).


(** A guest call that returns a text. *)
Definition returning_guest (text : string) : Sandbox.guest_fn :=
  fun _ _ _ _ _ ctx => (ctx, Sandbox.Returns (Sandbox.RetTuple [Sandbox.VBool true; Sandbox.VStr text])).

(** Limits of the order a stock interpreter has: a recursion limit of
    1000, of which some frames are in use, and 4300 digits. *)
Definition stock_limits : Json.limits :=
  {| Json.recursion_depth := 900; Json.json_depth := 900;
     Json.int_max_str_digits := 4300 |}.

(** A guest heap in which no table has items. *)
Definition empty_heap : Json.heap := fun _ => [].

(** A guest heap in which every table holds itself under the key
    [self]. *)
Definition looping_heap : Json.heap := fun r => [(Json.KStr "self", Json.PRef r)].

(** The table with the keys 1, 2, 3, listed in that order, and the same
    table as a runtime may list it. *)
Definition table_123 : Json.pyobj :=
  Json.PTable [(Json.KInt 1, Json.PStr "a"); (Json.KInt 2, Json.PStr "b");
               (Json.KInt 3, Json.PStr "c")].


Definition translations_message : string :=
  "Module:translations:40: Translations must be for attested and approved main-namespace terms.".

Definition translations_debug_message : string :=
  "Module:debug:12: Translations must be for attested and approved terms; in function 'debug.error'".

End Samples.

(** ** Closed forms of the substitutions

    The functions below say by plain recursion on the text what a
    repetition over a character class matches and what the substitutions
    of [lua_loader] produce; they are proved equal to the patterns run by
    the matcher. *)

Module Scan.

(** A repetition of a character class followed by [k], on the input
    itself: at each character of the class the repetition can go on or
    stop, the greedy one trying to go on first. *)
Fixpoint star_class {A : Type} (greedy : bool) (p : ascii -> bool) (pos : nat)
         (s : string) (c : Re.captures)
         (k : nat -> string -> Re.captures -> option A) : option A :=
  match s with
  | String a s' =>
      if p a then
        if greedy then
          match star_class greedy p (S pos) s' c k with
          | Some x => Some x
          | None => k pos s c
          end
        else
          match k pos s c with
          | Some x => Some x
          | None => star_class greedy p (S pos) s' c k
          end
      else k pos s c
  | EmptyString => k pos s c
  end.

(** The loop of the matcher for a repetition, with the run of the
    repeated pattern as [body]. *)
Definition star_loop {A : Type} (greedy : bool)
           (body : nat -> string -> Re.captures ->
                   (nat -> string -> Re.captures -> option A) -> option A)
           (k : nat -> string -> Re.captures -> option A)
  : nat -> nat -> string -> Re.captures -> option A :=
  fix loop (fuel : nat) (pos : nat) (s : string) (c : Re.captures) {struct fuel}
    : option A :=
    match fuel with
    | O => k pos s c
    | S fuel' =>
        let again :=
          body pos s c
               (fun pos' s' c' =>
                  if (pos <? pos')%nat then loop fuel' pos' s' c' else None) in
        if greedy then
          match again with
          | Some x => Some x
          | None => k pos s c
          end
        else
          match k pos s c with
          | Some x => Some x
          | None => again
          end
    end.

(** The number of characters of the class [p] the text starts with. *)
Fixpoint span (p : ascii -> bool) (s : string) : nat :=
  match s with
  | String a s' => if p a then S (span p s') else 0
  | EmptyString => 0
  end.

(** The text without the characters of the class [p]. *)
Fixpoint remove (p : ascii -> bool) (s : string) : string :=
  match s with
  | String a s' => if p a then remove p s' else String a (remove p s')
  | EmptyString => EmptyString
  end.

(** The text in which a character [x] that comes right after an [x] is
    left out; [in_run] says that the character before was an [x]. *)
Fixpoint squeeze_after (x : ascii) (in_run : bool) (s : string) : string :=
  match s with
  | String a s' =>
      if Ascii.eqb a x then
        if in_run then squeeze_after x true s'
        else String a (squeeze_after x true s')
      else String a (squeeze_after x false s')
  | EmptyString => EmptyString
  end.

Definition squeeze (x : ascii) (s : string) : string := squeeze_after x false s.

(** No character [y] comes right after a [y]; [prev] says that the
    character before the text was a [y]. *)
Fixpoint no_double_after (y : ascii) (prev : bool) (s : string) : bool :=
  match s with
  | String a s' =>
      if Ascii.eqb a y then negb prev && no_double_after y true s'
      else no_double_after y false s'
  | EmptyString => true
  end.

Definition no_double (y : ascii) (s : string) : bool := no_double_after y false s.

(** The pattern [xx+] for a character [x]. *)
Definition doubled (x : ascii) : Re.regex :=
  Re.Seq (Re.lit_char x) (Re.Seq (Re.lit_char x) (Re.Star true (Re.lit_char x))).

Definition is_control (a : ascii) : bool :=
  (0 <=? Py.ord a)%nat && (Py.ord a <=? 31)%nat.

(** The characters a library file name is made of before the extension:
    no control character, no colon, no space. *)
Definition path_char (a : ascii) : bool :=
  negb (is_control a) && negb (Ascii.eqb a ":") && negb (Ascii.eqb a " ").

(** Every character class of the pattern lies within [P]. *)
Fixpoint classes_within (P : ascii -> bool) (r : Re.regex) : Prop :=
  match r with
  | Re.Chr p => forall a, p a = true -> P a = true
  | Re.Seq r1 r2 | Re.Alt r1 r2 => classes_within P r1 /\ classes_within P r2
  | Re.Star _ r1 | Re.Group _ r1 => classes_within P r1
  | Re.Eps | Re.Bol | Re.Eol => True
  end.

End Scan.

(** ** The search for a library file, in words of the roots *)

Module Search.
Import Loader.

(** [modname in exceptions] *)
Definition excluded (modname : string) (exceptions : list string) : bool :=
  existsb (String.eqb modname) exceptions.

(** [lua_dir + prefix + "/" + path] *)
Definition probe_path (fs : filesystem) (root path : string) : string :=
  lua_dir fs ++ root ++ "/" ++ path.

(** The tests [os.path.isfile] made for the roots of a list that do not
    exclude the module. *)
Definition probes (fs : filesystem) (modname path : string)
           (roots : list (string * list string)) : list io_event :=
  map (fun re => IsFile (probe_path fs (fst re) path))
      (filter (fun re => negb (excluded modname (snd re))) roots).

End Search.

(** ** Encoding of text

    [mw_text_encode(text, charset)] for a [str] argument. *)

Module Encode.

(** [html.entities.codepoint2name] on the code points below 256. *)
Definition codepoint2name_table : list (nat * string) :=
  [ (34, "quot"); (38, "amp"); (60, "lt"); (62, "gt"); (160, "nbsp");
    (161, "iexcl"); (162, "cent"); (163, "pound"); (164, "curren");
    (165, "yen"); (166, "brvbar"); (167, "sect"); (168, "uml");
    (169, "copy"); (170, "ordf"); (171, "laquo"); (172, "not"); (173, "shy");
    (174, "reg"); (175, "macr"); (176, "deg"); (177, "plusmn");
    (178, "sup2"); (179, "sup3"); (180, "acute"); (181, "micro");
    (182, "para"); (183, "middot"); (184, "cedil"); (185, "sup1");
    (186, "ordm"); (187, "raquo"); (188, "frac14"); (189, "frac12");
    (190, "frac34"); (191, "iquest"); (192, "Agrave"); (193, "Aacute");
    (194, "Acirc"); (195, "Atilde"); (196, "Auml"); (197, "Aring");
    (198, "AElig"); (199, "Ccedil"); (200, "Egrave"); (201, "Eacute");
    (202, "Ecirc"); (203, "Euml"); (204, "Igrave"); (205, "Iacute");
    (206, "Icirc"); (207, "Iuml"); (208, "ETH"); (209, "Ntilde");
    (210, "Ograve"); (211, "Oacute"); (212, "Ocirc"); (213, "Otilde");
    (214, "Ouml"); (215, "times"); (216, "Oslash"); (217, "Ugrave");
    (218, "Uacute"); (219, "Ucirc"); (220, "Uuml"); (221, "Yacute");
    (222, "THORN"); (223, "szlig"); (224, "agrave"); (225, "aacute");
    (226, "acirc"); (227, "atilde"); (228, "auml"); (229, "aring");
    (230, "aelig"); (231, "ccedil"); (232, "egrave"); (233, "eacute");
    (234, "ecirc"); (235, "euml"); (236, "igrave"); (237, "iacute");
    (238, "icirc"); (239, "iuml"); (240, "eth"); (241, "ntilde");
    (242, "ograve"); (243, "oacute"); (244, "ocirc"); (245, "otilde");
    (246, "ouml"); (247, "divide"); (248, "oslash"); (249, "ugrave");
    (250, "uacute"); (251, "ucirc"); (252, "uuml"); (253, "yacute");
    (254, "thorn"); (255, "yuml") ].

(** [html.entities.codepoint2name.get(chn)] *)
Definition codepoint2name (chn : nat) : option string :=
  option_map snd (find (fun e => (fst e =? chn)%nat) codepoint2name_table).

(** [ch in charset] for a character and a string. *)
Definition in_charset (ch : ascii) (charset : string) : bool :=
  Py.contains (String ch "") charset.

(** What one turn of the loop appends to [parts]. *)
Definition encode_char (ch : ascii) (charset : string) : string :=
  if in_charset ch charset then
    let chn := Py.ord ch in
    match codepoint2name chn with
    | Some name => "&" ++ name ++ ";"
    | None => String ch ""
    end
  else String ch "".

Fixpoint encode_parts (text charset : string) : list string :=
  match text with
  | EmptyString => []
  | String ch text' => encode_char ch charset :: encode_parts text' charset
  end.

(** [mw_text_encode(text, charset)] *)
Definition mw_text_encode (text charset : string) : string :=
  Py.join "" (encode_parts text charset).

(** A character that has a name in the table. *)
Definition named (ch : ascii) : bool :=
  match codepoint2name (Py.ord ch) with
  | Some _ => true
  | None => false
  end.

(** A letter or a digit of ASCII. *)
Definition alnum (a : ascii) : bool :=
  let n := Py.ord a in
  (((48 <=? n) && (n <=? 57)) || ((65 <=? n) && (n <=? 90))
   || ((97 <=? n) && (n <=? 122)))%nat.

End Encode.

(** ** Frame arguments given by position *)

Module Positional.
Import Sandbox.

(** The dictionary with the keys [num], [num + 1], ... for the values of
    a list, each value passed through [clean]. *)
Fixpoint positional (clean : string -> string) (num : Z) (l : list string) : arg_dict :=
  match l with
  | [] => []
  | arg :: l' => (ArgInt num, clean arg) :: positional clean (num + 1) l'
  end.

(** The class of the pattern for an argument name: any character except
    the angle brackets, the equals sign and the two quotes. *)
Definition name_char (a : ascii) : bool :=
  negb (Py.contains (String a EmptyString) (String Html.dquote "<>='")).

(** A text that has no name part: going from the left, an angle bracket
    or a quote comes before any equals sign, or there is no equals sign. *)
Fixpoint no_name_part (s : string) : bool :=
  match s with
  | EmptyString => true
  | String a s' =>
      if name_char a then no_name_part s' else negb (Ascii.eqb a "=")
  end.

End Positional.

(** ** Guest data for the JSON functions *)

Module JsonData.
Import Json.

(** A scalar, or a table given by its items that the runtime lists under
    the keys 1, 2, ..., N in that order and whose values are of that kind
    again. *)
Fixpoint listed (v : pyobj) : bool :=
  match v with
  | PBool _ | PInt _ | PFloat _ | PStr _ => true
  | PTable t => listed_from listed 1 t
  | _ => false
  end.

(** What a guest can hand over as data: [nil], scalars, and tables of
    such values under any keys, each table given by its items. *)
Fixpoint guest_data (v : pyobj) : bool :=
  match v with
  | PNone | PBool _ | PInt _ | PFloat _ | PStr _ => true
  | PTable t => forallb (fun kv => guest_data (snd kv)) t
  | _ => false
  end.

(** How deep the tables of a value are nested. *)
Fixpoint height (v : pyobj) : nat :=
  match v with
  | PTable t => S (fold_right (fun kv n => Nat.max (height (snd kv)) n) 0%nat t)
  | _ => 0%nat
  end.

Definition key_fits (maxd : nat) (k : pykey) : bool :=
  match k with
  | KInt z => negb (too_many_digits maxd (digits z))
  | _ => true
  end.

(** Every integer of the value, the integer keys included, has no more
    digits than the limit allows. *)
Fixpoint ints_fit (maxd : nat) (v : pyobj) : bool :=
  match v with
  | PInt z => negb (too_many_digits maxd (digits z))
  | PTable t => forallb (fun kv => key_fits maxd (fst kv) && ints_fit maxd (snd kv)) t
  | _ => true
  end.

(** How deep the arrays and objects of a document are nested. *)
Fixpoint nesting (j : json) : nat :=
  match j with
  | JArr l => S (fold_right (fun x n => Nat.max (nesting x) n) 0%nat l)
  | JObj ms => S (fold_right (fun m n => Nat.max (nesting (snd m)) n) 0%nat ms)
  | _ => 0%nat
  end.

(** Every integer literal of the document has no more digits than the
    limit allows. *)
Fixpoint literals_fit (maxd : nat) (j : json) : bool :=
  match j with
  | JInt z => negb (too_many_digits maxd (digits z))
  | JArr l => forallb (literals_fit maxd) l
  | JObj ms => forallb (fun m => literals_fit maxd (snd m)) ms
  | _ => true
  end.

Definition returns {A : Type} (r : result A) : bool :=
  match r with
  | Ok _ => true
  | Raise _ => false
  end.

(** [int] accepts every member name of the document that [isdigit]
    accepts. *)
Fixpoint names_convert (maxd : nat) (j : json) : bool :=
  match j with
  | JArr l => forallb (names_convert maxd) l
  | JObj ms =>
      forallb (fun m => returns (coerce_name maxd (fst m)) && names_convert maxd (snd m)) ms
  | _ => true
  end.

End JsonData.

(** ** Labels and descriptions from the query service

    [query_wikidata], [mw_wikibase_getlabel] and
    [mw_wikibase_getdescription]. The network is a function from the item
    to what [requests.get] gives; the memo table of [functools.cache] is
    passed along. What the functions print is left out. *)

Module Wikidata.

(** One binding of the result: for each variable of the query a
    dictionary of strings. *)
Definition binding : Type := list (string * list (string * string)).

(** The response [r]: [r.ok], and for [r.json()] either the exception it
    raises or the list [result.get("results", {}).get("bindings", [])]. *)
Record response : Type := {
  r_ok : bool;
  r_bindings : result (list binding)
}.

(** [d.get(k, default)] *)
Fixpoint dict_get {V : Type} (d : list (string * V)) (k : string) (default : V) : V :=
  match d with
  | [] => default
  | (k', v) :: d' => if (k' =? k)%string then v else dict_get d' k default
  end.

(** The body of [query_wikidata]: the first binding of a response that
    is [ok]; [None] when the response is not [ok], and also when it has no
    binding, where the loop ends and the function returns nothing. *)
Definition query_wikidata_body (http : string -> result response) (item_id : string)
  : result (option binding) :=
  r <- http item_id ;;
  if r_ok r then
    bindings <- r_bindings r ;;
    match bindings with
    | binding :: _ => Ok (Some binding)
    | [] => Ok None
    end
  else Ok None.

(** The memo table: the values returned so far, by argument. *)
Definition cache : Type := list (string * option binding).

Fixpoint cache_find (c : cache) (item_id : string) : option (option binding) :=
  match c with
  | [] => None
  | (k, v) :: c' => if (k =? item_id)%string then Some v else cache_find c' item_id
  end.

(** [query_wikidata(item_id)] under [functools.cache]: the value, the
    memo table afterwards and the requests sent. A call that raises
    stores nothing. *)
Definition query_wikidata (http : string -> result response) (c : cache)
           (item_id : string) : result (option binding) * cache * list string :=
  match cache_find c item_id with
  | Some v => (Ok v, c, [])
  | None =>
      match query_wikidata_body http item_id with
      | Ok v => (Ok v, (item_id, v) :: c, [item_id])
      | Raise e => (Raise e, c, [item_id])
      end
  end.

(** [item_data.get(field, {}).get("value", item_id)], where [item_data]
    can be [None]. *)
Definition value_of (field : string) (item_data : option binding) (item_id : string)
  : result string :=
  match item_data with
  | None => Raise (AttributeError "get")
  | Some d => Ok (dict_get (dict_get d field []) "value" item_id)
  end.

(** [mw_wikibase_getlabel(item_id)] *)
Definition mw_wikibase_getlabel (http : string -> result response) (c : cache)
           (item_id : string) : result string * cache * list string :=
  let '(item_data, c, sent) := query_wikidata http c item_id in
  (item_data <- item_data ;; value_of "itemLabel" item_data item_id, c, sent).

(** [mw_wikibase_getdescription(item_id)] *)
Definition mw_wikibase_getdescription (http : string -> result response) (c : cache)
           (item_id : string) : result string * cache * list string :=
  let '(item_data, c, sent) := query_wikidata http c item_id in
  (item_data <- item_data ;; value_of "itemDescription" item_data item_id, c, sent).

End Wikidata.

(** Neither of the two angle brackets. *)
Definition no_angle (a : ascii) : bool :=
  negb (Ascii.eqb a "<") && negb (Ascii.eqb a ">").

(** Further sample data. *)
Module Cases.

(** A content store that holds one module page. *)
Definition store_with_links : Wtp :=
  {| module_ns := Samples.module_namespace;
     pages := fun t ns => if ((t =? "Module:links")%string && (ns =? 828)%Z)%bool
                          then Some "return {}" else None;
     title := "page"; lua := None; lua_depth := 0;
     expand_stack := []; diagnostics := [] |}.

(** A character set: the two angle brackets, the ampersand, the two
    quotes and the no-break space. *)
Definition markup_charset : string :=
  "<>&" ++ String Html.dquote (String Html.squote Text.nbsp).

(** A guest call that leaves the expander as it is and ends with
    [outcome]. *)
Definition guest_of (outcome : Sandbox.guest_outcome) : Sandbox.guest_fn :=
  fun _ _ _ _ _ ctx => (ctx, outcome).

(** A query service that answers every item with one binding. *)
Definition service_up : string -> result Wikidata.response :=
  fun _ => Ok {| Wikidata.r_ok := true;
                 Wikidata.r_bindings :=
                   Ok [[("itemLabel", [("type", "literal"); ("value", "Douglas Adams")])]] |}.

(** A query service that answers with a status that is not [ok]. *)
Definition service_down : string -> result Wikidata.response :=
  fun _ => Ok {| Wikidata.r_ok := false; Wikidata.r_bindings := Ok [] |}.

End Cases.

(** * Properties *)

Lemma prefix_cons c p a s : prefix (String c p) (String a s) = Ascii.eqb c a && prefix p s.
Proof.
  simpl. destruct (ascii_dec c a) as [->|H].
  - now rewrite Ascii.eqb_refl.
  - apply Ascii.eqb_neq in H. now rewrite H.
Qed.

Lemma prefix_empty s : prefix "" s = true.
Proof. now destruct s. Qed.

Lemma prefix_of_empty c p : prefix (String c p) "" = false.
Proof. reflexivity. Qed.

Lemma eqb_false_l a c : a <> c -> Ascii.eqb c a = false.
Proof. intro H. apply Ascii.eqb_neq. congruence. Qed.

Ltac eval_eqb :=
  repeat match goal with
  | |- context [Ascii.eqb ?c ?d] =>
      let v := eval vm_compute in (Ascii.eqb c d) in
      match v with
      | true => change (Ascii.eqb c d) with true
      | false => change (Ascii.eqb c d) with false
      end
  end.

Ltac simp :=
  repeat (progress (cbn -[Ascii.eqb Nat.sub Nat.add prefix];
                    rewrite ?prefix_cons, ?prefix_empty, ?prefix_of_empty;
                    repeat (rewrite eqb_false_l by assumption);
                    eval_eqb)).

Ltac next_char s cs :=
  let a := fresh "a" in
  destruct s as [|a s]; [simp; reflexivity|];
  let rec go cs :=
    lazymatch cs with
    | nil => simp; try reflexivity
    | ?c :: ?cs' => destruct (Ascii.eqb_spec a c); [subst a; simp | go cs']
    end in go cs.

Ltac fin n :=
  match goal with |- context [?a - ?b] => replace (a - b) with n by lia end;
  cbn; f_equal; f_equal; lia.

Lemma match_at_entity pos s : Re.match_at Text.entity_re pos s = Text.entity_match pos s.
Proof.
  unfold Re.match_at, Text.entity_re, Text.entity_match.
  next_char s ["&"%char].
  next_char s ["l"%char; "g"%char; "a"%char; "q"%char; "n"%char].
  - next_char s ["t"%char]. next_char s [";"%char]. fin 2.
  - next_char s ["t"%char]. next_char s [";"%char]. fin 2.
  - next_char s ["m"%char]. next_char s ["p"%char]. next_char s [";"%char]. fin 3.
  - next_char s ["u"%char]. next_char s ["o"%char]. next_char s ["t"%char].
    next_char s [";"%char]. fin 4.
  - next_char s ["b"%char]. next_char s ["s"%char]. next_char s ["p"%char].
    next_char s [";"%char]. fin 4.
Qed.

(* string facts *)
Lemma append_nil_r s : s ++ "" = s.
Proof. induction s; simpl; congruence. Qed.

Lemma append_assoc (a b c : string) : (a ++ b) ++ c = a ++ (b ++ c).
Proof. induction a; simpl; congruence. Qed.

Lemma length_append (a b : string) : String.length (a ++ b) = String.length a + String.length b.
Proof. induction a; simpl; congruence. Qed.

Lemma substring_zero n s : substring n 0 s = "".
Proof.
  revert n. induction s; intros [|n]; simpl; auto.
Qed.

Lemma substring_drop p t : substring p (String.length t - p) t = Py.drop p t.
Proof.
  revert p. induction t as [|a t IH]; intros [|p]; simpl; auto.
  f_equal. specialize (IH 0). rewrite Nat.sub_0_r in IH. destruct t; simpl in *; auto.
Qed.

Lemma substring_snoc p pre a s' :
  p <= String.length pre ->
  substring p (S (String.length pre) - p) (pre ++ String a s')
  = substring p (String.length pre - p) (pre ++ String a s') ++ String a "".
Proof.
  revert p. induction pre as [|b pre IH]; intros p Hp; simpl in *.
  - assert (p = 0) by lia. subst. simpl. now rewrite substring_zero.
  - destruct p as [|p].
    + simpl. f_equal. specialize (IH 0 (Nat.le_0_l _)).
      rewrite !Nat.sub_0_r in IH.  exact IH.
    + simpl. apply IH. lia.
Qed.

Lemma join_snoc parts x : Py.join "" (parts ++ [x])%list = Py.join "" parts ++ x.
Proof.
  unfold Py.join. induction parts as [|y parts IH]; simpl.
  - reflexivity.
  - destruct parts as [|z parts]; simpl in *.
    + reflexivity.
    + rewrite IH. now rewrite append_assoc.
Qed.

Lemma prefix_split e s : prefix e s = true -> s = e ++ Py.drop (String.length e) s.
Proof.
  revert s. induction e as [|c e IH]; intros s H.
  - reflexivity.
  - destruct s as [|a s]; [discriminate|].
    rewrite prefix_cons in H. apply andb_true_iff in H as [H1 H2].
    apply Ascii.eqb_eq in H1. subst. simpl. f_equal. auto.
Qed.

Lemma prefix_app e s : prefix e (e ++ s) = true.
Proof.
  induction e as [|c e IH]; [apply prefix_empty|].
  simpl append. rewrite prefix_cons, Ascii.eqb_refl. exact IH.
Qed.

Lemma entity_cases s :
  (exists e tag ch len,
      In (e, ch) Text.entities /\ prefix e s = true /\ String.length e = len /\ 4 <= len
      /\ (forall pos, Text.entity_match pos s = Some (pos + len, [(1, tag)]))
      /\ Text.entity_at s = Some (len, ch)
      /\ (forall text parts p pos e',
             Text.decode_match text (parts, p) (pos, e', [(1, tag)])
             = Ok (((if (p <? pos)%nat then (parts ++ [Py.slice text p pos])%list else parts)
                    ++ [ch])%list, e')))
  \/ ((forall pos, Text.entity_match pos s = None) /\ Text.entity_at s = None
      /\ forall e c, In (e, c) Text.entities -> prefix e s = false).
Proof.
  unfold Text.entity_match, Text.entity_at.
  destruct (prefix "&lt;" s) eqn:E1.
  { left. exists "&lt;", "lt", "<", 4. simpl. repeat split; auto. }
  destruct (prefix "&gt;" s) eqn:E2.
  { left. exists "&gt;", "gt", ">", 4. simpl. repeat split; auto. }
  destruct (prefix "&amp;" s) eqn:E3.
  { left. exists "&amp;", "amp", "&", 5. simpl. repeat split; auto 6. }
  destruct (prefix "&quot;" s) eqn:E4.
  { left. exists "&quot;", "quot", (String Html.dquote ""), 6. simpl. repeat split; auto 6. }
  destruct (prefix "&nbsp;" s) eqn:E5.
  { left. exists "&nbsp;", "nbsp", Text.nbsp, 6. simpl. repeat split; auto 7. }
  right. repeat split; auto.
  intros e c H. simpl in H.
  repeat (destruct H as [H|H]; [inversion H; subst; assumption|]). contradiction.
Qed.

Lemma slice_empty text i j : j <= i -> Py.slice text i j = "".
Proof.
  intro H. unfold Py.slice. replace (j - i) with 0 by lia. apply substring_zero.
Qed.

Lemma decode_loop_scan s :
  forall pre parts p skip,
    (skip = 0 -> p <= String.length pre) ->
    (0 < skip -> p = String.length pre + skip /\ skip <= String.length s) ->
    exists st,
      Text.decode_loop (pre ++ s)
        (Re.finditer_from Text.entity_re (String.length pre) skip s) (parts, p) = Ok st
      /\ Text.finalize (pre ++ s) st
         = Py.join "" parts ++ Py.slice (pre ++ s) p (String.length pre)
           ++ Text.decode_scan skip s.
Proof.
  induction s as [|a s IH]; intros pre parts p skip H0 H1.
  - destruct skip; [|simpl in H1; lia].
    exists (parts, p). split; [reflexivity|].
    simpl. rewrite join_snoc. f_equal. unfold Py.slice_from, Py.slice.
    rewrite append_nil_r. rewrite substring_drop. now rewrite append_nil_r.
  - assert (Etext : pre ++ String a s = (pre ++ String a "") ++ s)
      by (now rewrite append_assoc).
    assert (Elen : String.length (pre ++ String a "") = S (String.length pre))
      by (rewrite length_append; simpl; lia).
    destruct skip as [|k].
    + specialize (H0 eq_refl).
      simpl Re.finditer_from. rewrite match_at_entity.
      destruct (entity_cases (String a s))
        as [(e & tag & ch & len & Hin & Hpre & Hlen & H4 & Hm & Hat & Hstep)
           |(Hm & Hat & Hnone)].
      * rewrite Hm. replace (String.length pre <? String.length pre + len)%nat with true
          by (symmetry; apply Nat.ltb_lt; lia).
        cbn [Text.decode_loop]. rewrite Hstep. cbn [bind].
        assert (Hls : len <= S (String.length s)).
        { apply prefix_split in Hpre. apply (f_equal String.length) in Hpre.
          rewrite length_append in Hpre. simpl in Hpre. lia. }
        destruct (IH (pre ++ String a "")
                     ((if (p <? String.length pre)%nat
                       then (parts ++ [Py.slice (pre ++ String a s) p (String.length pre)])%list
                       else parts) ++ [ch])%list
                     (String.length pre + len)
                     (String.length pre + len - String.length pre - 1))
          as (st & Hst & Hfin).
        { intros; lia. }
        { intros _. rewrite Elen. split; lia. }
        rewrite <- Etext in Hst, Hfin. rewrite Elen in Hst, Hfin.
        exists st. split; [exact Hst|].
        rewrite Hfin. rewrite join_snoc.
        simpl Text.decode_scan. rewrite Hat.
        replace (String.length pre + len - String.length pre - 1) with (len - 1) by lia.
        rewrite (slice_empty _ (String.length pre + len)) by lia. simpl append.
        rewrite <- !append_assoc. f_equal.
        destruct (p <? String.length pre)%nat eqn:Ep.
        -- now rewrite join_snoc.
        -- apply Nat.ltb_ge in Ep.
           rewrite slice_empty by lia. now rewrite append_nil_r.
      * rewrite Hm.
        destruct (IH (pre ++ String a "") parts p 0) as (st & Hst & Hfin).
        { intros _. rewrite Elen. lia. }
        { intros; lia. }
        rewrite <- Etext in Hst, Hfin. rewrite Elen in Hst, Hfin.
        exists st. split; [exact Hst|].
        rewrite Hfin. simpl Text.decode_scan. rewrite Hat.
        f_equal. unfold Py.slice. rewrite substring_snoc by assumption.
        now rewrite append_assoc.
    + destruct (H1 (Nat.lt_0_succ _)) as [Hp Hk]. simpl in Hk.
      simpl Re.finditer_from.
      destruct (IH (pre ++ String a "") parts p k) as (st & Hst & Hfin).
      { intros ->. rewrite Elen. lia. }
      { intros Hk0. rewrite Elen. split; lia. }
      rewrite <- Etext in Hst, Hfin. rewrite Elen in Hst, Hfin.
      exists st. split; [exact Hst|].
      rewrite Hfin. simpl Text.decode_scan.
      now rewrite !slice_empty by lia.
Qed.

Lemma decode_scan_skip x rest :
  Text.decode_scan (String.length x) (x ++ rest) = Text.decode_scan 0 rest.
Proof.
  induction x as [|a x IH]; simpl.
  - destruct rest; reflexivity.
  - exact IH.
Qed.

Lemma decode_scan_Decodes n :
  forall s, String.length s <= n -> Text.Decodes s (Text.decode_scan 0 s).
Proof.
  induction n as [|n IH]; intros s Hn.
  - destruct s; [constructor|simpl in Hn; lia].
  - destruct s as [|a s]; [constructor|].
    cbn [Text.decode_scan].
    destruct (entity_cases (String a s))
      as [(e & tag & ch & len & Hin & Hpre & Hlen & H4 & _ & Hat & _)|(_ & Hat & Hnone)];
      rewrite Hat.
    + pose proof (prefix_split _ _ Hpre) as Hs.
      destruct e as [|b e]; [simpl in Hlen; lia|].
      simpl in Hs. injection Hs as Hb Hs. subst b.
      rewrite Hs at 1. rewrite Hs at 2. simpl in Hlen. subst len. simpl. rewrite Nat.sub_0_r.
      rewrite decode_scan_skip.
      apply (Text.Decodes_entity (String a e) ch); [exact Hin|].
      apply IH. apply (f_equal String.length) in Hs. rewrite length_append in Hs.
      simpl in Hn. lia.
    + apply Text.Decodes_char; [exact Hnone|]. apply IH. simpl in Hn. lia.
Qed.

Lemma entities_disjoint e c e' c' r r' :
  In (e, c) Text.entities -> In (e', c') Text.entities ->
  e ++ r = e' ++ r' -> e = e' /\ c = c' /\ r = r'.
Proof.
  intros H H' E. simpl in H, H'.
  repeat (destruct H as [H|H]; [inversion H; subst; clear H|]); try contradiction;
  repeat (destruct H' as [H'|H']; [inversion H'; subst; clear H'|]); try contradiction;
  simpl in E; try discriminate; inversion E; auto.
Qed.

Lemma Decodes_functional text o1 :
  Text.Decodes text o1 -> forall o2, Text.Decodes text o2 -> o1 = o2.
Proof.
  induction 1 as [|e c rest out Hin Hd IH|a rest out Hno Hd IH]; intros o2 H2.
  - inversion H2; subst; auto.
    exfalso. destruct e; [|discriminate].
    simpl in H0. repeat (destruct H0 as [H0|H0]; [discriminate|]). contradiction.
  - inversion H2; subst.
    + exfalso. destruct e; [|discriminate].
      simpl in Hin. repeat (destruct Hin as [Hin|Hin]; [discriminate|]). contradiction.
    + destruct (entities_disjoint _ _ _ _ _ _ Hin H0 (eq_sym H)) as (-> & -> & ->).
      f_equal. auto.
    + exfalso. specialize (H0 _ _ Hin). pose proof (prefix_app e rest) as P.
      congruence.
  - inversion H2; subst.
    + exfalso. specialize (Hno _ _ H0). pose proof (prefix_app e rest0) as P.
      congruence.
    + f_equal. auto.
Qed.

Theorem mw_text_decode_spec :
  forall (charref_sub : string -> string) (text : string),
    Text.mw_text_decode charref_sub text true = Ok (Html.unescape charref_sub text)
    /\ exists out,
        Text.mw_text_decode charref_sub text false = Ok out
        /\ Text.Decodes text out
        /\ forall out', Text.Decodes text out' -> out' = out.
Proof.
  intros cs text. split; [reflexivity|].
  destruct (decode_loop_scan text "" [] 0 0) as (st & Hst & Hfin);
    [simpl; lia | lia |].
  simpl in Hst, Hfin.
  exists (Text.decode_scan 0 text).
  assert (HD : Text.Decodes text (Text.decode_scan 0 text))
    by (apply (decode_scan_Decodes (String.length text)); lia).
  repeat split.
  - unfold Text.mw_text_decode, Re.finditer. cbn [negb]. rewrite Hst. cbn [bind].
    destruct st as [parts pos]. simpl in Hfin. rewrite Hfin.
    now rewrite slice_empty by lia.
  - exact HD.
  - intros out' H'. symmetry. exact (Decodes_functional _ _ HD _ H').
Qed.

(** ** The module loader *)

Lemma startswith_app p s : Py.startswith (p ++ s) p = true.
Proof. apply prefix_app. Qed.

Lemma startswith_app_assoc p q s : Py.startswith (p ++ q ++ s) (p ++ q) = true.
Proof. rewrite <- append_assoc. apply prefix_app. Qed.

Lemma startswith_weaken p q s :
  Py.startswith s (p ++ q) = true -> Py.startswith s p = true.
Proof.
  unfold Py.startswith. revert s. induction p as [|c p IH]; intros s H.
  - apply prefix_empty.
  - destruct s as [|a s]; [discriminate|].
    simpl append in H. rewrite prefix_cons in *.
    apply andb_true_iff in H as [H1 H2]. rewrite H1. simpl. auto.
Qed.

(** The branch taken for a name of the content store that starts with the
    marker, whatever the store and the file system hold. *)
Lemma internal_name_is_refused fs ctx modname :
  Py.startswith_any (Loader.canonical_modname ctx modname)
                    ["Module:_"; (ns_name (module_ns ctx) ++ ":") ++ "_"] = true ->
  Loader.lua_loader fs ctx modname = ([], None).
Proof.
  intro H. unfold Loader.lua_loader. cbv zeta.
  rewrite H.
  assert (Hns : Py.startswith_any (Loader.canonical_modname ctx modname)
                  ["Module:"; ns_name (module_ns ctx) ++ ":"] = true).
  { unfold Py.startswith_any in *. simpl in *.
    apply orb_true_iff in H as [H|H].
    - apply (startswith_weaken "Module:" "_") in H. now rewrite H.
    - rewrite orb_false_r in H. apply startswith_weaken in H. rewrite H.
      now rewrite orb_true_r. }
  now rewrite Hns.
Qed.

(** C1. A module reference whose name, once trimmed and with an alias
    rewritten to the namespace prefix, is the prefix [Module:] or the
    configured namespace prefix followed by an underscore is never read
    from the content store: the loader performs no read at all and returns
    [None], whatever the store holds under that title. *)
Theorem lua_loader_internal_module_not_from_store :
  forall (fs : Loader.filesystem) (ctx : Wtp) (modname prefix local : string),
    In prefix ["Module:"; ns_name (module_ns ctx) ++ ":"] ->
    Loader.canonical_modname ctx modname = prefix ++ "_" ++ local ->
    Loader.lua_loader fs ctx modname = ([], None)
    /\ forall title ns,
        ~ In (Loader.ReadByTitle title ns) (fst (Loader.lua_loader fs ctx modname)).
Proof.
  intros fs ctx modname p local Hp Hcanon.
  assert (E : Loader.lua_loader fs ctx modname = ([], None)).
  { apply internal_name_is_refused. rewrite Hcanon.
    unfold Py.startswith_any. cbn [existsb].
    destruct Hp as [<-|[<-|[]]].
    - pose proof (startswith_app_assoc "Module:" "_" local) as Q.
      simpl in Q |- *. now rewrite Q.
    - rewrite (startswith_app_assoc (ns_name (module_ns ctx) ++ ":") "_" local).
      now rewrite orb_true_r. }
  split; [exact E|]. intros t ns. rewrite E. simpl. tauto.
Qed.

Lemma lua_loader_internal_module_not_from_store_witness :
  pages Samples.store_with_internal_page "Module:_sandbox_phase2" 828 = Some "return untrusted"
  /\ Loader.canonical_modname Samples.store_with_internal_page " Mod:_sandbox_phase2 "
     = "Module:" ++ "_" ++ "sandbox_phase2"
  /\ Loader.lua_loader Samples.no_files Samples.store_with_internal_page " Mod:_sandbox_phase2 "
     = ([], None).
Proof.
  split; [reflexivity|]. split; [reflexivity|].
  apply (lua_loader_internal_module_not_from_store
           Samples.no_files Samples.store_with_internal_page " Mod:_sandbox_phase2 "
           "Module:" "sandbox_phase2").
  - simpl. auto.
  - reflexivity.
Defined.

(** A name of the store that does not start with the marker is read from
    the store. *)
Example lua_loader_reads_other_modules :
  Loader.lua_loader Samples.no_files Samples.store_with_internal_page "Mod:links"
  = ([Loader.ReadByTitle "Module:links" 828], None).
Proof. reflexivity. Qed.

(** ** The attribute filter *)

(** C9. The attribute filter lets an access through, returning the name,
    exactly when the name is a string that does not begin with an
    underscore; a name that is not a string and a name that begins with an
    underscore raise [AttributeError("access denied")]. Reading and
    writing are treated alike, and the object is not looked at. *)
Theorem filter_attribute_access_spec :
  forall (O : Type) (obj : O) (name : attr_name) (is_setting : bool),
    (filter_attribute_access obj name is_setting = Ok name
     <-> exists s, name = AttrStr s /\ forall rest, s <> "_" ++ rest)
    /\ (filter_attribute_access obj name is_setting = Ok name
        \/ filter_attribute_access obj name is_setting
           = Raise (AttributeError "access denied")).
Proof.
  intros O obj name is_setting. destruct name as [s|]; simpl.
  - destruct s as [|a s].
    + simpl. split; [|now left]. split; [|reflexivity].
      intros _. exists "". split; [reflexivity|]. intros rest H. discriminate.
    + unfold Py.startswith. rewrite prefix_cons, prefix_empty, andb_true_r.
      destruct (Ascii.eqb_spec "_"%char a) as [<-|Hne]; simpl.
      * split; [|now right]. split; [discriminate|].
        intros (s' & E & H). injection E as <-. exfalso. now apply (H s).
      * split; [|now left]. split; [|reflexivity].
        intros _. exists (String a s). split; [reflexivity|].
        intros rest E. simpl in E. congruence.
  - split; [|now right]. split; [discriminate|]. intros (s & E & _). discriminate.
Qed.

Example filter_attribute_access_examples :
  filter_attribute_access tt (AttrStr "title") false = Ok (AttrStr "title")
  /\ filter_attribute_access tt (AttrStr "__class__") false
     = Raise (AttributeError "access denied")
  /\ filter_attribute_access tt (AttrStr "_x") true
     = Raise (AttributeError "access denied")
  /\ filter_attribute_access tt AttrOther true
     = Raise (AttributeError "access denied").
Proof. repeat split. Qed.

(** ** The invocation driver *)

Section DriverFacts.
Import Sandbox.
Variable charref_sub : string -> string.
Variable nfc : string -> string.


(** *** Fewer than two arguments *)

(** A request of one argument is answered with the markup put together
    again; the expander is as before but for one debug message. *)
Lemma call_with_one_argument guest ctx name expander parent timeout :
  call_lua_sandbox charref_sub nfc guest ctx [name] expander parent timeout
  = (Ok ("{{" ++ name ++ ":}}"),
     debug ctx "#invoke {} with too few arguments" None "luaexec/369").
Proof. reflexivity. Qed.

Lemma debug_keeps_runtime ctx text trace sortid :
  lua (debug ctx text trace sortid) = lua ctx
  /\ lua_depth (debug ctx text trace sortid) = lua_depth ctx
  /\ expand_stack (debug ctx text trace sortid) = expand_stack ctx.
Proof. repeat split. Qed.

(** *** The state handed to the guest *)

Lemma ensure_ready_fields ctx :
  lua_depth (ensure_ready ctx) = lua_depth ctx
  /\ expand_stack (ensure_ready ctx) = expand_stack ctx
  /\ diagnostics (ensure_ready ctx) = diagnostics ctx
  /\ title (ensure_ready ctx) = title ctx
  /\ module_ns (ensure_ready ctx) = module_ns ctx
  /\ pages (ensure_ready ctx) = pages ctx.
Proof.
  unfold ensure_ready.
  destruct (lua_depth ctx =? 0)%Z; [destruct (lua ctx)|]; repeat split.
Qed.

Lemma entry_state_fields ctx args expander :
  lua_depth (entry_state ctx args expander) = (lua_depth ctx + 1)%Z
  /\ expand_stack (entry_state ctx args expander)
     = (expand_stack ctx
        ++ [call_label (module_name expander args) (function_name expander args)])%list
  /\ diagnostics (entry_state ctx args expander) = diagnostics ctx
  /\ title (entry_state ctx args expander) = title ctx
  /\ module_ns (entry_state ctx args expander) = module_ns ctx
  /\ pages (entry_state ctx args expander) = pages ctx.
Proof.
  destruct (ensure_ready_fields ctx) as (H1 & H2 & H3 & H4 & H5 & H6).
  unfold entry_state. cbn. rewrite H1, H2, H3, H4, H5, H6. repeat split.
Qed.

(** The driver from the guest call on, when the frames could be built. *)
Lemma call_through_guest guest ctx args expander parent timeout frame :
  (2 <= List.length args)%nat ->
  build_frames charref_sub (lua (ensure_ready ctx)) expander parent args = Ok frame ->
  call_lua_sandbox charref_sub nfc guest ctx args expander parent timeout
  = let ctx0 := entry_state ctx args expander in
    let modname := module_name expander args in
    let modfn := function_name expander args in
    let (ctx_g, outcome) := guest modname modfn frame (title ctx0) timeout ctx0 in
    let (tried, ctx_u) := unpack_outcome outcome ctx_g in
    let ctx_f := pop_to (List.length (expand_stack ctx)) ctx_u in
    match tried with
    | Raise e => (Raise e, ctx_f)
    | Ok (ok, text) =>
        let ctx_d := set_lua_depth ctx_f (lua_depth ctx_f - 1) in
        if truthy ok then
          (Ok (nfc (str_of (match text with VNone => VStr "" | _ => text end))), ctx_d)
        else
          let (t, ctx_r) := report_failure ctx_d modname modfn (failure_text text) in
          (Ok t, ctx_r)
    end.
Proof.
  intros Hlen Hframes. unfold call_lua_sandbox.
  replace (List.length args <? 2)%nat with false
    by (symmetry; apply Nat.ltb_ge; exact Hlen).
  cbn [lua set_lua_depth]. rewrite Hframes.
  destruct (ensure_ready_fields ctx) as (_ & H2 & _).
  cbn [expand_stack set_lua_depth]. rewrite H2.
  reflexivity.
Qed.
End DriverFacts.

Section DriverClaims.
Import Sandbox.
Variable charref_sub : string -> string.
Variable nfc : string -> string.

(** C2. With an empty argument list the driver logs the debug message
    and then evaluates [invoke_args[0]], which raises [IndexError]: no
    text is returned. The runtime, the depth and the expansion stack are
    as before. *)
Theorem call_lua_sandbox_empty_list_raises :
  forall guest ctx expander parent timeout,
    call_lua_sandbox charref_sub nfc guest ctx [] expander parent timeout
    = (Raise IndexError,
       debug ctx "#invoke {} with too few arguments" None "luaexec/369").
Proof. reflexivity. Qed.

(** *** The depth counter *)

Lemma superscript_name_raises st :
  frame_arg_step charref_sub st Samples.superscript_arg = Raise ValueError.
Proof. destruct st as [d num]. reflexivity. Qed.

Lemma frames_with_superscript_name lua0 expander parent :
  exists e,
    build_frames charref_sub lua0 expander parent
                 ["m"; "f"; Samples.superscript_arg] = Raise e.
Proof.
  unfold build_frames.
  assert (H : forall pframe title,
             make_frame charref_sub lua0 pframe title
                        (ArgList (skipn 2 ["m"; "f"; Samples.superscript_arg]))
             = Raise ValueError).
  { intros. unfold make_frame. cbn [skipn frame_args_loop].
    rewrite superscript_name_raises. reflexivity. }
  destruct parent as [[parent_title page_args]|].
  - destruct (make_frame charref_sub lua0 None parent_title
                (ArgDict (expand_key_args expander page_args))) as [f|e].
    + cbn [bind]. rewrite H. now exists ValueError.
    + cbn [bind]. now exists e.
  - cbn [bind]. rewrite H. now exists ValueError.
Qed.

(** C5. The invocation [m|f|²=x], whose argument name is a digit for
    [isdigit] but not for [int], leaves the driver by an exception after
    the depth counter was incremented: the counter stays one above its
    value before the call. *)
Theorem call_lua_sandbox_depth_not_restored :
  forall guest ctx expander parent timeout,
    exists e ctx',
      call_lua_sandbox charref_sub nfc guest ctx
                       ["m"; "f"; Samples.superscript_arg] expander parent timeout
      = (Raise e, ctx')
      /\ lua_depth ctx' = (lua_depth ctx + 1)%Z.
Proof.
  intros guest ctx expander parent timeout.
  destruct (frames_with_superscript_name (lua (ensure_ready ctx)) expander parent)
    as [e He].
  exists e.
  exists (set_lua_depth (ensure_ready ctx) (lua_depth (ensure_ready ctx) + 1)).
  split.
  - unfold call_lua_sandbox. cbn [List.length Nat.ltb Nat.leb lua set_lua_depth].
    now rewrite He.
  - cbn. now destruct (ensure_ready_fields ctx) as (-> & _).
Qed.

(** On every path on which the driver returns a text, the depth counter
    is one below the value the guest call left, which received it one
    above the value before the call. *)
Lemma call_lua_sandbox_depth_when_returning
      guest ctx args expander parent timeout text ctx' :
  call_lua_sandbox charref_sub nfc guest ctx args expander parent timeout
  = (Ok text, ctx') ->
  (List.length args < 2)%nat /\ lua_depth ctx' = lua_depth ctx
  \/ exists frame,
      build_frames charref_sub (lua (ensure_ready ctx)) expander parent args = Ok frame
      /\ lua_depth ctx'
         = (lua_depth (fst (guest (module_name expander args)
                                  (function_name expander args) frame
                                  (title (entry_state ctx args expander)) timeout
                                  (entry_state ctx args expander))) - 1)%Z.
Proof.
  intro H.
  destruct (Nat.ltb_spec (List.length args) 2) as [Hlt|Hge].
  - left. split; [exact Hlt|].
    unfold call_lua_sandbox in H.
    replace (List.length args <? 2)%nat with true in H
      by (symmetry; apply Nat.ltb_lt; exact Hlt).
    destruct args; [discriminate|]. injection H as _ <-. reflexivity.
  - right.
    destruct (build_frames charref_sub (lua (ensure_ready ctx)) expander parent args)
      as [frame|e] eqn:Hf.
    + exists frame. split; [reflexivity|].
      rewrite (call_through_guest _ _ _ _ _ _ _ _ _ Hge Hf) in H.
      cbv zeta in H.
      destruct (guest _ _ _ _ _ _) as [ctx_g outcome]. cbn [fst].
      assert (Hu : lua_depth (snd (unpack_outcome outcome ctx_g)) = lua_depth ctx_g).
      { destruct outcome as [[v|[|v [|w vs]]]| |e|e]; reflexivity. }
      destruct (unpack_outcome outcome ctx_g) as [tried ctx_u]. cbn [snd] in Hu.
      destruct tried as [[ok t]|e]; [|discriminate].
      destruct (truthy ok).
      * injection H as _ <-. cbn. now rewrite Hu.
      * unfold report_failure in H.
        repeat match type of H with
               | context [if ?b then _ else _] => destruct b
               end; injection H as _ <-; cbn; now rewrite Hu.
    + exfalso. unfold call_lua_sandbox in H.
      replace (List.length args <? 2)%nat with false in H
        by (symmetry; apply Nat.ltb_ge; exact Hge).
      cbn [lua set_lua_depth] in H. rewrite Hf in H. discriminate.
Qed.

(** *** The expansion stack and the frame of the driver *)





(** *** The classification of a guest-runtime error *)

Lemma call_on_guest_error guest ctx args expander parent timeout frame ctx_g e :
  (2 <= List.length args)%nat ->
  build_frames charref_sub (lua (ensure_ready ctx)) expander parent args = Ok frame ->
  guest (module_name expander args) (function_name expander args) frame
        (title (entry_state ctx args expander)) timeout
        (entry_state ctx args expander) = (ctx_g, RaisesLuaError e) ->
  call_lua_sandbox charref_sub nfc guest ctx args expander parent timeout
  = let ctx_f := pop_to (List.length (expand_stack ctx)) ctx_g in
    let (t, ctx_r) :=
      report_failure (set_lua_depth ctx_f (lua_depth ctx_f - 1))
                     (module_name expander args) (function_name expander args)
                     (failure_text (VExc e)) in
    (Ok t, ctx_r).
Proof.
  intros Hlen Hf Hg.
  rewrite (call_through_guest _ _ _ _ _ _ _ _ _ Hlen Hf).
  cbv zeta. rewrite Hg. reflexivity.
Qed.

(** A failure of the guest call: the [try] statement ends with a value
    [ok] that is false for Python, because the call raised a
    guest-runtime error ([text] is then the exception) or because it
    returned a false first value ([text] is the second value, or the
    empty text). *)
Lemma call_on_failure guest ctx args expander parent timeout frame ctx_g outcome ok text :
  (2 <= List.length args)%nat ->
  build_frames charref_sub (lua (ensure_ready ctx)) expander parent args = Ok frame ->
  guest (module_name expander args) (function_name expander args) frame
        (title (entry_state ctx args expander)) timeout
        (entry_state ctx args expander) = (ctx_g, outcome) ->
  fst (unpack_outcome outcome ctx_g) = Ok (ok, text) ->
  truthy ok = false ->
  call_lua_sandbox charref_sub nfc guest ctx args expander parent timeout
  = let ctx_f := pop_to (List.length (expand_stack ctx)) ctx_g in
    let (t, ctx_r) :=
      report_failure (set_lua_depth ctx_f (lua_depth ctx_f - 1))
                     (module_name expander args) (function_name expander args)
                     (failure_text text) in
    (Ok t, ctx_r).
Proof.
  intros Hlen Hf Hg Hu Hok.
  rewrite (call_through_guest _ _ _ _ _ _ _ _ _ Hlen Hf).
  cbv zeta. rewrite Hg.
  destruct outcome as [[v|[|v [|w vs]]]| |e|e]; cbn [unpack_outcome fst] in *;
    try discriminate; injection Hu as <- <-; try rewrite Hok; try reflexivity.
  discriminate.
Qed.

Lemma failure_forms outcome ctx_g ok text :
  fst (unpack_outcome outcome ctx_g) = Ok (ok, text) ->
  truthy ok = false ->
  (exists e, outcome = RaisesLuaError e /\ text = VExc e)
  \/ (outcome = Returns (RetValue ok) /\ text = VStr "")
  \/ (outcome = Returns (RetTuple [ok]) /\ text = VStr "")
  \/ (exists more, outcome = Returns (RetTuple (ok :: text :: more))).
Proof.
  destruct outcome as [[v|[|v [|w vs]]]| |e|e]; cbn [unpack_outcome fst];
    intros Hu Hok; try discriminate; injection Hu as <- <-.
  - right. left. split; reflexivity.
  - right. right. left. split; reflexivity.
  - right. right. right. eexists. reflexivity.
  - discriminate.
  - left. eexists. split; reflexivity.
Qed.

(** C7. Every failure of the guest call, whether a guest-runtime error
    that was raised or a false first value that was returned with the
    text of the error, whose text contains the translations marker and
    does not contain ['debug.error'] is answered with the empty text,
    and the driver adds no diagnostic, so none at error level. *)
Theorem call_lua_sandbox_swallows_translations_error :
  forall guest ctx args expander parent timeout frame ctx_g outcome ok text r ctx',
    (2 <= List.length args)%nat ->
    build_frames charref_sub (lua (ensure_ready ctx)) expander parent args = Ok frame ->
    guest (module_name expander args) (function_name expander args) frame
          (title (entry_state ctx args expander)) timeout
          (entry_state ctx args expander) = (ctx_g, outcome) ->
    fst (unpack_outcome outcome ctx_g) = Ok (ok, text) ->
    truthy ok = false ->
    Py.contains translations_marker (failure_text text) = true ->
    Py.contains "'debug.error'" (failure_text text) = false ->
    call_lua_sandbox charref_sub nfc guest ctx args expander parent timeout = (r, ctx') ->
    r = Ok "" /\ diagnostics ctx' = diagnostics ctx_g.
Proof.
  intros guest ctx args expander parent timeout frame ctx_g outcome ok text r ctx'
         Hlen Hf Hg Hu Hok Hmark Hdebug Hcall.
  rewrite (call_on_failure _ _ _ _ _ _ _ _ _ _ _ Hlen Hf Hg Hu Hok) in Hcall.
  cbv zeta in Hcall. unfold report_failure in Hcall.
  rewrite Hdebug, Hmark in Hcall. injection Hcall as <- <-. split; reflexivity.
Qed.

(** C8. Every failure of the guest call that is not swallowed, whether a
    guest-runtime error that was raised or a false first value that was
    returned, is answered with the banner
    [<strong class="error">MSG in Module:M function F</strong>]
    where M and F are the module and function names, HTML-escaped, and
    MSG is [Lua timeout error] when the text of the failure contains
    that phrase and [Lua execution error] when it does not. *)
Theorem call_lua_sandbox_error_banner :
  forall guest ctx args expander parent timeout frame ctx_g outcome ok text r ctx',
    (2 <= List.length args)%nat ->
    build_frames charref_sub (lua (ensure_ready ctx)) expander parent args = Ok frame ->
    guest (module_name expander args) (function_name expander args) frame
          (title (entry_state ctx args expander)) timeout
          (entry_state ctx args expander) = (ctx_g, outcome) ->
    fst (unpack_outcome outcome ctx_g) = Ok (ok, text) ->
    truthy ok = false ->
    swallowed (failure_text text) = false ->
    call_lua_sandbox charref_sub nfc guest ctx args expander parent timeout = (r, ctx') ->
    r = Ok ("<strong class=" ++ String Html.dquote "error" ++ String Html.dquote ">"
            ++ (if Py.contains "Lua timeout error" (failure_text text)
                then "Lua timeout error" else "Lua execution error")
            ++ " in Module:" ++ Html.escape (module_name expander args)
            ++ " function " ++ Html.escape (function_name expander args)
            ++ "</strong>").
Proof.
  intros guest ctx args expander parent timeout frame ctx_g outcome ok text r ctx'
         Hlen Hf Hg Hu Hok Hsw Hcall.
  rewrite (call_on_failure _ _ _ _ _ _ _ _ _ _ _ Hlen Hf Hg Hu Hok) in Hcall.
  cbv zeta in Hcall. unfold report_failure in Hcall. unfold swallowed in Hsw.
  destruct (Py.contains "'debug.error'" (failure_text text)).
  - destruct (negb _) in Hcall; injection Hcall as <- _;
      destruct (Py.contains "Lua timeout error" _); reflexivity.
  - cbn [negb andb] in Hsw. apply orb_false_iff in Hsw as [H1 H2].
    rewrite H1, H2 in Hcall.
    destruct (existsb _ _) in Hcall; injection Hcall as <- _;
      destruct (Py.contains "Lua timeout error" _); reflexivity.
Qed.

(** A swallowed error is answered with the empty text. *)
Lemma call_lua_sandbox_swallowed_error
      guest ctx args expander parent timeout frame ctx_g e :
  (2 <= List.length args)%nat ->
  build_frames charref_sub (lua (ensure_ready ctx)) expander parent args = Ok frame ->
  guest (module_name expander args) (function_name expander args) frame
        (title (entry_state ctx args expander)) timeout
        (entry_state ctx args expander) = (ctx_g, RaisesLuaError e) ->
  swallowed (failure_text (VExc e)) = true ->
  fst (call_lua_sandbox charref_sub nfc guest ctx args expander parent timeout) = Ok "".
Proof.
  intros Hlen Hf Hg Hsw.
  rewrite (call_on_guest_error _ _ _ _ _ _ _ _ _ Hlen Hf Hg).
  cbv zeta. unfold report_failure. unfold swallowed in Hsw.
  apply andb_true_iff in Hsw as [Hd Hs]. apply negb_true_iff in Hd. rewrite Hd.
  destruct (Py.contains translations_marker _); [reflexivity|].
  cbn [orb] in Hs. rewrite Hs. reflexivity.
Qed.
End DriverClaims.

(** A guest-runtime error whose text has the translations marker and
    also ['debug.error'] is not swallowed: the first message rule applies
    and the banner is returned. *)
Lemma translations_error_with_debug_marker_gets_banner :
  Py.contains Sandbox.translations_marker
     (Sandbox.failure_text
        (Sandbox.VExc {| Sandbox.exc_str := Samples.translations_debug_message;
                         Sandbox.exc_traceback := ["Traceback (most recent call last):"] |}))
  = true
  /\ fst (Sandbox.call_lua_sandbox Samples.identity Samples.identity
            (Samples.failing_guest Samples.translations_debug_message)
            Samples.fresh_ctx ["m"; "f"] Samples.identity None None)
     = Ok (Sandbox.banner "Lua execution error" "m" "f")
  /\ Sandbox.banner "Lua execution error" "m" "f" <> "".
Proof.
  split; [reflexivity|]. split; [reflexivity|]. discriminate.
Qed.

Lemma call_lua_sandbox_swallows_translations_error_witness :
  Sandbox.call_lua_sandbox Samples.identity Samples.identity
    (Samples.failing_guest Samples.translations_message)
    Samples.fresh_ctx ["m"; "f"] Samples.identity None None
  = (Ok "",
     set_lua Samples.fresh_ctx
       (Some [OpCreate; OpRequirePhase2; OpSetFunctions; OpInvoke "m" "f"]))
  /\ fst (Sandbox.call_lua_sandbox Samples.identity Samples.identity
            (Samples.reporting_guest Samples.translations_message)
            Samples.fresh_ctx ["m"; "f"] Samples.identity None None)
     = Ok "".
Proof.
  split.
  - assert (H := fun frame ctx_g outcome ok text r ctx' =>
                   call_lua_sandbox_swallows_translations_error
                     Samples.identity Samples.identity
                     (Samples.failing_guest Samples.translations_message)
                     Samples.fresh_ctx ["m"; "f"] Samples.identity None None
                     frame ctx_g outcome ok text r ctx').
    edestruct H as [E _];
      [ simpl; lia | reflexivity | reflexivity | reflexivity | reflexivity
      | reflexivity | reflexivity | reflexivity | ].
    reflexivity.
  - assert (H := fun frame ctx_g outcome ok text r ctx' =>
                   call_lua_sandbox_swallows_translations_error
                     Samples.identity Samples.identity
                     (Samples.reporting_guest Samples.translations_message)
                     Samples.fresh_ctx ["m"; "f"] Samples.identity None None
                     frame ctx_g outcome ok text r ctx').
    edestruct H as [E _];
      [ simpl; lia | reflexivity | reflexivity | reflexivity | reflexivity
      | reflexivity | reflexivity | reflexivity | ].
    exact E.
Defined.

Lemma call_lua_sandbox_error_banner_witness :
  fst (Sandbox.call_lua_sandbox Samples.identity Samples.identity
         (Samples.failing_guest "Lua timeout error in Module:m")
         Samples.fresh_ctx ["m<"; "f"] Samples.identity None None)
  = Ok ("<strong class=" ++ String Html.dquote "error" ++ String Html.dquote ">"
        ++ "Lua timeout error in Module:m&lt; function f</strong>")
  /\ fst (Sandbox.call_lua_sandbox Samples.identity Samples.identity
            (Samples.reporting_guest "Module:m:3: attempt to call a nil value")
            Samples.fresh_ctx ["m"; "f"] Samples.identity None None)
     = Ok ("<strong class=" ++ String Html.dquote "error" ++ String Html.dquote ">"
           ++ "Lua execution error in Module:m function f</strong>").
Proof.
  split.
  - assert (H := fun frame ctx_g outcome ok text r ctx' =>
                   call_lua_sandbox_error_banner
                     Samples.identity Samples.identity
                     (Samples.failing_guest "Lua timeout error in Module:m")
                     Samples.fresh_ctx ["m<"; "f"] Samples.identity None None
                     frame ctx_g outcome ok text r ctx').
    edestruct H as [];
      [ simpl; lia | reflexivity | reflexivity | reflexivity | reflexivity
      | reflexivity | reflexivity | ].
    reflexivity.
  - assert (H := fun frame ctx_g outcome ok text r ctx' =>
                   call_lua_sandbox_error_banner
                     Samples.identity Samples.identity
                     (Samples.reporting_guest "Module:m:3: attempt to call a nil value")
                     Samples.fresh_ctx ["m"; "f"] Samples.identity None None
                     frame ctx_g outcome ok text r ctx').
    edestruct H as [];
      [ simpl; lia | reflexivity | reflexivity | reflexivity | reflexivity
      | reflexivity | reflexivity | ].
    reflexivity.
Defined.



(** Two invocations, the second nested in no other: the runtime is
    created once and reset once, and the depth is 0 after each. *)
Example two_invocations_reset_once :
  let first := Sandbox.call_lua_sandbox Samples.identity Samples.identity
                 (Samples.returning_guest "one") Samples.fresh_ctx ["m"; "f"]
                 Samples.identity None None in
  let second := Sandbox.call_lua_sandbox Samples.identity Samples.identity
                  (Samples.returning_guest "two") (snd first) ["m"; "g"]
                  Samples.identity None None in
  fst first = Ok "one" /\ fst second = Ok "two"
  /\ lua_depth (snd second) = 0%Z
  /\ lua (snd second)
     = Some [OpCreate; OpRequirePhase2; OpSetFunctions; OpInvoke "m" "f";
             OpResetEnv; OpRequirePhase2; OpSetFunctions; OpInvoke "m" "g"].
Proof. repeat split. Qed.

(** ** The frame arguments *)

Section FrameArgs.
Import Sandbox.
Variable charref_sub : string -> string.

Lemma arg_key_eqb_eq a b : arg_key_eqb a b = true <-> a = b.
Proof.
  destruct a as [x|x], b as [y|y]; simpl; split; intro H;
    try discriminate; try (inversion H; subst).
  - apply Z.eqb_eq in H. now subst.
  - apply Z.eqb_refl.
  - apply String.eqb_eq in H. now subst.
  - apply String.eqb_refl.
Qed.

Lemma args_set_absent d k v :
  ~ In k (map fst d) -> args_set d k v = (d ++ [(k, v)])%list.
Proof.
  induction d as [|[k' v'] d IH]; intro H; simpl in *.
  - reflexivity.
  - destruct (arg_key_eqb k' k) eqn:E.
    + apply arg_key_eqb_eq in E. tauto.
    + f_equal. apply IH. tauto.
Qed.

Lemma args_set_keys d k v k0 :
  In k0 (map fst (args_set d k v)) <-> In k0 (map fst d) \/ k0 = k.
Proof.
  induction d as [|[k' v'] d IH]; simpl.
  - intuition.
  - destruct (arg_key_eqb k' k) eqn:E; simpl.
    + apply arg_key_eqb_eq in E. subst. intuition.
    + rewrite IH. intuition.
Qed.

Lemma frame_args_loop_app args arg st :
  frame_args_loop charref_sub (args ++ [arg]) st
  = (st' <- frame_args_loop charref_sub args st ;; frame_arg_step charref_sub st' arg).
Proof.
  revert st. induction args as [|a args IH]; intro st; simpl.
  - now destruct (frame_arg_step charref_sub st arg).
  - destruct (frame_arg_step charref_sub st a) as [st1|e]; simpl; auto.
Qed.

Lemma clamp_range k : (1 <= clamp k <= 1000)%Z.
Proof.
  unfold clamp. destruct (k <? 1)%Z eqn:E1; simpl; [lia|].
  destruct (k >? 1000)%Z eqn:E2; [lia|]. lia.
Qed.

Lemma frame_arg_step_unnamed d num arg :
  Re.re_match arg_re arg = None ->
  frame_arg_step charref_sub (d, num) arg
  = Ok (args_set d (ArgInt num) (clean_arg charref_sub arg), (num + 1)%Z).
Proof. intro H. unfold frame_arg_step. now rewrite H. Qed.

Lemma frame_arg_step_numbered d num arg e caps k :
  Re.re_match arg_re arg = Some (e, caps) ->
  Py.isdigit (Re.group 1 caps) = true ->
  Py.int_of_digits (Re.group 1 caps) = Ok k ->
  frame_arg_step charref_sub (d, num) arg
  = Ok (args_set d (ArgInt (clamp k)) (clean_arg charref_sub (Re.group 2 caps)),
        Z.max num (clamp k + 1)).
Proof.
  intros Hm Hd Hi. unfold frame_arg_step. rewrite Hm, Hd, Hi. cbn [bind].
  fold (clamp k). destruct (num <=? clamp k)%Z eqn:E.
  - f_equal. f_equal. lia.
  - f_equal. f_equal. lia.
Qed.

Lemma frame_arg_step_named d num arg e caps :
  Re.re_match arg_re arg = Some (e, caps) ->
  Py.isdigit (Re.group 1 caps) = false ->
  frame_arg_step charref_sub (d, num) arg
  = Ok (args_set d (ArgStr (Re.group 1 caps))
                 (clean_arg charref_sub (Re.group 2 caps)), num).
Proof. intros Hm Hd. unfold frame_arg_step. now rewrite Hm, Hd. Qed.

Lemma frame_arg_step_keys_below st arg st' :
  keys_below st -> frame_arg_step charref_sub st arg = Ok st' -> keys_below st'.
Proof.
  destruct st as [d num]. intros [H1 Hk] H. unfold keys_below in *. cbn [fst snd] in *.
  destruct (Re.re_match arg_re arg) as [[e caps]|] eqn:Hm.
  - destruct (Py.isdigit (Re.group 1 caps)) eqn:Hd.
    + destruct (Py.int_of_digits (Re.group 1 caps)) as [k|ex] eqn:Hi.
      * rewrite (frame_arg_step_numbered _ _ _ _ _ _ Hm Hd Hi) in H.
        injection H as <-. simpl. pose proof (clamp_range k). split; [lia|].
        intros z Hz. apply args_set_keys in Hz as [Hz|Hz].
        -- specialize (Hk _ Hz). lia.
        -- injection Hz as ->. lia.
      * unfold frame_arg_step in H. rewrite Hm, Hd, Hi in H. discriminate.
    + rewrite (frame_arg_step_named _ _ _ _ _ Hm Hd) in H.
      injection H as <-. simpl. split; [lia|].
      intros z Hz. apply args_set_keys in Hz as [Hz|Hz]; [auto|discriminate].
  - rewrite (frame_arg_step_unnamed _ _ _ Hm) in H. injection H as <-. simpl.
    split; [lia|]. intros z Hz. apply args_set_keys in Hz as [Hz|Hz].
    + specialize (Hk _ Hz). lia.
    + injection Hz as ->. lia.
Qed.

Lemma frame_args_loop_keys_below args st st' :
  keys_below st -> frame_args_loop charref_sub args st = Ok st' -> keys_below st'.
Proof.
  revert st. induction args as [|a args IH]; intros st Hst H; simpl in H.
  - now injection H as <-.
  - destruct (frame_arg_step charref_sub st a) as [st1|e] eqn:E; [|discriminate].
    simpl in H. eapply IH; [|exact H]. eapply frame_arg_step_keys_below; eauto.
Qed.

Lemma keys_below_start : keys_below ([], 1%Z).
Proof. split; simpl; [lia|tauto]. Qed.

(** C4. The keys of the frame arguments built from a list. After any
    list of arguments every integer key is at least 1 and below the
    counter. An argument without a name is added under the counter, which
    is not a key before, and the counter goes up by one. An argument with
    a numeric name [k] is stored under [k], or under 1000 when [k] is
    below 1 or above 1000, replacing what that key held, and the counter
    moves above that key. The list [a, k=v, x] gives the keys 1, [k]
    and 2. *)
Theorem frame_args_positional_keys_are_fresh :
  (forall args d num,
      frame_args_loop charref_sub args ([], 1%Z) = Ok (d, num) ->
      forall z, In (ArgInt z) (map fst d) -> (1 <= z < num)%Z)
  /\ (forall args arg d num,
         frame_args_loop charref_sub args ([], 1%Z) = Ok (d, num) ->
         Re.re_match arg_re arg = None ->
         ~ In (ArgInt num) (map fst d)
         /\ frame_args_loop charref_sub (args ++ [arg]) ([], 1%Z)
            = Ok ((d ++ [(ArgInt num, clean_arg charref_sub arg)])%list, (num + 1)%Z))
  /\ (forall args arg d num e caps k,
         frame_args_loop charref_sub args ([], 1%Z) = Ok (d, num) ->
         Re.re_match arg_re arg = Some (e, caps) ->
         Py.isdigit (Re.group 1 caps) = true ->
         Py.int_of_digits (Re.group 1 caps) = Ok k ->
         let key := if ((k <? 1) || (k >? 1000))%Z then 1000%Z else k in
         (1 <= key <= 1000)%Z
         /\ frame_args_loop charref_sub (args ++ [arg]) ([], 1%Z)
            = Ok (args_set d (ArgInt key) (clean_arg charref_sub (Re.group 2 caps)),
                  Z.max num (key + 1)))
  /\ (forall ops pframe title,
         make_frame charref_sub (Some ops) pframe title (ArgList ["a"; "k=v"; "x"])
         = Ok (Frame [(ArgInt 1, "a"); (ArgStr "k", "v"); (ArgInt 2, "x")] pframe title)).
Proof.
  split; [|split; [|split]].
  - intros args d num H z Hz.
    destruct (frame_args_loop_keys_below _ _ _ keys_below_start H) as [_ Hk].
    exact (Hk z Hz).
  - intros args arg d num H Hm.
    destruct (frame_args_loop_keys_below _ _ _ keys_below_start H) as [_ Hk].
    assert (Hfresh : ~ In (ArgInt num) (map fst d)).
    { intro Hin. specialize (Hk _ Hin). simpl in Hk. lia. }
    split; [exact Hfresh|].
    rewrite frame_args_loop_app, H. cbn [bind].
    rewrite (frame_arg_step_unnamed _ _ _ Hm).
    now rewrite (args_set_absent _ _ _ Hfresh).
  - intros args arg d num e caps k H Hm Hd Hi key.
    split; [apply clamp_range|].
    rewrite frame_args_loop_app, H. cbn [bind].
    exact (frame_arg_step_numbered _ _ _ _ _ _ Hm Hd Hi).
  - intros. reflexivity.
Qed.
End FrameArgs.

(** The claim that keys never collide fails: the value of the unnamed
    argument [a] is replaced by that of the later argument [1=b]. *)
Lemma frame_args_numbered_overwrites_positional :
  Sandbox.make_frame Samples.identity (Some []) None "t" (Sandbox.ArgList ["a"; "1=b"])
  = Ok (Sandbox.Frame [(Sandbox.ArgInt 1, "b")] None "t")
  /\ ~ In "a" (map snd [(Sandbox.ArgInt 1, "b")]).
Proof.
  split; [reflexivity|]. simpl. intros [H|[]]. discriminate.
Qed.

Lemma frame_args_positional_keys_are_fresh_witness :
  Sandbox.frame_args_loop Samples.identity ["5=a"] ([], 1%Z)
  = Ok ([(Sandbox.ArgInt 5, "a")], 6%Z)
  /\ Re.re_match Sandbox.arg_re "x" = None
  /\ Sandbox.frame_args_loop Samples.identity (["5=a"] ++ ["x"]) ([], 1%Z)
     = Ok ([(Sandbox.ArgInt 5, "a"); (Sandbox.ArgInt 6, "x")], 7%Z).
Proof.
  split; [reflexivity|]. split; [reflexivity|].
  apply (proj2 (proj1 (proj2 (frame_args_positional_keys_are_fresh Samples.identity))
                 ["5=a"] "x" [(Sandbox.ArgInt 5, "a")] 6%Z eq_refl eq_refl)).
Defined.

(** ** JSON encoding and decoding *)

Module JsonFacts.
Import Json.
Local Open Scope list_scope.

(** *** Dictionaries *)

Lemma key_eqb_eq a b : key_eqb a b = true <-> a = b.
Proof.
  destruct a, b; simpl; split; intro H; try discriminate;
    try (inversion H; subst).
  - apply Z.eqb_eq in H. now subst.
  - apply Z.eqb_refl.
  - apply Bool.eqb_prop in H. now subst.
  - apply Bool.eqb_reflx.
  - apply String.eqb_eq in H. now subst.
  - apply String.eqb_refl.
  - apply String.eqb_eq in H. now subst.
  - apply String.eqb_refl.
Qed.

Lemma key_eqb_neq a b : key_eqb a b = false <-> a <> b.
Proof.
  split.
  - intros H E. apply key_eqb_eq in E. congruence.
  - intro H. destruct (key_eqb a b) eqn:E; [|reflexivity].
    apply key_eqb_eq in E. contradiction.
Qed.

Section Dict.
Context {V : Type}.
Implicit Types d : list (pykey * V).


Lemma dict_set_keys d k v k0 :
  In k0 (map fst (dict_set d k v)) <-> In k0 (map fst d) \/ k0 = k.
Proof.
  induction d as [|[k' v'] d IH]; simpl.
  - intuition.
  - destruct (key_eqb k' k) eqn:E; simpl.
    + apply key_eqb_eq in E. subst. intuition.
    + rewrite IH. intuition.
Qed.

Lemma dict_set_NoDup d k v :
  NoDup (map fst d) -> NoDup (map fst (dict_set d k v)).
Proof.
  induction d as [|[k' v'] d IH]; intro H; simpl.
  - constructor; [simpl; tauto|constructor].
  - inversion H as [|? ? Hn Hd]; subst.
    destruct (key_eqb k' k) eqn:E; simpl.
    + constructor; assumption.
    + constructor; [|auto]. rewrite dict_set_keys. intros [Hin | ->]; [tauto|].
      apply key_eqb_neq in E. congruence.
Qed.

Lemma dict_set_values d k v k0 v0 :
  In (k0, v0) (dict_set d k v) -> In (k0, v0) d \/ (k0 = k /\ v0 = v).
Proof.
  induction d as [|[k' v'] d IH]; simpl.
  - intros [H|[]]. inversion H. auto.
  - destruct (key_eqb k' k) eqn:E; simpl.
    + apply key_eqb_eq in E. subst. intros [H|H]; [inversion H; auto|auto].
    + intros [H|H]; [auto|]. destruct (IH H); auto.
Qed.



Lemma dict_del_values d k kv : In kv (dict_del d k) -> In kv d.
Proof.
  induction d as [|[k' v'] d IH]; simpl; [tauto|].
  destruct (key_eqb k' k); simpl; intuition.
Qed.
End Dict.

(** *** The test for sequential keys *)






(** *** Integers and their decimal writing *)






(** *** Building a dictionary from distinct keys *)





Section DictEntries.
Context {V : Type}.
Implicit Types d : list (pykey * V).




End DictEntries.

(** *** Loops that stop at the first exception *)

Lemma traverse_Forall2 {A B} (f : A -> result B) l l' :
  traverse f l = Ok l' <-> Forall2 (fun a b => f a = Ok b) l l'.
Proof.
  revert l'. induction l as [|a l IH]; intro l'; simpl.
  - split; [intro H; injection H as <-; constructor|intro H; now inversion H].
  - split.
    + intro H. destruct (f a) as [b|e] eqn:Ea; [|discriminate]. cbn [bind] in H.
      destruct (traverse f l) as [bs|e]; [|discriminate]. cbn [bind] in H.
      injection H as <-. constructor; [exact Ea|]. now apply IH.
    + intro H. inversion H as [|? b ? bs Hb Hbs]; subst.
      rewrite Hb. cbn [bind]. apply IH in Hbs. now rewrite Hbs.
Qed.

Lemma traverse_raises {A B} (f : A -> result B) (P : exn -> Prop) l e :
  (forall a e', In a l -> f a = Raise e' -> P e') ->
  traverse f l = Raise e -> P e.
Proof.
  induction l as [|a l IH]; intros Hf H; simpl in H; [discriminate|].
  destruct (f a) as [b|e'] eqn:Ea.
  - cbn [bind] in H. destruct (traverse f l) as [bs|e'] eqn:El.
    + discriminate.
    + cbn [bind] in H. injection H as <-. apply IH; [|reflexivity].
      intros a' e'' Hin. apply Hf. now right.
  - cbn [bind] in H. injection H as <-. apply (Hf a); [now left|exact Ea].
Qed.

Lemma Forall2_in_l {A B} (R : A -> B -> Prop) l l' a :
  Forall2 R l l' -> In a l -> exists b, In b l' /\ R a b.
Proof.
  induction 1 as [|x y l l' Hxy _ IH]; intros []; subst.
  - exists y. split; [now left|exact Hxy].
  - destruct (IH H) as (b & Hb & Hr). exists b. split; [now right|exact Hr].
Qed.

Lemma Forall2_in_r {A B} (R : A -> B -> Prop) l l' b :
  Forall2 R l l' -> In b l' -> exists a, In a l /\ R a b.
Proof.
  induction 1 as [|x y l l' Hxy _ IH]; intros []; subst.
  - exists x. split; [now left|exact Hxy].
  - destruct (IH H) as (a & Ha & Hr). exists a. split; [now right|exact Hr].
Qed.

Lemma insert_item_perm kv l : Permutation (insert_item kv l) (kv :: l).
Proof.
  induction l as [|a l IH]; simpl.
  - reflexivity.
  - destruct (key_leb (fst kv) (fst a)); [reflexivity|].
    rewrite IH. apply perm_swap.
Qed.

Lemma sort_items_perm d : Permutation (sort_items d) d.
Proof.
  induction d as [|a d IH]; simpl.
  - reflexivity.
  - unfold sort_items in *. simpl. rewrite insert_item_perm. now constructor.
Qed.


(** *** The encoder *)

Lemma encode_table_array maxd h depth flags x t :
  table_items h x = Some t ->
  (Z.land flags 1 =? 0)%Z = true -> sequential_keys (map fst t) = true ->
  encode_value maxd h (S depth) flags x
  = (l <- traverse (fun kv => encode_value maxd h depth flags (snd kv)) t ;;
     Ok (PList l)).
Proof.
  intros Ht Hf Hs. unfold sequential_keys in Hs. apply andb_true_iff in Hs as [H1 H2].
  cbn [encode_value]. rewrite Ht, Hf, H1, H2. reflexivity.
Qed.

Lemma encode_table_object maxd h depth flags x t :
  table_items h x = Some t ->
  (Z.land flags 1 =? 0)%Z = false \/ sequential_keys (map fst t) = false ->
  encode_value maxd h (S depth) flags x
  = (ht <- encode_items maxd (encode_value maxd h depth flags) t [] ;;
     Ok (PDict ht)).
Proof.
  intros Ht H. cbn [encode_value]. rewrite Ht. unfold sequential_keys in H.
  destruct (Z.land flags 1 =? 0)%Z; cbn [negb].
  - destruct H as [H|H]; [discriminate|].
    destruct (forallb key_is_int (map fst t)); cbn [negb]; [|reflexivity].
    cbn [andb] in H. rewrite H. reflexivity.
  - reflexivity.
Qed.

Lemma table_items_not_none h x t : table_items h x = Some t -> is_none x = false.
Proof. destruct x; intro H; try discriminate; reflexivity. Qed.


(** What the loop over the items of a table puts into the dictionary. *)
Local Abbreviation item_encoded maxd recurse :=
  (fun (kv o : pykey * pyobj) =>
     exists name, key_str maxd (fst kv) = Ok name /\ fst o = KStr name
                  /\ recurse (snd kv) = Ok (snd o)).

Lemma encode_items_ok maxd recurse t :
  forall acc ht,
    encode_items maxd recurse t acc = Ok ht ->
    exists outs, Forall2 (item_encoded maxd recurse) t outs.
Proof.
  induction t as [|[k v] t IH]; intros acc ht H; simpl in H.
  - exists []. constructor.
  - destruct (recurse v) as [v'|e] eqn:Ev; [|discriminate]. cbn [bind] in H.
    destruct (key_str maxd k) as [name|e] eqn:Ek; [|discriminate]. cbn [bind] in H.
    destruct (IH _ _ H) as [outs Houts].
    exists ((KStr name, v') :: outs). constructor; [|exact Houts].
    exists name. auto.
Qed.





(** *** The serializer *)

Lemma json_dumps_list maxd depth l :
  json_dumps maxd (S depth) (PList l)
  = (l' <- traverse (json_dumps maxd depth) l ;; Ok (JArr l')).
Proof. reflexivity. Qed.

Lemma json_dumps_dict maxd depth d :
  forallb key_is_str (map fst d) = true ->
  json_dumps maxd (S depth) (PDict d)
  = (ms <- traverse (dump_member maxd (json_dumps maxd depth)) (sort_items d) ;;
     Ok (JObj ms)).
Proof.
  intro H. cbn [json_dumps]. unfold keys_compare. rewrite H. reflexivity.
Qed.

Local Abbreviation member_dumped maxd dump :=
  (fun (kv : pykey * pyobj) (m : string * json) =>
     key_json maxd (fst kv) = Ok (fst m) /\ dump (snd kv) = Ok (snd m)).



(** *** The parser *)


Local Abbreviation member_loaded load :=
  (fun (m : string * json) (e : string * pyobj) =>
     fst e = fst m /\ load (snd m) = Ok (snd e)).

Lemma load_members_Forall2 (load : json -> result pyobj) ms vs :
  traverse (fun m => v <- load (snd m) ;; Ok (fst m, v)) ms = Ok vs
  <-> Forall2 (member_loaded load) ms vs.
Proof.
  rewrite traverse_Forall2. split; intro H.
  - induction H as [|m e ms vs H0 _ IH]; constructor; [|exact IH].
    destruct (load (snd m)) as [v|er] eqn:Ev; [|discriminate].
    cbn [bind] in H0. injection H0 as <-. split; simpl; auto.
  - induction H as [|m e ms vs [Hk Hj] _ IH]; constructor; [|exact IH].
    rewrite Hj. cbn [bind]. destruct e. simpl in *. now subst.
Qed.


Lemma dict_of_members_facts (vs : list (string * pyobj)) :
  forall acc : list (pykey * pyobj),
    NoDup (map fst acc) ->
    let d := fold_left (fun d m => dict_set d (KStr (fst m)) (snd m)) vs acc in
    NoDup (map fst d)
    /\ (forall key val, In (key, val) d ->
                        In (key, val) acc
                        \/ exists s, key = KStr s /\ In (s, val) vs).
Proof.
  induction vs as [|[s v] vs IH]; intros acc Hacc; simpl.
  - split; [exact Hacc|]. intros key val H. now left.
  - destruct (IH (dict_set acc (KStr s) v) (dict_set_NoDup _ _ _ Hacc)) as [N K].
    split; [exact N|]. intros key val H. apply K in H as [H|(s' & E & H)].
    + apply dict_set_values in H as [H|[-> ->]]; [now left|].
      right. exists s. split; [reflexivity|now left].
    + right. exists s'. split; [exact E|now right].
Qed.

(** *** The decoder *)


(** The decoder returns the same table whatever its test of the keys
    says. *)
Lemma decode_object_result maxd depth flags d :
  (Z.land flags 1 =? 1)%Z = false ->
  decode_value maxd (S depth) flags (PDict d)
  = (x' <- coerce_keys maxd (decode_value maxd depth flags) d d ;;
     Ok (table_from_dict x')).
Proof.
  intro Hf. cbn [decode_value]. rewrite Hf.
  destruct (coerce_keys _ _ _ _) as [x'|e]; [|reflexivity].
  cbn [bind].
  repeat match goal with |- context [if ?b then _ else _] => destruct b end;
    reflexivity.
Qed.

Lemma decode_object_preserved maxd depth flags d :
  (Z.land flags 1 =? 1)%Z = true ->
  decode_value maxd (S depth) flags (PDict d)
  = (d' <- recurse_values (decode_value maxd depth flags) d ;;
     Ok (table_from_dict d')).
Proof. intro Hf. cbn [decode_value]. now rewrite Hf. Qed.




Section CoerceKeys.
Variable maxd : nat.
Variable recurse : pyobj -> result pyobj.

(** What the loop makes of one item. *)
Local Abbreviation item_coerced :=
  (fun (it o : pykey * pyobj) =>
     exists s, fst it = KStr s /\ coerce_name maxd s = Ok (fst o)
               /\ recurse (snd it) = Ok (snd o)).




End CoerceKeys.


(** *** One level further in *)




(** *** What the encoder writes for a table *)


(** *** What the decoder returns for an object *)



(** *** Round trips: a table written as an array *)

Lemma listed_from_sequential ok t :
  forall i,
    listed_from ok i t = true ->
    forallb key_is_int (map fst t) = true
    /\ sorted (map key_num (map fst t)) = map key_num (map fst t)
    /\ run_from (i - 1) (map key_num (map fst t)) = true
    /\ (forall z, In z (map key_num (map fst t)) -> (i <= z)%Z).
Proof.
  induction t as [|[k x] t IH]; intros i H.
  - repeat split. intros z [].
  - cbn [listed_from fst snd] in H.
    apply andb_true_iff in H as [H Ht]. apply andb_true_iff in H as [Hk Hx].
    apply key_eqb_eq in Hk. subst k.
    destruct (IH _ Ht) as (A & B & C & D).
    cbn [map fst forallb key_is_int key_num andb]. repeat split.
    + exact A.
    + cbn [sorted fold_right]. fold (sorted (map key_num (map fst t))). rewrite B.
      destruct (map key_num (map fst t)) as [|y l] eqn:E; [reflexivity|].
      cbn [insert_sorted].
      replace (i <=? y)%Z with true; [reflexivity|].
      symmetry. apply Z.leb_le. specialize (D y (or_introl eq_refl)). lia.
    + cbn [run_from]. replace (i - 1 + 1)%Z with i by lia. rewrite Z.eqb_refl.
      replace (i + 1 - 1)%Z with i in C by lia. exact C.
    + intros z [<-|Hz]; [lia|]. specialize (D z Hz). lia.
Qed.

Lemma listed_sequential ok t :
  listed_from ok 1 t = true -> sequential_keys (map fst t) = true.
Proof.
  intro H. destruct (listed_from_sequential _ _ _ H) as (A & B & C & _).
  unfold sequential_keys. rewrite A, B. exact C.
Qed.

Lemma listed_items_from t :
  forall i,
    listed_from (fun v => negb (is_none v)) i t = true ->
    table_items_from i (map snd t) = t.
Proof.
  induction t as [|[k x] t IH]; intros i H; [reflexivity|].
  cbn [listed_from fst snd] in H.
  apply andb_true_iff in H as [H Ht]. apply andb_true_iff in H as [Hk Hx].
  apply key_eqb_eq in Hk. subst k. cbn [map snd table_items_from].
  apply negb_true_iff in Hx. rewrite Hx. now rewrite (IH _ Ht).
Qed.

Lemma table_items_from_all i l :
  forall i',
    i' = i ->
    (forall v, In v l -> is_none v = false) ->
    map snd (table_items_from i' l) = l.
Proof.
  revert i. induction l as [|v l IH]; intros i i' -> H; [reflexivity|].
  cbn [table_items_from]. rewrite (H v (or_introl eq_refl)). cbn [map snd].
  f_equal. apply (IH (i + 1)%Z); [reflexivity|]. intros; apply H; now right.
Qed.

Lemma traverse_map {A B C} (f : B -> result C) (g : A -> B) l :
  traverse (fun a => f (g a)) l = traverse f (map g l).
Proof.
  induction l as [|a l IH]; simpl; [reflexivity|]. now rewrite IH.
Qed.

(** The four passes over the values of an array. *)
Lemma array_stages (enc : pyobj -> result pyobj) (dmp : pyobj -> result json)
      (lds : json -> result pyobj) (dec : pyobj -> result pyobj) (vs : list pyobj) :
  (forall v, In v vs ->
             exists e j p, enc v = Ok e /\ dmp e = Ok j /\ lds j = Ok p /\ dec p = Ok v) ->
  exists es js ps,
    traverse enc vs = Ok es /\ traverse dmp es = Ok js
    /\ traverse lds js = Ok ps /\ traverse dec ps = Ok vs.
Proof.
  induction vs as [|v vs IH]; intro H.
  - exists [], [], []. repeat split.
  - destruct (H v (or_introl eq_refl)) as (e & j & p & He & Hj & Hp & Hv).
    destruct IH as (es & js & ps & Hes & Hjs & Hps & Hvs);
      [intros; apply H; now right|].
    exists (e :: es), (j :: js), (p :: ps). simpl.
    rewrite He, Hj, Hp, Hv. cbn [bind]. rewrite Hes, Hjs, Hps, Hvs. repeat split.
Qed.

(** The stages of a round trip that returns. *)
Lemma round_trip_stages lim h lim' rest rest' v w :
  round_trip lim h lim' rest rest' v = Ok w
  <-> exists e j p,
      encode_value (int_max_str_digits lim) h (recursion_depth lim) (flags_of rest) v = Ok e
      /\ json_dumps (int_max_str_digits lim) (json_depth lim) e = Ok j
      /\ json_loads (int_max_str_digits lim') (json_depth lim') j = Ok p
      /\ decode_value (int_max_str_digits lim') (recursion_depth lim') (flags_of rest') p
         = Ok w.
Proof.
  unfold round_trip, mw_text_jsonencode, mw_text_jsondecode. split.
  - intro H.
    destruct (encode_value _ _ _ _ v) as [e|?] eqn:He; [|discriminate].
    cbn [bind] in H.
    destruct (json_dumps _ _ e) as [j|?] eqn:Hj; [|discriminate]. cbn [bind] in H.
    destruct (json_loads _ _ j) as [p|?] eqn:Hp; [|discriminate]. cbn [bind] in H.
    exists e, j, p. auto.
  - intros (e & j & p & -> & Hj & Hp & Hw). cbn [bind]. rewrite Hj. cbn [bind].
    rewrite Hp. exact Hw.
Qed.

Lemma inner_round_trip_stages lim h lim' rest rest' v w rd jd rd' jd' :
  recursion_depth lim = S rd -> json_depth lim = S jd ->
  recursion_depth lim' = S rd' -> json_depth lim' = S jd' ->
  (round_trip (inner lim) h (inner lim') rest rest' v = Ok w
   <-> exists e j p,
      encode_value (int_max_str_digits lim) h rd (flags_of rest) v = Ok e
      /\ json_dumps (int_max_str_digits lim) jd e = Ok j
      /\ json_loads (int_max_str_digits lim') jd' j = Ok p
      /\ decode_value (int_max_str_digits lim') rd' (flags_of rest') p = Ok w).
Proof.
  intros Hr Hj Hr' Hj'. rewrite round_trip_stages. unfold inner. simpl.
  now rewrite Hr, Hj, Hr', Hj'.
Qed.

(** A table whose keys are 1, ..., N is written as an array of its values
    in the order the runtime lists them and comes back as the table that
    has these values under 1, ..., N in that order. *)
Lemma round_trip_array lim h lim' rest rest' x t :
  table_items h x = Some t ->
  (Z.land (flags_of rest) 1 =? 0)%Z = true ->
  sequential_keys (map fst t) = true ->
  (0 < recursion_depth lim)%nat -> (0 < json_depth lim)%nat ->
  (0 < recursion_depth lim')%nat -> (0 < json_depth lim')%nat ->
  (forall kv, In kv t ->
              round_trip (inner lim) h (inner lim') rest rest' (snd kv) = Ok (snd kv)) ->
  round_trip lim h lim' rest rest' x = Ok (table_from_list (map snd t)).
Proof.
  intros Ht Hf Hs Hr Hj Hr' Hj' Hvals.
  destruct (recursion_depth lim) as [|rd] eqn:Erd; [lia|].
  destruct (json_depth lim) as [|jd] eqn:Ejd; [lia|].
  destruct (recursion_depth lim') as [|rd'] eqn:Erd'; [lia|].
  destruct (json_depth lim') as [|jd'] eqn:Ejd'; [lia|].
  apply round_trip_stages. rewrite Erd, Ejd, Erd', Ejd'.
  rewrite (encode_table_array _ _ _ _ _ _ Ht Hf Hs).
  rewrite (traverse_map (encode_value _ h rd (flags_of rest)) snd).
  destruct (array_stages
              (encode_value (int_max_str_digits lim) h rd (flags_of rest))
              (json_dumps (int_max_str_digits lim) jd)
              (json_loads (int_max_str_digits lim') jd')
              (decode_value (int_max_str_digits lim') rd' (flags_of rest'))
              (map snd t)) as (es & js & ps & Hes & Hjs & Hps & Hvs).
  { intros v Hv. apply in_map_iff in Hv as (kv & <- & Hkv).
    apply (inner_round_trip_stages lim h lim' rest rest' _ _ rd jd rd' jd'
                                   Erd Ejd Erd' Ejd').
    now apply Hvals. }
  exists (PList es), (JArr js), (PList ps). rewrite Hes. cbn [bind].
  split; [reflexivity|]. split; [rewrite json_dumps_list, Hjs; reflexivity|].
  split; [cbn [json_loads]; rewrite Hps; reflexivity|].
  cbn [decode_value]. rewrite Hvs. reflexivity.
Qed.

(** A table that lists the keys 1, ..., N in that order comes back as it
    was. *)
Lemma round_trip_listed lim h lim' rest rest' x t :
  table_items h x = Some t ->
  (Z.land (flags_of rest) 1 =? 0)%Z = true ->
  listed_from (fun v => negb (is_none v)) 1 t = true ->
  (0 < recursion_depth lim)%nat -> (0 < json_depth lim)%nat ->
  (0 < recursion_depth lim')%nat -> (0 < json_depth lim')%nat ->
  (forall kv, In kv t ->
              round_trip (inner lim) h (inner lim') rest rest' (snd kv) = Ok (snd kv)) ->
  round_trip lim h lim' rest rest' x = Ok (PTable t).
Proof.
  intros Ht Hf Hl Hr Hj Hr' Hj' Hvals.
  rewrite (round_trip_array lim h lim' rest rest' x t Ht Hf
                            (listed_sequential _ _ Hl) Hr Hj Hr' Hj' Hvals).
  unfold table_from_list. now rewrite (listed_items_from _ _ Hl).
Qed.

(** Scalars come back as they were when their digits are within the
    limits. *)
Lemma round_trip_scalar lim h lim' rest rest' v :
  is_scalar v = true ->
  (0 < recursion_depth lim)%nat -> (0 < recursion_depth lim')%nat ->
  (forall z, v = PInt z ->
             too_many_digits (int_max_str_digits lim) (digits z) = false
             /\ too_many_digits (int_max_str_digits lim') (digits z) = false) ->
  round_trip lim h lim' rest rest' v = Ok v.
Proof.
  intros Hv Hr Hr' Hz. apply round_trip_stages.
  destruct (recursion_depth lim) as [|rd]; [lia|].
  destruct (recursion_depth lim') as [|rd']; [lia|].
  destruct (json_depth lim) as [|jd];
  destruct v as [|b|z|r|s|l|d|t|r|r]; try discriminate.
  all: try (destruct (Hz z eq_refl) as [H1 H2];
            exists (PInt z), (JInt z), (PInt z); cbn; rewrite H1, H2; now repeat split).
  all: try (exists (PBool b), (JBool b), (PBool b); now repeat split).
  all: try (exists (PFloat r), (JFloat r), (PFloat r); now repeat split).
  all: exists (PStr s), (JStr s), (PStr s); now repeat split.
Qed.

(** *** Round trips: a table written as an object *)






Section Keyed.
Variables (maxd maxd' : nat) (h : heap) (rd jd jd' : nat) (flags : Z).
Variable t : list (pykey * pyobj).
Hypothesis int_keys : forall k, In k (map fst t) -> exists z, k = KInt z.
Hypothesis distinct : NoDup (map fst t).

(** An item of the table and the entry the parser makes of it. *)
Local Abbreviation parsed :=
  (fun (kv it : pykey * pyobj) =>
     exists z e j,
       fst kv = KInt z /\ fst it = KStr (Py.str_of_int z)
       /\ encode_value maxd h rd flags (snd kv) = Ok e
       /\ json_dumps maxd jd e = Ok j
       /\ json_loads maxd' jd' j = Ok (snd it)).


End Keyed.


(** *** What the decoder returns for an array *)

End JsonFacts.

Section JsonClaims.
Import Json.




(** With the flag that preserves keys the table with the keys 1, 2, 3 is
    written as an object and comes back with the three strings as keys. *)
Example json_preserve_keys_flag_gives_object :
  mw_text_jsonencode Samples.stock_limits Samples.empty_heap Samples.table_123 [1%Z]
  = Ok (JObj [("1", JStr "a"); ("2", JStr "b"); ("3", JStr "c")])
  /\ round_trip Samples.stock_limits Samples.empty_heap Samples.stock_limits
                [1%Z] [1%Z] Samples.table_123
     = Ok (PTable [(KStr "1", PStr "a"); (KStr "2", PStr "b"); (KStr "3", PStr "c")]).
Proof. split; reflexivity. Qed.

(** A negative key comes back as a string, the others as they were; the
    members are written in the order of their names. *)
Example json_not_sequential_round_trip :
  round_trip Samples.stock_limits Samples.empty_heap Samples.stock_limits [] []
             (PTable [(KInt 1, PStr "a"); (KInt 3, PStr "c"); (KInt (-2), PStr "z")])
  = Ok (PTable [(KStr "-2", PStr "z"); (KInt 1, PStr "a"); (KInt 3, PStr "c")]).
Proof. reflexivity. Qed.

(** A table that holds itself: the recursion ends in [RecursionError]. *)
Example json_table_in_itself :
  mw_text_jsonencode Samples.stock_limits Samples.looping_heap (PRef 0) []
  = Raise RecursionError.
Proof. reflexivity. Qed.
End JsonClaims.

(** * Further properties *)

(** ** The matcher *)

Module ReFacts.

Lemma run_star {A : Type} greedy r pos s c (k : nat -> string -> Re.captures -> option A) :
  Re.run (Re.Star greedy r) pos s c k
  = Scan.star_loop greedy (Re.run r) k (S (String.length s)) pos s c.
Proof. reflexivity. Qed.

Lemma run_seq {A : Type} r1 r2 pos s c (k : nat -> string -> Re.captures -> option A) :
  Re.run (Re.Seq r1 r2) pos s c k
  = Re.run r1 pos s c (fun pos' s' c' => Re.run r2 pos' s' c' k).
Proof. reflexivity. Qed.

Lemma run_chr {A : Type} p pos s c (k : nat -> string -> Re.captures -> option A) :
  Re.run (Re.Chr p) pos s c k
  = match s with
    | String a s' => if p a then k (S pos) s' c else None
    | EmptyString => None
    end.
Proof. reflexivity. Qed.

Lemma run_group {A : Type} n r pos s c (k : nat -> string -> Re.captures -> option A) :
  Re.run (Re.Group n r) pos s c k
  = Re.run r pos s c
           (fun pos' s' c' => k pos' s' ((n, substring 0 (pos' - pos) s) :: c')).
Proof. reflexivity. Qed.

Lemma run_star_class {A : Type} greedy p (k : nat -> string -> Re.captures -> option A) s :
  forall pos c,
    Re.run (Re.Star greedy (Re.Chr p)) pos s c k = Scan.star_class greedy p pos s c k.
Proof.
  induction s as [|a s IH]; intros pos c.
  - cbn. destruct greedy; [reflexivity|]. now destruct (k pos "" c).
  - specialize (IH (S pos) c).
    cbn [Scan.star_class]. rewrite <- IH. cbn -[Nat.ltb].
    replace (pos <? S pos)%nat with true by (symmetry; apply Nat.ltb_lt; lia).
    destruct (p a); [reflexivity|].
    destruct greedy; [reflexivity|]. now destruct (k pos (String a s) c).
Qed.

(** Tail-closed classes of texts: every character passes [q]. *)
Section Failing.
Context {A : Type}.
Variable q : ascii -> bool.

(** If the continuation fails on every text of the class, so does any
    pattern run before it. *)
Lemma run_fails (r : Re.regex) :
  forall pos s c (k : nat -> string -> Re.captures -> option A),
    Py.forallb_str q s = true ->
    (forall pos' s' c', Py.forallb_str q s' = true -> k pos' s' c' = None) ->
    Re.run r pos s c k = None.
Proof.
  induction r as [p| |r1 IH1 r2 IH2|r1 IH1 r2 IH2|g r1 IH1|n r1 IH1| |];
    intros pos s c k Hs Hk.
  - cbn. destruct s as [|a s']; [reflexivity|].
    simpl in Hs. apply andb_true_iff in Hs as [_ Hs'].
    destruct (p a); [apply Hk, Hs'|reflexivity].
  - cbn. apply Hk, Hs.
  - cbn [Re.run]. apply IH1; [exact Hs|]. intros. apply IH2; auto.
  - cbn [Re.run]. rewrite IH1, IH2; auto.
  - rewrite run_star.
    generalize (S (String.length s)). intro fuel.
    revert pos s c Hs. induction fuel as [|fuel IHf]; intros pos s c Hs.
    + cbn. apply Hk, Hs.
    + cbn [Scan.star_loop]. rewrite IH1; [|exact Hs|].
      * rewrite (Hk pos s c Hs). now destruct g.
      * intros pos' s' c' Hs'. destruct (pos <? pos')%nat; auto.
  - cbn [Re.run]. apply IH1; [exact Hs|]. intros. apply Hk. assumption.
  - cbn. destruct (pos =? 0)%nat; [apply Hk, Hs|reflexivity].
  - cbn -[Ascii.eqb]. destruct s as [|a [|b s']]; [apply Hk, Hs| |reflexivity].
    destruct (a =? "010")%char; [apply Hk, Hs|reflexivity].
Qed.
End Failing.


Section FailingWithin.
Context {A : Type}.
Variable q : string -> bool.
Variable P : ascii -> bool.
Hypothesis q_tail : forall a s, q (String a s) = true -> P a = true -> q s = true.

(** The same for a set [q] of texts that is kept when a character of
    [P] is taken from the front, and a pattern whose classes lie within
    [P]. *)
Lemma run_fails_within (r : Re.regex) :
  Scan.classes_within P r ->
  forall pos s c (k : nat -> string -> Re.captures -> option A),
    q s = true ->
    (forall pos' s' c', q s' = true -> k pos' s' c' = None) ->
    Re.run r pos s c k = None.
Proof.
  induction r as [p| |r1 IH1 r2 IH2|r1 IH1 r2 IH2|g r1 IH1|n r1 IH1| |];
    intros Hr pos s c k Hs Hk; cbn [Scan.classes_within] in Hr.
  - cbn. destruct s as [|a s']; [reflexivity|].
    destruct (p a) eqn:Hp; [|reflexivity].
    apply Hk. apply (q_tail a s' Hs). now apply Hr.
  - cbn. apply Hk, Hs.
  - destruct Hr as [Hr1 Hr2]. cbn [Re.run]. apply IH1; [exact Hr1|exact Hs|].
    intros. apply IH2; auto.
  - destruct Hr as [Hr1 Hr2]. cbn [Re.run]. rewrite IH1, IH2; auto.
  - rewrite run_star.
    generalize (S (String.length s)). intro fuel.
    revert pos s c Hs. induction fuel as [|fuel IHf]; intros pos s c Hs.
    + cbn. apply Hk, Hs.
    + cbn [Scan.star_loop]. rewrite IH1; [|exact Hr|exact Hs|].
      * rewrite (Hk pos s c Hs). now destruct g.
      * intros pos' s' c' Hs'. destruct (pos <? pos')%nat; auto.
  - cbn [Re.run]. apply IH1; [exact Hr|exact Hs|]. intros. apply Hk. assumption.
  - cbn. destruct (pos =? 0)%nat; [apply Hk, Hs|reflexivity].
  - cbn -[Ascii.eqb]. destruct s as [|a [|b s']]; [apply Hk, Hs| |reflexivity].
    destruct (a =? "010")%char; [apply Hk, Hs|reflexivity].
Qed.
End FailingWithin.

(** *** Substitution of a character class and of a doubled character *)

Lemma match_at_chr p pos s :
  Re.match_at (Re.Chr p) pos s
  = match s with
    | String a _ => if p a then Some (S pos, []) else None
    | EmptyString => None
    end.
Proof. destruct s; reflexivity. Qed.

Lemma sub_from_skip r repl s :
  forall pos skip,
    Re.sub_from r repl pos skip s = Re.sub_from r repl (pos + skip) 0 (Py.drop skip s).
Proof.
  induction s as [|a s IH]; intros pos skip.
  - destruct skip; reflexivity.
  - destruct skip as [|skip].
    + simpl Py.drop. now rewrite Nat.add_0_r.
    + cbn [Re.sub_from Py.drop]. rewrite IH. f_equal. lia.
Qed.

Lemma sub_chr p s : Re.sub (Re.Chr p) "" s = Scan.remove p s.
Proof.
  unfold Re.sub.
  enough (G : forall pos, Re.sub_from (Re.Chr p) "" pos 0 s = Scan.remove p s)
    by apply G.
  induction s as [|a s IH]; intro pos.
  - reflexivity.
  - cbn [Re.sub_from Scan.remove]. rewrite match_at_chr.
    destruct (p a).
    + replace (pos <? S pos)%nat with true by (symmetry; apply Nat.ltb_lt; lia).
      replace (S pos - pos - 1) with 0 by lia. simpl. apply IH.
    + f_equal. apply IH.
Qed.

Lemma star_class_greedy_total p s :
  forall pos (c : Re.captures),
    Scan.star_class true p pos s c (fun pos' _ c' => Some (pos', c'))
    = Some (pos + Scan.span p s, c).
Proof.
  induction s as [|a s IH]; intros pos c; simpl.
  - f_equal. f_equal. lia.
  - destruct (p a).
    + rewrite IH. f_equal. f_equal. lia.
    + f_equal. f_equal. lia.
Qed.

Lemma match_at_doubled x pos s :
  Re.match_at (Scan.doubled x) pos s
  = match s with
    | String a (String b s') =>
        if Ascii.eqb x a && Ascii.eqb x b
        then Some (pos + 2 + Scan.span (Ascii.eqb x) s', [])
        else None
    | _ => None
    end.
Proof.
  unfold Re.match_at, Scan.doubled, Re.lit_char. rewrite run_seq, run_chr.
  destruct s as [|a [|b s']]; try reflexivity.
  - rewrite run_seq, run_chr. now destruct (Ascii.eqb x a).
  - destruct (Ascii.eqb x a); [|reflexivity]. rewrite run_seq, run_chr.
    destruct (Ascii.eqb x b); [|reflexivity]. cbn [andb].
    rewrite run_star_class, star_class_greedy_total. f_equal. f_equal. lia.
Qed.

Lemma squeeze_after_not_in_run x s :
  Scan.span (Ascii.eqb x) s = 0 ->
  Scan.squeeze_after x true s = Scan.squeeze_after x false s.
Proof.
  destruct s as [|a s]; [reflexivity|]. simpl.
  rewrite (Ascii.eqb_sym a x). now destruct (Ascii.eqb x a).
Qed.

Lemma sub_doubled_from x s :
  forall pos skip,
    skip = 0 \/ skip = Scan.span (Ascii.eqb x) s ->
    Re.sub_from (Scan.doubled x) (String x "") pos skip s
    = Scan.squeeze_after x (0 <? skip)%nat s.
Proof.
  induction s as [|a s IH]; intros pos skip Hskip.
  - destruct skip; reflexivity.
  - destruct skip as [|skip].
    + change (0 <? 0)%nat with false.
      cbn [Re.sub_from Scan.squeeze_after].
      rewrite match_at_doubled. rewrite (Ascii.eqb_sym a x).
      pose proof (IH (S pos) 0 (or_introl eq_refl)) as IH0.
      change (0 <? 0)%nat with false in IH0.
      destruct s as [|b s'].
      * destruct (Ascii.eqb x a); reflexivity.
      * destruct (Ascii.eqb x a) eqn:Ea; cbn [andb].
        -- destruct (Ascii.eqb x b) eqn:Eb.
           ++ replace (pos <? pos + 2 + Scan.span (Ascii.eqb x) s')%nat with true
                by (symmetry; apply Nat.ltb_lt; lia).
              apply Ascii.eqb_eq in Ea. subst a. cbn [append]. f_equal.
              rewrite IH.
              ** replace (0 <? pos + 2 + Scan.span (Ascii.eqb x) s' - pos - 1)%nat
                   with true by (symmetry; apply Nat.ltb_lt; lia).
                 reflexivity.
              ** right. cbn [Scan.span]. rewrite Eb. lia.
           ++ f_equal. rewrite IH0.
              symmetry. apply squeeze_after_not_in_run.
              cbn [Scan.span]. now rewrite Eb.
        -- f_equal. exact IH0.
    + destruct Hskip as [Hskip|Hskip]; [discriminate|].
      cbn [Scan.span] in Hskip. destruct (Ascii.eqb x a) eqn:Ea; [|discriminate].
      injection Hskip as Hskip.
      change (0 <? S skip)%nat with true.
      cbn [Re.sub_from Scan.squeeze_after].
      rewrite (Ascii.eqb_sym a x), Ea. rewrite IH by (now right).
      destruct skip as [|skip]; [|reflexivity].
      change (0 <? 0)%nat with false. symmetry.
      apply squeeze_after_not_in_run. now symmetry.
Qed.

Lemma sub_doubled x s : Re.sub (Scan.doubled x) (String x "") s = Scan.squeeze x s.
Proof. unfold Re.sub. rewrite sub_doubled_from by (now left). reflexivity. Qed.

(** The pattern [^xx+] removes a doubled [x] at the start only. *)
Lemma sub_anchored_later x s :
  forall pos, Re.sub_from (Re.Seq Re.Bol (Scan.doubled x)) "" (S pos) 0 s = s.
Proof.
  induction s as [|a s IH]; intro pos; [reflexivity|].
  cbn [Re.sub_from]. unfold Re.match_at at 1. cbn. f_equal. apply IH.
Qed.

Lemma sub_anchored_no_double x s :
  Scan.no_double x s = true -> Re.sub (Re.Seq Re.Bol (Scan.doubled x)) "" s = s.
Proof.
  intro H. unfold Re.sub. destruct s as [|a s]; [reflexivity|].
  cbn [Re.sub_from].
  assert (E : Re.match_at (Re.Seq Re.Bol (Scan.doubled x)) 0 (String a s) = None).
  { change (Re.match_at (Re.Seq Re.Bol (Scan.doubled x)) 0 (String a s))
      with (Re.match_at (Scan.doubled x) 0 (String a s)).
    rewrite match_at_doubled. destruct s as [|b s']; [reflexivity|].
    unfold Scan.no_double in H. simpl in H.
    rewrite (Ascii.eqb_sym a x), (Ascii.eqb_sym b x) in H.
    destruct (Ascii.eqb x a); [|reflexivity].
    destruct (Ascii.eqb x b); [discriminate|reflexivity]. }
  rewrite E. f_equal. apply sub_anchored_later.
Qed.

(** *** What squeezing keeps *)

Lemma squeeze_after_no_double x s :
  forall in_run,
    Scan.no_double_after x in_run (Scan.squeeze_after x in_run s) = true.
Proof.
  induction s as [|a s IH]; intro in_run; [reflexivity|].
  simpl. destruct (Ascii.eqb a x) eqn:E.
  - destruct in_run; [apply IH|]. simpl. rewrite E. apply IH.
  - simpl. rewrite E. apply IH.
Qed.

Lemma squeeze_after_keeps_no_double x y s :
  x <> y ->
  forall prev in_run,
    (in_run = true -> prev = false) ->
    Scan.no_double_after y prev s = true ->
    Scan.no_double_after y prev (Scan.squeeze_after x in_run s) = true.
Proof.
  intro Hxy. induction s as [|a s IH]; intros prev in_run Hc H; [reflexivity|].
  simpl in *. destruct (Ascii.eqb a x) eqn:Ex.
  - apply Ascii.eqb_eq in Ex. subst a.
    assert (Ey : Ascii.eqb x y = false) by (now apply Ascii.eqb_neq).
    rewrite Ey in H. destruct in_run.
    + rewrite (Hc eq_refl). apply IH; auto.
    + simpl. rewrite Ey. apply IH; auto.
  - simpl. destruct (Ascii.eqb a y).
    + apply andb_true_iff in H as [H1 H2]. rewrite H1. simpl.
      apply IH; [discriminate|exact H2].
    + apply IH; [discriminate|exact H].
Qed.

Lemma squeeze_after_forall q x s :
  forall in_run,
    Py.forallb_str q s = true ->
    Py.forallb_str q (Scan.squeeze_after x in_run s) = true.
Proof.
  induction s as [|a s IH]; intros in_run H; [reflexivity|].
  simpl in *. apply andb_true_iff in H as [H1 H2].
  destruct (Ascii.eqb a x); [destruct in_run|]; simpl; rewrite ?H1; simpl; auto.
Qed.

Lemma remove_forall p s :
  Py.forallb_str (fun a => negb (p a)) (Scan.remove p s) = true.
Proof.
  induction s as [|a s IH]; [reflexivity|]. simpl.
  destruct (p a) eqn:E; [exact IH|]. simpl. now rewrite E.
Qed.

Lemma forallb_str_append q s t :
  Py.forallb_str q (s ++ t) = Py.forallb_str q s && Py.forallb_str q t.
Proof. induction s as [|a s IH]; simpl; [reflexivity|]. now rewrite IH, andb_assoc. Qed.

Lemma replace_char_forall q c new s :
  Py.forallb_str q new = true ->
  Py.forallb_str (fun a => q a || Ascii.eqb a c) s = true ->
  Py.forallb_str q (Py.replace_char c new s) = true.
Proof.
  intros Hn. induction s as [|a s IH]; intro H; [reflexivity|].
  simpl in *. apply andb_true_iff in H as [H1 H2].
  destruct (Ascii.eqb a c) eqn:E.
  - rewrite forallb_str_append, Hn. simpl. auto.
  - simpl. rewrite orb_false_r in H1. rewrite H1. simpl. auto.
Qed.

Lemma forallb_str_weaken (q q' : ascii -> bool) s :
  (forall a, q a = true -> q' a = true) ->
  Py.forallb_str q s = true -> Py.forallb_str q' s = true.
Proof.
  intro Hq. induction s as [|a s IH]; intro H; [reflexivity|].
  simpl in *. apply andb_true_iff in H as [H1 H2]. rewrite (Hq _ H1). simpl. auto.
Qed.

Lemma no_double_contains x s :
  Scan.no_double x s = true -> Py.contains (String x (String x "")) s = false.
Proof.
  unfold Scan.no_double.
  assert (G : forall prev, Scan.no_double_after x prev s = true ->
                           Py.contains (String x (String x "")) s = false).
  { induction s as [|a s IH]; intros prev H; [reflexivity|].
    cbn [Py.contains]. rewrite prefix_cons.
    simpl in H. rewrite (Ascii.eqb_sym a x) in H.
    destruct (Ascii.eqb x a) eqn:Ea.
    - apply andb_true_iff in H as [_ H]. rewrite (IH _ H).
      destruct s as [|b s']; [reflexivity|].
      rewrite prefix_cons, prefix_empty. simpl in H.
      rewrite (Ascii.eqb_sym b x) in H.
      destruct (Ascii.eqb x b); [discriminate|reflexivity].
    - simpl. exact (IH _ H). }
  apply G.
Qed.

(** *** A repetition of a character class on a text that is known *)

Lemma star_class_greedy_stop {A : Type} p ws rest c
      (k : nat -> string -> Re.captures -> option A) x :
  forall pos,
    Py.forallb_str p ws = true ->
    Scan.span p rest = 0 ->
    k (pos + String.length ws) rest c = Some x ->
    Scan.star_class true p pos (ws ++ rest) c k = Some x.
Proof.
  induction ws as [|a ws IH]; intros pos Hws Hrest Hk.
  - cbn [append String.length] in *. rewrite Nat.add_0_r in Hk.
    destruct rest as [|b rest]; cbn [Scan.star_class]; [exact Hk|].
    cbn [Scan.span] in Hrest. destruct (p b); [discriminate|exact Hk].
  - cbn [Py.forallb_str] in Hws. apply andb_true_iff in Hws as [Ha Hws].
    cbn [append Scan.star_class]. rewrite Ha.
    rewrite (IH (S pos)); auto.
    cbn [String.length] in Hk. now replace (S pos + String.length ws)
      with (pos + S (String.length ws)) by lia.
Qed.

Lemma star_class_fails {A : Type} g p s :
  forall pos c (k : nat -> string -> Re.captures -> option A),
    (forall i, i <= Scan.span p s -> k (pos + i) (Py.drop i s) c = None) ->
    Scan.star_class g p pos s c k = None.
Proof.
  induction s as [|a s IH]; intros pos c k H.
  - cbn [Scan.star_class]. specialize (H 0). rewrite Nat.add_0_r in H. apply H. lia.
  - assert (H0 : k pos (String a s) c = None).
    { specialize (H 0). rewrite Nat.add_0_r in H. apply H. lia. }
    cbn [Scan.star_class]. destruct (p a) eqn:Ha; [|exact H0].
    assert (Hin : Scan.star_class g p (S pos) s c k = None).
    { apply IH. intros i Hi. specialize (H (S i)).
      cbn [Scan.span Py.drop] in H. rewrite Ha in H.
      replace (S pos + i) with (pos + S i) by lia. apply H. lia. }
    destruct g; now rewrite Hin, H0.
Qed.

Lemma star_class_lazy_skip {A : Type} p v rest c
      (k : nat -> string -> Re.captures -> option A) :
  forall pos,
    Py.forallb_str p v = true ->
    (forall i, i < String.length v -> k (pos + i) (Py.drop i (v ++ rest)) c = None) ->
    Scan.star_class false p pos (v ++ rest) c k
    = Scan.star_class false p (pos + String.length v) rest c k.
Proof.
  induction v as [|a v IH]; intros pos Hv H.
  - cbn [append String.length]. now rewrite Nat.add_0_r.
  - cbn [Py.forallb_str] in Hv. apply andb_true_iff in Hv as [Ha Hv].
    cbn [append Scan.star_class String.length]. rewrite Ha.
    assert (H0 : k pos (String a (v ++ rest)) c = None).
    { specialize (H 0). rewrite Nat.add_0_r in H. apply H. simpl. lia. }
    rewrite H0, (IH (S pos) Hv).
    + f_equal. lia.
    + intros i Hi. specialize (H (S i)). cbn [append Py.drop String.length] in H.
      replace (S pos + i) with (pos + S i) by lia. apply H. lia.
Qed.

Lemma star_class_lazy_now {A : Type} p s pos c
      (k : nat -> string -> Re.captures -> option A) x :
  k pos s c = Some x -> Scan.star_class false p pos s c k = Some x.
Proof.
  intro H. destruct s as [|a s]; cbn [Scan.star_class]; [exact H|].
  destruct (p a); now rewrite H.
Qed.

Lemma drop_app i q r :
  i <= String.length q -> Py.drop i (q ++ r) = Py.drop i q ++ r.
Proof.
  revert i. induction q as [|a q IH]; intros [|i] H; simpl in *; try reflexivity; try lia.
  apply IH. lia.
Qed.

Lemma drop_length i s : String.length (Py.drop i s) = String.length s - i.
Proof. revert i. induction s as [|a s IH]; intros [|i]; simpl; auto. Qed.

Lemma drop_drop i j s : Py.drop j (Py.drop i s) = Py.drop (i + j) s.
Proof.
  revert i. induction s as [|a s IH]; intros [|i]; simpl; auto.
  - now destruct j.
Qed.

Lemma span_app_not_all p q r :
  Py.forallb_str p q = false ->
  Scan.span p (q ++ r) = Scan.span p q /\ Scan.span p q < String.length q.
Proof.
  induction q as [|a q IH]; [discriminate|].
  cbn [Py.forallb_str append Scan.span String.length].
  destruct (p a); cbn [andb]; [|intros _; split; [reflexivity|lia]].
  intro H. destruct (IH H) as [E L]. rewrite E. split; [reflexivity|lia].
Qed.

Lemma substring_prefix s r : substring 0 (String.length s) (s ++ r) = s.
Proof.
  induction s as [|a s IH]; simpl.
  - now destruct r.
  - now rewrite IH.
Qed.

End ReFacts.

(** ** The module loader: library modules *)

Module LoaderFacts.
Import Loader.

(** The file name of a library module in closed form: control characters
    removed, colons turned into slashes, spaces into underscores, runs of
    slashes and runs of dots each reduced to one character. The last
    substitution of the source, which removes slashes at the start, never
    changes anything. *)
Lemma library_path_closed_form modname :
  library_path modname
  = Scan.squeeze "."
      (Scan.squeeze "/"
         (Py.replace_char " " "_"
            (Py.replace_char ":" "/" (Scan.remove Scan.is_control modname))))
    ++ ".lua".
Proof.
  unfold library_path.
  change (Re.range 0 31) with (Re.Chr Scan.is_control).
  change slashes with (Scan.doubled "/"). change dots with (Scan.doubled ".").
  rewrite ReFacts.sub_chr, !ReFacts.sub_doubled.
  rewrite ReFacts.sub_anchored_no_double; [reflexivity|].
  apply ReFacts.squeeze_after_keeps_no_double; [discriminate|discriminate|].
  apply ReFacts.squeeze_after_no_double.
Qed.

(** X1. The file name under which a library module is looked up is a
    text followed by [.lua]; the text has no control character, no colon
    and no space, no two slashes in a row and no two dots in a row, so no
    part of the path is [..]. *)
Theorem library_path_is_sanitized :
  forall modname,
    exists p,
      library_path modname = p ++ ".lua"
      /\ Py.forallb_str Scan.path_char p = true
      /\ Py.contains "//" p = false
      /\ Py.contains ".." p = false.
Proof.
  intro modname. rewrite library_path_closed_form.
  eexists. split; [reflexivity|]. split; [|split].
  - apply ReFacts.squeeze_after_forall, ReFacts.squeeze_after_forall.
    apply ReFacts.replace_char_forall; [reflexivity|].
    apply (ReFacts.forallb_str_weaken
             (fun a => negb (Scan.is_control a) && negb (Ascii.eqb a ":"))).
    { intros a H. unfold Scan.path_char. rewrite H. simpl.
      now destruct (Ascii.eqb a " "). }
    apply ReFacts.replace_char_forall; [reflexivity|].
    apply (ReFacts.forallb_str_weaken (fun a => negb (Scan.is_control a))).
    { intros a H. rewrite H. simpl. now destruct (Ascii.eqb a ":"). }
    apply ReFacts.remove_forall.
  - change "//" with (String "/" (String "/" "")).
    apply ReFacts.no_double_contains.
    apply ReFacts.squeeze_after_keeps_no_double; [discriminate|discriminate|].
    apply ReFacts.squeeze_after_no_double.
  - change ".." with (String "." (String "." "")).
    apply ReFacts.no_double_contains, ReFacts.squeeze_after_no_double.
Qed.

Example library_path_examples :
  library_path "a:b  c//d...e/../f" = "a/b__c/d.e/./f.lua"
  /\ library_path "../../etc/passwd" = "././etc/passwd.lua"
  /\ library_path "mw.text" = "mw.text.lua".
Proof. repeat split. Qed.

(** *** The search through the roots *)

(** X2. The search returns the text of the file below the first root
    that does not exclude the module and has the file. Every root before
    it excludes the module or has no such file; the roots after it are not
    looked at: the events are the tests for the roots before, then the
    test and the read of the file found. *)
Theorem search_paths_first_match :
  forall fs modname path roots evs data,
    search_paths fs modname path roots = (evs, Some data) ->
    exists before root exceptions after,
      roots = (before ++ (root, exceptions) :: after)%list
      /\ Search.excluded modname exceptions = false
      /\ file fs (Search.probe_path fs root path) = Some data
      /\ (forall r e, In (r, e) before ->
                      Search.excluded modname e = true
                      \/ file fs (Search.probe_path fs r path) = None)
      /\ evs = (Search.probes fs modname path before
                ++ [IsFile (Search.probe_path fs root path);
                    ReadFile (Search.probe_path fs root path)])%list.
Proof.
  intros fs modname path roots.
  induction roots as [|[r e] roots IH]; intros evs data H; [discriminate|].
  cbn [search_paths] in H.
  fold (Search.excluded modname e) in H. fold (Search.probe_path fs r path) in H.
  destruct (Search.excluded modname e) eqn:Ex.
  - destruct (IH _ _ H) as (before & root & exc & after & -> & H1 & H2 & H3 & ->).
    exists ((r, e) :: before), root, exc, after. repeat split; auto.
    + intros r' e' [E|Hin]; [injection E as <- <-; now left|eauto].
    + unfold Search.probes. simpl. now rewrite Ex.
  - destruct (file fs (Search.probe_path fs r path)) as [d|] eqn:Ef.
    + injection H as <- <-. exists [], r, e, roots. repeat split; auto.
    + destruct (search_paths fs modname path roots) as [evs' data'] eqn:Es.
      injection H as <- ->.
      destruct (IH _ _ eq_refl) as (before & root & exc & after & -> & H1 & H2 & H3 & ->).
      exists ((r, e) :: before), root, exc, after. repeat split; auto.
      * intros r' e' [E|Hin]; [injection E as <- <-; now right|eauto].
      * unfold Search.probes. simpl. now rewrite Ex.
Qed.

(** X3. The search returns [None] exactly when every root excludes the
    module or has no file of that name; it then has tested every root that
    does not exclude the module and read nothing. *)
Theorem search_paths_not_found :
  forall fs modname path roots,
    (snd (search_paths fs modname path roots) = None
     <-> forall r e, In (r, e) roots ->
                     Search.excluded modname e = true
                     \/ file fs (Search.probe_path fs r path) = None)
    /\ (snd (search_paths fs modname path roots) = None ->
        fst (search_paths fs modname path roots) = Search.probes fs modname path roots).
Proof.
  intros fs modname path roots.
  induction roots as [|[r e] roots [IH1 IH2]].
  - split; [|reflexivity]. split; [intros _ r e []|reflexivity].
  - cbn [search_paths].
    fold (Search.excluded modname e). fold (Search.probe_path fs r path).
    unfold Search.probes. cbn [filter snd].
    destruct (Search.excluded modname e) eqn:Ex; cbn [negb].
    + split; [|exact IH2]. rewrite IH1. split.
      * intros H r' e' [E|Hin]; [injection E as <- <-; now left|auto].
      * intros H r' e' Hin. apply H. now right.
    + destruct (file fs (Search.probe_path fs r path)) as [d|] eqn:Ef.
      * split; [|discriminate]. split; [discriminate|].
        intro H. destruct (H r e (or_introl eq_refl)); congruence.
      * destruct (search_paths fs modname path roots) as [evs' data'] eqn:Es.
        cbn [fst snd] in *. split.
        -- rewrite IH1. split.
           ++ intros H r' e' [E|Hin]; [injection E as <- <-; now right|auto].
           ++ intros H r' e' Hin. apply H. now right.
        -- intro H. cbn [map fst]. f_equal. exact (IH2 H).
Qed.

Lemma search_paths_first_match_witness :
  exists before root exceptions after,
    builtin_lua_search_paths = (before ++ (root, exceptions) :: after)%list
    /\ Search.excluded "ustring" exceptions = false
    /\ [IsFile "/lua/./ustring.lua"; ReadFile "/lua/./ustring.lua"]
       = (Search.probes
            {| lua_dir := "/lua/";
               file := fun p => if (p =? "/lua/./ustring.lua")%string
                                then Some "local" else Some "lualib" |}
            "ustring" "ustring.lua" before
          ++ [IsFile ("/lua/" ++ root ++ "/" ++ "ustring.lua");
              ReadFile ("/lua/" ++ root ++ "/" ++ "ustring.lua")])%list.
Proof.
  destruct (search_paths_first_match
              {| lua_dir := "/lua/";
                 file := fun p => if (p =? "/lua/./ustring.lua")%string
                                  then Some "local" else Some "lualib" |}
              "ustring" "ustring.lua" builtin_lua_search_paths
              [IsFile "/lua/./ustring.lua"; ReadFile "/lua/./ustring.lua"] "local"
              eq_refl)
    as (before & root & exc & after & Hroots & Hexc & _ & _ & Hevs).
  exists before, root, exc, after. repeat split; assumption.
Defined.


(** *** What the loader touches *)

Lemma search_paths_events fs modname path roots ev :
  In ev (fst (search_paths fs modname path roots)) ->
  exists root,
    In root (map fst roots)
    /\ (ev = IsFile (Search.probe_path fs root path)
        \/ ev = ReadFile (Search.probe_path fs root path)).
Proof.
  induction roots as [|[r e] roots IH]; [intros []|].
  cbn [search_paths]. fold (Search.probe_path fs r path).
  destruct (existsb (String.eqb modname) e).
  - intro H. destruct (IH H) as (root & Hr & Hev). exists root. split; [now right|exact Hev].
  - destruct (file fs (Search.probe_path fs r path)).
    + intros [<-|[<-|[]]]; exists r; (split; [now left|auto]).
    + destruct (search_paths fs modname path roots) as [evs data].
      intros [<-|H].
      * exists r. split; [now left|auto].
      * destruct (IH H) as (root & Hr & Hev). exists root. split; [now right|exact Hev].
Qed.

(** X4. Whatever the reference, the loader touches the outside world in
    one of two ways only. For a name of the module namespace it makes one
    read of the content store and looks at no file. For any other name it
    does not read the store, and every file it tests or reads lies below
    [lua_dir] in one of the two built-in roots, under a sanitized name: no
    control character, colon or space, no two slashes or two dots in a
    row, then [.lua]. *)
Theorem lua_loader_access_is_confined :
  forall fs ctx modname ev,
    In ev (fst (lua_loader fs ctx modname)) ->
    (ev = ReadByTitle (canonical_modname ctx modname) (ns_id (module_ns ctx))
     /\ fst (lua_loader fs ctx modname) = [ev])
    \/ (exists root p,
          In root ["."; "mediawiki-extensions-Scribunto/includes/engines/LuaCommon/lualib"]
          /\ (ev = IsFile (lua_dir fs ++ root ++ "/" ++ p ++ ".lua")
              \/ ev = ReadFile (lua_dir fs ++ root ++ "/" ++ p ++ ".lua"))
          /\ Py.forallb_str Scan.path_char p = true
          /\ Py.contains "//" p = false
          /\ Py.contains ".." p = false
          /\ forall t ns, ~ In (ReadByTitle t ns) (fst (lua_loader fs ctx modname))).
Proof.
  intros fs ctx modname ev. unfold lua_loader. cbv zeta.
  destruct (Py.startswith_any _ ["Module:"; _]) eqn:Hns.
  - destruct (Py.startswith_any _ ["Module:_"; _]); [intros []|].
    intros [<-|[]]. left. split; reflexivity.
  - intro H. right.
    destruct (search_paths_events _ _ _ _ _ H) as (root & Hroot & Hev).
    destruct (library_path_is_sanitized (canonical_modname ctx modname))
      as (p & Ep & Hp1 & Hp2 & Hp3).
    exists root, p. unfold Search.probe_path in Hev. rewrite Ep in Hev.
    repeat split; auto.
    intros t ns Hin.
    destruct (search_paths_events _ _ _ _ _ Hin) as (root' & _ & [E|E]); discriminate.
Qed.

Lemma lua_loader_access_is_confined_witness :
  exists root p,
    In root ["."; "mediawiki-extensions-Scribunto/includes/engines/LuaCommon/lualib"]
    /\ (IsFile "/lua/./ustring.lua" = IsFile ("/lua/" ++ root ++ "/" ++ p ++ ".lua")
        \/ IsFile "/lua/./ustring.lua" = ReadFile ("/lua/" ++ root ++ "/" ++ p ++ ".lua"))
    /\ Py.forallb_str Scan.path_char p = true.
Proof.
  destruct (lua_loader_access_is_confined
              Samples.no_files Samples.fresh_ctx "ustring"
              (IsFile "/lua/./ustring.lua") (or_introl eq_refl))
    as [[H _]|(root & p & Hroot & Hev & Hp & _)]; [discriminate|].
  exists root, p. auto.
Defined.

(** *** Aliases of the module namespace *)

Lemma find_char_after c s t :
  Py.forallb_str (fun a => negb (Ascii.eqb a c)) s = true ->
  Py.find_char c (s ++ String c t) = Z.of_nat (String.length s).
Proof.
  induction s as [|a s IH]; intro H.
  - simpl. now rewrite Ascii.eqb_refl.
  - simpl in H. apply andb_true_iff in H as [Ha Hs]. apply negb_true_iff in Ha.
    cbn [append Py.find_char String.length]. rewrite Ha, (IH Hs).
    destruct (Z.of_nat (String.length s)) eqn:E; try lia.
Qed.

Lemma drop_append s t : Py.drop (String.length s) (s ++ t) = t.
Proof. induction s; simpl; auto. Qed.

(** X5. A reference written with an alias of the module namespace (an
    alias without a colon) is rewritten to the namespace's own prefix
    followed by what comes after the alias and its colon. Unless the
    rewritten name is an internal one (local name starting with an
    underscore), the loader then returns what the content store holds
    under the rewritten title, and consults nothing else. *)
Theorem lua_loader_resolves_alias :
  forall fs ctx modname alias local,
    In alias (ns_aliases (module_ns ctx)) ->
    Py.forallb_str (fun a => negb (Ascii.eqb a ":")) alias = true ->
    Py.strip modname = alias ++ ":" ++ local ->
    let title := (ns_name (module_ns ctx) ++ ":") ++ local in
    canonical_modname ctx modname = title
    /\ (Py.startswith_any title ["Module:_"; (ns_name (module_ns ctx) ++ ":") ++ "_"] = false ->
        lua_loader fs ctx modname
        = ([ReadByTitle title (ns_id (module_ns ctx))],
           pages ctx title (ns_id (module_ns ctx)))).
Proof.
  intros fs ctx modname alias local Hin Hcolon Hstrip title.
  assert (Hc : canonical_modname ctx modname = title).
  { unfold canonical_modname. cbv zeta. rewrite Hstrip.
    assert (Hsw : Py.startswith_any (alias ++ ":" ++ local)
                    (map (fun a => a ++ ":") (ns_aliases (module_ns ctx))) = true).
    { unfold Py.startswith_any. apply existsb_exists. exists (alias ++ ":").
      split; [now apply (in_map (fun a => a ++ ":"))|]. apply startswith_app_assoc. }
    rewrite Hsw. unfold title. f_equal.
    change (alias ++ ":" ++ local) with (alias ++ String ":" local).
    rewrite (find_char_after _ _ _ Hcolon).
    replace (Z.to_nat (Z.of_nat (String.length alias) + 1))
      with (String.length (alias ++ ":")) by (rewrite length_append; simpl; lia).
    unfold Py.slice_from.
    change (alias ++ String ":" local) with (alias ++ ":" ++ local).
    rewrite <- append_assoc. apply drop_append. }
  split; [exact Hc|]. intro Hint.
  unfold lua_loader. cbv zeta. rewrite Hc.
  assert (H1 : Py.startswith_any title
                 ["Module:"; ns_name (module_ns ctx) ++ ":"] = true).
  { unfold Py.startswith_any, title. cbn [existsb]. rewrite startswith_app.
    now rewrite orb_true_r. }
  rewrite H1, Hint. reflexivity.
Qed.

Lemma lua_loader_resolves_alias_witness :
  lua_loader Samples.no_files Cases.store_with_links "  Mod:links "
  = ([ReadByTitle "Module:links" 828], Some "return {}").
Proof.
  exact (proj2 (lua_loader_resolves_alias
                  Samples.no_files Cases.store_with_links "  Mod:links " "Mod" "links"
                  (or_introl eq_refl) eq_refl eq_refl) eq_refl).
Defined.

End LoaderFacts.

(** ** Decoding and encoding of text *)

Module TextFacts.
Import Text Encode.

(** The decoder without named entities is the one-pass scan. *)
Lemma mw_text_decode_scan charref_sub text :
  mw_text_decode charref_sub text false = Ok (decode_scan 0 text).
Proof.
  destruct (decode_loop_scan text "" [] 0 0) as (st & Hst & Hfin);
    [simpl; lia | lia |].
  simpl in Hst, Hfin.
  unfold mw_text_decode, Re.finditer. cbn [negb]. rewrite Hst. cbn [bind].
  destruct st as [parts pos]. simpl in Hfin. rewrite Hfin.
  now rewrite slice_empty by lia.
Qed.

Lemma decode_scan_entity e c rest :
  In (e, c) entities -> decode_scan 0 (e ++ rest) = c ++ decode_scan 0 rest.
Proof.
  intro H. simpl in H.
  repeat (destruct H as [H|H]; [inversion H; subst; clear H|]); try contradiction;
    cbn -[decode_scan]; cbn [decode_scan]; unfold entity_at; simp;
    try reflexivity.
Qed.

Lemma entity_at_other a s : a <> "&"%char -> entity_at (String a s) = None.
Proof. intro H. unfold entity_at. simp. reflexivity. Qed.

Lemma decode_scan_char a s :
  a <> "&"%char -> decode_scan 0 (String a s) = String a (decode_scan 0 s).
Proof. intro H. cbn [decode_scan]. now rewrite (entity_at_other a s H). Qed.

Lemma contains_char_cons c a s :
  Py.contains (String c "") (String a s) = Ascii.eqb c a || Py.contains (String c "") s.
Proof. cbn [Py.contains]. now rewrite prefix_cons, prefix_empty, andb_true_r. Qed.

Lemma contains_char_forall c s :
  Py.contains (String c "") s = negb (Py.forallb_str (fun a => negb (Ascii.eqb c a)) s).
Proof.
  induction s as [|a s IH]; [reflexivity|].
  rewrite contains_char_cons, IH. cbn [Py.forallb_str].
  now destruct (Ascii.eqb c a).
Qed.

Lemma decode_scan_without_ampersand s :
  Py.contains "&" s = false -> decode_scan 0 s = s.
Proof.
  induction s as [|a s IH]; [reflexivity|].
  rewrite contains_char_cons. intro H. apply orb_false_iff in H as [Ha Hs].
  rewrite decode_scan_char by (intro E; subst; discriminate).
  now rewrite IH.
Qed.

(** X6. A text without an ampersand comes back from [mw_text_decode]
    unchanged, with and without the decoding of named entities. *)
Theorem mw_text_decode_without_ampersand :
  forall charref_sub text decodeNamedEntities,
    Py.contains "&" text = false ->
    mw_text_decode charref_sub text decodeNamedEntities = Ok text.
Proof.
  intros cs text [|] H.
  - unfold mw_text_decode, Html.unescape. now rewrite H.
  - rewrite mw_text_decode_scan. now rewrite decode_scan_without_ampersand.
Qed.

Lemma mw_text_decode_without_ampersand_witness :
  mw_text_decode Samples.identity "a < b" false = Ok "a < b".
Proof. apply mw_text_decode_without_ampersand. reflexivity. Defined.

(** *** The encoder *)

Lemma join_cons x l : Py.join "" (x :: l) = x ++ Py.join "" l.
Proof.
  unfold Py.join. destruct l as [|y l]; simpl.
  - now rewrite append_nil_r.
  - reflexivity.
Qed.

Lemma mw_text_encode_cons ch text charset :
  mw_text_encode (String ch text) charset
  = encode_char ch charset ++ mw_text_encode text charset.
Proof. unfold mw_text_encode. cbn [encode_parts]. apply join_cons. Qed.

Lemma mw_text_encode_app s t charset :
  mw_text_encode (s ++ t) charset = mw_text_encode s charset ++ mw_text_encode t charset.
Proof.
  induction s as [|a s IH]; [reflexivity|].
  cbn [append]. rewrite !mw_text_encode_cons, IH. now rewrite append_assoc.
Qed.

Lemma codepoint2name_amp : codepoint2name (Py.ord "&") = Some "amp".
Proof. reflexivity. Qed.

(** X7. Decoding undoes encoding. When the character set holds the
    ampersand and every character of it that has an entity name is one of
    the five the decoder knows (the angle brackets, the ampersand, the
    double quote, the no-break space), [mw_text_decode] without named
    entities returns, for the encoded text, the text that was encoded. *)
Theorem mw_text_decode_encode :
  forall charref_sub charset text,
    in_charset "&" charset = true ->
    (forall ch name,
        in_charset ch charset = true ->
        codepoint2name (Py.ord ch) = Some name ->
        In ("&" ++ name ++ ";", String ch "") entities) ->
    mw_text_decode charref_sub (mw_text_encode text charset) false = Ok text.
Proof.
  intros cs charset text Hamp Hfive. rewrite mw_text_decode_scan. f_equal.
  induction text as [|ch text IH]; [reflexivity|].
  rewrite mw_text_encode_cons. unfold encode_char.
  destruct (in_charset ch charset) eqn:Hin.
  - destruct (codepoint2name (Py.ord ch)) as [name|] eqn:Hname.
    + rewrite (decode_scan_entity _ _ _ (Hfive ch name Hin Hname)), IH. reflexivity.
    + assert (ch <> "&"%char) by (intro E; subst; discriminate).
      cbn [append]. rewrite decode_scan_char by assumption. now rewrite IH.
  - assert (ch <> "&"%char) by (intro E; subst; congruence).
    cbn [append]. rewrite decode_scan_char by assumption. now rewrite IH.
Qed.

Lemma markup_charset_names ch name :
  in_charset ch Cases.markup_charset = true ->
  codepoint2name (Py.ord ch) = Some name ->
  In ("&" ++ name ++ ";", String ch "") entities.
Proof.
  destruct ch as [[] [] [] [] [] [] [] []]; vm_compute; intros H1 H2;
    try discriminate; inversion H2; auto 10.
Qed.

Lemma mw_text_decode_encode_witness :
  mw_text_encode "a<b & &lt;" Cases.markup_charset = "a&lt;b &amp; &amp;lt;"
  /\ mw_text_decode Samples.identity (mw_text_encode "a<b & &lt;" Cases.markup_charset) false
     = Ok "a<b & &lt;".
Proof.
  split; [reflexivity|].
  apply (mw_text_decode_encode Samples.identity Cases.markup_charset "a<b & &lt;").
  - reflexivity.
  - exact markup_charset_names.
Defined.

Lemma names_are_alnum chn name :
  codepoint2name chn = Some name -> Py.forallb_str alnum name = true.
Proof.
  unfold codepoint2name.
  destruct (find _ codepoint2name_table) as [e|] eqn:E; [|discriminate].
  intro H. injection H as <-. apply find_some in E as [Hin _].
  assert (Hall : forallb (fun e => Py.forallb_str alnum (snd e)) codepoint2name_table = true)
    by (vm_compute; reflexivity).
  rewrite forallb_forall in Hall. exact (Hall e Hin).
Qed.

Lemma named_not_alnum ch :
  named ch = true -> alnum ch = false /\ ch <> ";"%char.
Proof.
  destruct ch as [[] [] [] [] [] [] [] []]; vm_compute; intro H;
    try discriminate; split; try reflexivity; discriminate.
Qed.

Lemma contains_char_app c s t :
  Py.contains (String c "") (s ++ t)
  = Py.contains (String c "") s || Py.contains (String c "") t.
Proof.
  induction s as [|a s IH].
  - cbn [append]. destruct t; reflexivity.
  - cbn [append]. rewrite !contains_char_cons, IH. now rewrite orb_assoc.
Qed.

Lemma alnum_string_lacks c name :
  alnum c = false -> Py.forallb_str alnum name = true ->
  Py.contains (String c "") name = false.
Proof.
  intros Hc. induction name as [|a name IH]; [reflexivity|].
  cbn [Py.forallb_str]. intro H. apply andb_true_iff in H as [Ha Hn].
  rewrite contains_char_cons, (IH Hn), orb_false_r.
  apply Ascii.eqb_neq. intro E. subst. congruence.
Qed.

(** X8. A character of the character set that has an entity name, other
    than the ampersand, does not occur in the text [mw_text_encode]
    returns: every occurrence has been replaced by its reference, and no
    reference contains it. *)
Theorem mw_text_encode_leaves_no_named_character :
  forall text charset ch,
    in_charset ch charset = true ->
    named ch = true ->
    ch <> "&"%char ->
    Py.contains (String ch "") (mw_text_encode text charset) = false.
Proof.
  intros text charset ch Hin Hnamed Hamp.
  destruct (named_not_alnum ch Hnamed) as [Halnum Hsemi].
  induction text as [|a text IH]; [reflexivity|].
  rewrite mw_text_encode_cons, contains_char_app, IH, orb_false_r.
  unfold encode_char.
  assert (Hkeep : a <> ch -> Py.contains (String ch "") (String a "") = false).
  { intro Hne. rewrite contains_char_cons. cbn [Py.contains prefix].
    rewrite orb_false_r. apply Ascii.eqb_neq. congruence. }
  destruct (in_charset a charset) eqn:Ha.
  - destruct (codepoint2name (Py.ord a)) as [name|] eqn:Hname.
    + change ("&" ++ name ++ ";") with (String "&" (name ++ ";")).
      rewrite contains_char_cons, contains_char_app.
      rewrite (alnum_string_lacks ch name Halnum (names_are_alnum _ _ Hname)).
      rewrite contains_char_cons. cbn [Py.contains prefix].
      rewrite (proj2 (Ascii.eqb_neq ch "&") Hamp), (proj2 (Ascii.eqb_neq ch ";") Hsemi).
      reflexivity.
    + apply Hkeep. intro E. subst a. unfold named in Hnamed. now rewrite Hname in Hnamed.
  - apply Hkeep. intro E. subst a. congruence.
Qed.

Lemma mw_text_encode_leaves_no_named_character_witness :
  Py.contains "<" (mw_text_encode "<b>x</b>" Cases.markup_charset) = false.
Proof.
  apply mw_text_encode_leaves_no_named_character.
  - reflexivity.
  - reflexivity.
  - discriminate.
Defined.

Lemma encode_char_length ch charset : 1 <= String.length (encode_char ch charset).
Proof.
  unfold encode_char. destruct (in_charset ch charset); [|simpl; lia].
  destruct (codepoint2name (Py.ord ch)); simpl; lia.
Qed.

Lemma mw_text_encode_length text charset :
  String.length text <= String.length (mw_text_encode text charset).
Proof.
  induction text as [|a text IH]; [simpl; lia|].
  rewrite mw_text_encode_cons, length_append. cbn [String.length].
  pose proof (encode_char_length a charset). lia.
Qed.

(** X9. [mw_text_encode] returns its text unchanged exactly when no
    character of the text is in the character set and has an entity
    name; the text it returns is never shorter than the one it is
    given. *)
Theorem mw_text_encode_unchanged_iff :
  forall text charset,
    (mw_text_encode text charset = text
     <-> Py.forallb_str (fun ch => negb (in_charset ch charset && named ch)) text = true)
    /\ String.length text <= String.length (mw_text_encode text charset).
Proof.
  intros text charset. split; [|apply mw_text_encode_length].
  induction text as [|a text IH]; [split; reflexivity|].
  rewrite mw_text_encode_cons. cbn [Py.forallb_str]. unfold encode_char, named.
  destruct (in_charset a charset) eqn:Ha; cbn [andb negb].
  - destruct (codepoint2name (Py.ord a)) as [name|] eqn:Hname; cbn [negb andb].
    + split; [|discriminate]. intro E. exfalso.
      apply (f_equal String.length) in E.
      rewrite !length_append in E. cbn [String.length] in E.
      pose proof (mw_text_encode_length text charset). lia.
    + cbn [append]. rewrite <- IH. split; [now intro E; injection E|now intros ->].
  - cbn [append]. rewrite <- IH. split; [now intro E; injection E|now intros ->].
Qed.

End TextFacts.

(** ** The arguments of a frame *)

Module FrameFacts.
Import Sandbox Positional ReFacts.

(** *** Arguments without a name part *)

Lemma isspace_name_char a : Py.isspace a = true -> name_char a = true.
Proof.
  destruct a as [[] [] [] [] [] [] [] []]; vm_compute; intro H;
    try discriminate; reflexivity.
Qed.

Lemma no_name_part_tail a s :
  no_name_part (String a s) = true -> name_char a = true -> no_name_part s = true.
Proof. cbn [no_name_part]. intros H Ha. now rewrite Ha in H. Qed.

(** A text without a name part does not match the pattern. *)
Lemma re_match_arg_re_no_name_part s :
  no_name_part s = true -> Re.re_match arg_re s = None.
Proof.
  intro H.
  unfold Re.re_match, Re.match_at, arg_re. cbn [Re.seqs].
  change (Re.none_of (String Html.dquote "<>='")) with (Re.Chr name_char).
  change (Re.lit "=") with (Re.Chr (Ascii.eqb "=")).
  unfold Re.star, Re.space, Re.plus_lazy.
  pose proof (@run_fails_within (nat * Re.captures) no_name_part name_char
                no_name_part_tail) as F.
  rewrite run_seq. apply F; [exact I|exact H|].
  intros p1 s1 c1 Hs1. rewrite run_seq. apply F; [exact isspace_name_char|exact Hs1|].
  intros p2 s2 c2 Hs2. rewrite run_seq.
  apply F; [cbn; split; auto|exact Hs2|].
  intros p3 s3 c3 Hs3. rewrite run_seq. apply F; [exact isspace_name_char|exact Hs3|].
  intros p4 s4 c4 Hs4. rewrite run_seq, run_chr.
  destruct s4 as [|a s4]; [reflexivity|].
  cbn [no_name_part] in Hs4.
  destruct (Ascii.eqb_spec "=" a) as [<-|]; [|reflexivity].
  vm_compute in Hs4. discriminate.
Qed.

Lemma no_equals_no_name_part s :
  Py.contains "=" s = false -> no_name_part s = true.
Proof.
  induction s as [|a s IH]; [reflexivity|].
  rewrite TextFacts.contains_char_cons. intro H.
  apply orb_false_iff in H as [Ha Hs]. cbn [no_name_part].
  destruct (name_char a); [exact (IH Hs)|].
  rewrite Ascii.eqb_sym. now rewrite Ha.
Qed.

Section Plain.
Variable charref_sub : string -> string.

Lemma frame_args_loop_plain l :
  forall d num,
    keys_below (d, num) ->
    forallb no_name_part l = true ->
    frame_args_loop charref_sub l (d, num)
    = Ok ((d ++ positional (clean_arg charref_sub) num l)%list,
          (num + Z.of_nat (List.length l))%Z).
Proof.
  induction l as [|a l IH]; intros d num Hk Hl.
  - cbn [frame_args_loop positional List.length]. rewrite app_nil_r.
    f_equal. f_equal. simpl. lia.
  - cbn [forallb] in Hl. apply andb_true_iff in Hl as [Ha Hl].
    pose proof (frame_arg_step_unnamed charref_sub d num a
                  (re_match_arg_re_no_name_part a Ha)) as Hstep.
    cbn [frame_args_loop]. rewrite Hstep. cbn [bind].
    assert (Hk' : keys_below (args_set d (ArgInt num) (clean_arg charref_sub a), (num + 1)%Z))
      by (eapply frame_arg_step_keys_below; [exact Hk|exact Hstep]).
    rewrite (IH _ _ Hk' Hl).
    assert (Hfresh : ~ In (ArgInt num) (map fst d)).
    { intro Hin. destruct Hk as [_ Hk]. specialize (Hk _ Hin). cbn [snd] in Hk. lia. }
    rewrite (args_set_absent charref_sub d (ArgInt num) (clean_arg charref_sub a) Hfresh).
    rewrite <- app_assoc. cbn [positional List.length app]. f_equal. f_equal. lia.
Qed.

(** X10. When no argument of the list has a name part (in each, going
    from the left, an angle bracket or a quote comes before any equals
    sign, or there is no equals sign at all), the frame gets the
    arguments under the keys 1, 2, ... in the order of the list, each
    with its empty [noinclude] tags removed and its character references
    decoded; no argument is lost or stored under a name. *)
Theorem make_frame_plain_arguments :
  forall ops pframe title l,
    forallb no_name_part l = true ->
    make_frame charref_sub (Some ops) pframe title (ArgList l)
    = Ok (Frame (positional (clean_arg charref_sub) 1 l) pframe title).
Proof.
  intros ops pframe title l H.
  pose proof (frame_args_loop_plain l [] 1%Z keys_below_start H) as E.
  change (frame_args_loop charref_sub l ([], 1%Z)
          = Ok (positional (clean_arg charref_sub) 1 l, (1 + Z.of_nat (List.length l))%Z))
    in E.
  unfold make_frame.
  match goal with
  | |- bind (bind ?X _) _ = _ =>
      replace X with (@Ok (arg_dict * Z)
                          (positional (clean_arg charref_sub) 1 l,
                           (1 + Z.of_nat (List.length l))%Z))
        by (symmetry; exact E)
  end.
  reflexivity.
Qed.

End Plain.

Lemma make_frame_plain_arguments_witness :
  make_frame Samples.identity (Some []) None "t"
             (ArgList ["a"; "<span class='x'>t</span>"; ""])
  = Ok (Frame [(ArgInt 1, "a"); (ArgInt 2, "<span class='x'>t</span>"); (ArgInt 3, "")]
              None "t").
Proof.
  apply (make_frame_plain_arguments Samples.identity [] None "t"
           ["a"; "<span class='x'>t</span>"; ""]).
  reflexivity.
Defined.

(** *** Arguments with a name *)

Lemma run_bol0 {A : Type} s c (k : nat -> string -> Re.captures -> option A) :
  Re.run Re.Bol 0 s c k = k 0 s c.
Proof. reflexivity. Qed.

Lemma run_eol_cons {A : Type} pos b s c (k : nat -> string -> Re.captures -> option A) :
  Re.run Re.Eol pos (String b s) c k
  = match s with
    | EmptyString => if Ascii.eqb b (Py.chr 10) then k pos (String b "") c else None
    | _ => None
    end.
Proof. destruct s; reflexivity. Qed.

Lemma star_class_greedy_all {A : Type} p ws c
      (k : nat -> string -> Re.captures -> option A) x pos :
  Py.forallb_str p ws = true ->
  k (pos + String.length ws) "" c = Some x ->
  Scan.star_class true p pos ws c k = Some x.
Proof.
  intros H Hk. rewrite <- (append_nil_r ws) at 1.
  now apply star_class_greedy_stop.
Qed.

Lemma drop_head p s :
  forall i, Py.forallb_str p s = true -> i < String.length s ->
            exists b t, Py.drop i s = String b t /\ p b = true.
Proof.
  induction s as [|a s IH]; intros i H Hi; [simpl in Hi; lia|].
  cbn [Py.forallb_str] in H. apply andb_true_iff in H as [Ha Hs].
  destruct i as [|i].
  - exists a, s. split; [reflexivity|exact Ha].
  - cbn [Py.drop]. apply IH; [exact Hs|simpl in Hi; lia].
Qed.

Lemma forallb_str_true s : Py.forallb_str (fun _ => true) s = true.
Proof. induction s; simpl; auto. Qed.

Lemma name_char_not_equals b : name_char b = true -> Ascii.eqb "=" b = false.
Proof.
  intro H. destruct (Ascii.eqb_spec "=" b) as [<-|]; [|reflexivity].
  vm_compute in H. discriminate.
Qed.

Ltac capture n :=
  match goal with
  | |- context [substring 0 (?a - ?b) _] => replace (a - b) with n by lia
  end.

Lemma re_match_name_value ws1 a k' ws2 ws3 v ws4 :
  Py.forallb_str Py.isspace ws1 = true ->
  Py.forallb_str Py.isspace ws2 = true ->
  Py.forallb_str Py.isspace ws3 = true ->
  Py.forallb_str Py.isspace ws4 = true ->
  Py.forallb_str name_char (String a k') = true ->
  Py.isspace a = false ->
  (forall i, i <= String.length k' ->
             Py.forallb_str Py.isspace (Py.drop i (String a k')) = false) ->
  Scan.span Py.isspace (v ++ ws4) = 0 ->
  (forall i, i < String.length v -> Py.forallb_str Py.isspace (Py.drop i v) = false) ->
  exists e,
    Re.re_match arg_re (ws1 ++ String a k' ++ ws2 ++ "=" ++ ws3 ++ v ++ ws4)
    = Some (e, [(2, v); (1, String a k')]).
Proof.
  intros H1 H2 H3 H4 Hname Ha Hk Hv0 Hv.
  eexists.
  unfold Re.re_match, Re.match_at, arg_re. cbn [Re.seqs].
  change (Re.none_of (String Html.dquote "<>='")) with (Re.Chr name_char).
  change (Re.lit "=") with (Re.Chr (Ascii.eqb "=")).
  unfold Re.star, Re.space, Re.plus_lazy, Re.star_lazy, Re.any_dotall.
  rewrite run_seq, run_bol0, run_seq, run_star_class.
  apply star_class_greedy_stop; [exact H1 | cbn [append Scan.span]; now rewrite Ha |].
  rewrite run_seq, run_group, run_seq. cbn [append]. rewrite run_chr.
  cbn [Py.forallb_str] in Hname. apply andb_true_iff in Hname as [Hna Hnk].
  rewrite Hna. rewrite run_star_class.
  rewrite star_class_lazy_skip; [|exact Hnk|].
  - apply star_class_lazy_now.
    capture (S (String.length k')).
    cbn [substring]. rewrite substring_prefix.
    rewrite run_seq, run_star_class.
    apply star_class_greedy_stop; [exact H2|reflexivity|].
    rewrite run_seq, run_chr, Ascii.eqb_refl.
    rewrite run_seq, run_star_class.
    apply star_class_greedy_stop; [exact H3|exact Hv0|].
    rewrite run_seq, run_group, run_star_class.
    rewrite star_class_lazy_skip; [|apply forallb_str_true|].
    + apply star_class_lazy_now.
      capture (String.length v). rewrite substring_prefix.
      rewrite run_seq, run_star_class.
      apply star_class_greedy_all; [exact H4|].
      reflexivity.
    + intros i Hi. rewrite run_seq, run_star_class.
      apply star_class_fails. intros j Hj.
      rewrite drop_app in * by lia.
      destruct (span_app_not_all Py.isspace (Py.drop i v) ws4 (Hv i Hi)) as [E L].
      rewrite E in Hj. rewrite drop_length in L.
      rewrite drop_app by (rewrite drop_length; lia).
      rewrite drop_drop.
      assert (Hij : i + j < String.length v) by lia.
      specialize (Hv _ Hij).
      destruct (Py.drop (i + j) v) as [|b t] eqn:Ed; [discriminate|].
      cbn [append]. rewrite run_eol_cons.
      destruct (t ++ ws4) eqn:Et; [|reflexivity].
      destruct t; [|discriminate]. cbn [Py.forallb_str] in Hv.
      rewrite andb_true_r in Hv.
      destruct (Ascii.eqb_spec b (Py.chr 10)) as [->|]; [discriminate|reflexivity].
  - intros i Hi. rewrite run_seq, run_star_class.
    apply star_class_fails. intros j Hj.
    rewrite drop_app in * by lia.
    assert (Hq : Py.forallb_str Py.isspace (Py.drop i k') = false)
      by (apply (Hk (S i)); lia).
    destruct (span_app_not_all Py.isspace (Py.drop i k')
                (ws2 ++ String "=" (ws3 ++ v ++ ws4)) Hq) as [E L].
    rewrite E in Hj. rewrite drop_length in L.
    rewrite drop_app by (rewrite drop_length; lia).
    rewrite drop_drop.
    destruct (drop_head name_char k' (i + j) Hnk) as (b & t & Ed & Hb); [lia|].
    rewrite Ed. cbn [append]. rewrite run_seq, run_chr.
    now rewrite (name_char_not_equals b Hb).
Qed.

(** What [strip] takes away. *)

Lemma lstrip_decompose s :
  exists ws, s = ws ++ Py.lstrip s
             /\ Py.forallb_str Py.isspace ws = true
             /\ Scan.span Py.isspace (Py.lstrip s) = 0.
Proof.
  induction s as [|c s IH].
  - exists "". repeat split.
  - cbn [Py.lstrip]. destruct (Py.isspace c) eqn:Hc.
    + destruct IH as (ws & E & Hws & Hsp). exists (String c ws).
      cbn [append Py.forallb_str]. rewrite Hc, Hws. repeat split; [|exact Hsp].
      now rewrite <- E.
    + exists "". cbn [append Py.forallb_str Scan.span]. rewrite Hc. repeat split.
Qed.

Lemma rstrip_decompose s :
  exists ws, s = Py.rstrip s ++ ws
             /\ Py.forallb_str Py.isspace ws = true
             /\ Py.rstrip (Py.rstrip s) = Py.rstrip s.
Proof.
  induction s as [|c s IH].
  - exists "". repeat split.
  - destruct IH as (ws & E & Hws & Hi). cbn [Py.rstrip].
    destruct (Py.rstrip s) as [|b r] eqn:Er.
    + cbn [append] in E. subst ws.
      destruct (Py.isspace c) eqn:Hc.
      * exists (String c s). cbn [append Py.forallb_str]. rewrite Hc, Hws.
        repeat split.
      * exists s. cbn [append Py.rstrip]. rewrite Hc. repeat split. exact Hws.
    + exists ws. cbn [append]. repeat split; [now rewrite E at 1|exact Hws|].
      cbn [Py.rstrip] in *. now rewrite Hi.
Qed.

Lemma rstrip_fixed_suffix k :
  Py.rstrip k = k ->
  forall i, i < String.length k -> Py.forallb_str Py.isspace (Py.drop i k) = false.
Proof.
  induction k as [|c k IH]; intros H i Hi; [simpl in Hi; lia|].
  cbn [Py.rstrip] in H.
  destruct (Py.rstrip k) as [|b r] eqn:Er.
  - destruct (Py.isspace c) eqn:Hc; [discriminate|].
    injection H as <-. destruct i as [|i]; [|simpl in Hi; lia].
    cbn [Py.drop Py.forallb_str]. now rewrite Hc.
  - injection H as H. destruct i as [|i].
    + cbn [Py.drop Py.forallb_str].
      assert (E0 : Py.forallb_str Py.isspace (Py.drop 0 k) = false)
        by (apply (IH H); rewrite <- H; simpl; lia).
      destruct k; cbn [Py.drop] in E0; rewrite E0; apply andb_false_r.
    + cbn [Py.drop]. apply (IH H). simpl in Hi. lia.
Qed.

Lemma strip_decompose s :
  exists ws1 ws2,
    s = ws1 ++ Py.strip s ++ ws2
    /\ Py.forallb_str Py.isspace ws1 = true
    /\ Py.forallb_str Py.isspace ws2 = true
    /\ Scan.span Py.isspace (Py.strip s ++ ws2) = 0
    /\ forall i, i < String.length (Py.strip s) ->
                 Py.forallb_str Py.isspace (Py.drop i (Py.strip s)) = false.
Proof.
  destruct (lstrip_decompose s) as (ws1 & E1 & H1 & Hsp).
  destruct (rstrip_decompose (Py.lstrip s)) as (ws2 & E2 & H2 & Hi).
  exists ws1, ws2. unfold Py.strip. rewrite <- E2. repeat split; auto.
  apply rstrip_fixed_suffix. exact Hi.
Qed.

(** The pattern splits [name=value] at the first equals sign and strips
    both sides. *)
Lemma re_match_arg_re_splits n w :
  Py.forallb_str name_char n = true ->
  Py.strip n <> "" ->
  exists e,
    Re.re_match arg_re (n ++ "=" ++ w) = Some (e, [(2, Py.strip w); (1, Py.strip n)]).
Proof.
  intros Hn Hne.
  destruct (strip_decompose n) as (ws1 & ws2 & En & H1 & H2 & Hsp & Hsuf).
  destruct (strip_decompose w) as (ws3 & ws4 & Ew & H3 & H4 & Hsp' & Hsuf').
  destruct (Py.strip n) as [|a k'] eqn:Ek; [congruence|].
  rewrite En in Hn. rewrite !forallb_str_append in Hn.
  apply andb_true_iff in Hn as [_ Hn]. apply andb_true_iff in Hn as [Hn _].
  assert (Ha : Py.isspace a = false).
  { cbn [append Scan.span] in Hsp. destruct (Py.isspace a); [discriminate|reflexivity]. }
  destruct (re_match_name_value ws1 a k' ws2 ws3 (Py.strip w) ws4
              H1 H2 H3 H4 Hn Ha) as (e & He).
  - intros i Hi. apply Hsuf. simpl. lia.
  - exact Hsp'.
  - exact Hsuf'.
  - exists e. rewrite <- He. f_equal.
    rewrite En at 1. rewrite Ew at 1. now rewrite !append_assoc.
Qed.

Section Named.
Variable charref_sub : string -> string.

(** X11. An argument [name=value] whose name part has none of the two
    angle brackets, the equals sign and the two quotes, and is not white
    space only, is split at its first equals sign, and both parts are
    stripped of surrounding white space. When the stripped name is not
    made of digits the cleaned value is stored under that name and the
    positional counter stays; when it is a number [z] the value is
    stored under the integer key [z], or 1000 when [z] is below 1 or
    above 1000, and the counter moves above that key. *)
Theorem frame_arg_step_name_value :
  forall d num n w,
    Py.forallb_str name_char n = true ->
    Py.strip n <> "" ->
    (Py.isdigit (Py.strip n) = false ->
     frame_arg_step charref_sub (d, num) (n ++ "=" ++ w)
     = Ok (args_set d (ArgStr (Py.strip n)) (clean_arg charref_sub (Py.strip w)), num))
    /\ (forall z,
          Py.isdigit (Py.strip n) = true ->
          Py.int_of_digits (Py.strip n) = Ok z ->
          frame_arg_step charref_sub (d, num) (n ++ "=" ++ w)
          = Ok (args_set d (ArgInt (clamp z)) (clean_arg charref_sub (Py.strip w)),
                Z.max num (clamp z + 1))).
Proof.
  intros d num n w Hn Hne.
  destruct (re_match_arg_re_splits n w Hn Hne) as (e & He).
  split.
  - intro Hd.
    apply (frame_arg_step_named charref_sub d num _ e _ He). exact Hd.
  - intros z Hd Hz.
    apply (frame_arg_step_numbered charref_sub d num _ e _ z He); assumption.
Qed.

End Named.

Lemma frame_arg_step_name_value_witness :
  frame_arg_step Samples.identity ([], 1%Z) " lang = a=b "
  = Ok ([(ArgStr "lang", "a=b")], 1%Z)
  /\ frame_arg_step Samples.identity ([], 1%Z) "07=x"
     = Ok ([(ArgInt 7, "x")], 8%Z).
Proof.
  split.
  - exact (proj1 (frame_arg_step_name_value Samples.identity [] 1%Z " lang " " a=b "
                    eq_refl ltac:(discriminate)) eq_refl).
  - exact (proj2 (frame_arg_step_name_value Samples.identity [] 1%Z "07" "x"
                    eq_refl ltac:(discriminate)) 7%Z eq_refl eq_refl).
Defined.

(** *** Arguments given as a dictionary, and the cleaning of values *)

Lemma sub_from_no_match r repl s :
  forall pos,
    (forall p i, Re.match_at r p (Py.drop i s) = None) ->
    Re.sub_from r repl pos 0 s = s.
Proof.
  induction s as [|a s IH]; intros pos H; [reflexivity|].
  cbn [Re.sub_from]. pose proof (H pos 0) as H0. cbn [Py.drop] in H0. rewrite H0.
  f_equal. apply IH.
  intros p i. exact (H p (S i)).
Qed.

Lemma match_at_noinclude_other pos s :
  Py.contains "<" s = false -> Re.match_at noinclude_re pos s = None.
Proof.
  intro H. unfold Re.match_at, noinclude_re. cbn [Re.seqs].
  change (Re.lit "<") with (Re.Chr (Ascii.eqb "<")).
  rewrite run_seq, run_chr. destruct s as [|a s]; [reflexivity|].
  rewrite TextFacts.contains_char_cons in H. apply orb_false_iff in H as [Ha _].
  now rewrite Ha.
Qed.

Lemma contains_char_drop c s i :
  Py.contains (String c "") s = false -> Py.contains (String c "") (Py.drop i s) = false.
Proof.
  revert i. induction s as [|a s IH]; intros [|i] H; try exact H.
  cbn [Py.drop]. apply IH. rewrite TextFacts.contains_char_cons in H.
  now apply orb_false_iff in H as [_ H].
Qed.

Section Cleaning.
Variable charref_sub : string -> string.

(** X25. The cleaning applied to every argument value leaves a text
    without [<] and without [&] as it is: the tag pattern needs the
    first, a character reference the second. *)
Theorem clean_arg_plain_text :
  forall arg,
    Py.contains "<" arg = false ->
    Py.contains "&" arg = false ->
    clean_arg charref_sub arg = arg.
Proof.
  intros arg Hlt Hamp. unfold clean_arg, Re.sub.
  rewrite sub_from_no_match.
  - unfold Html.unescape. now rewrite Hamp.
  - intros p i. apply match_at_noinclude_other. now apply contains_char_drop.
Qed.

Lemma fold_args_set_distinct (vf : string -> string) d :
  forall acc,
    NoDup (map fst acc ++ map fst d)%list ->
    fold_left (fun fa kv => args_set fa (fst kv) (vf (snd kv))) d acc
    = (acc ++ map (fun kv => (fst kv, vf (snd kv))) d)%list.
Proof.
  induction d as [|[k v] d IH]; intros acc H; cbn [fold_left map fst snd].
  - now rewrite app_nil_r.
  - cbn [map fst] in H. pose proof (NoDup_remove_2 _ _ _ H) as Hn.
    rewrite (args_set_absent charref_sub acc k (vf v))
      by (intro Hin; apply Hn; apply in_or_app; now left).
    rewrite IH.
    + now rewrite <- app_assoc.
    + rewrite map_app. cbn [map fst]. rewrite <- app_assoc. exact H.
Qed.

(** X26. Arguments given as a dictionary (the arguments of the parent
    page) are all kept: the frame has the same keys in the same order,
    each value cleaned, and building it does not fail once the runtime
    exists. *)
Theorem make_frame_dict_arguments :
  forall ops pframe title d,
    NoDup (map fst d) ->
    make_frame charref_sub (Some ops) pframe title (ArgDict d)
    = Ok (Frame (map (fun kv => (fst kv, clean_arg charref_sub (snd kv))) d)
                pframe title).
Proof.
  intros ops pframe title d H. unfold make_frame. cbn [bind].
  now rewrite (fold_args_set_distinct (clean_arg charref_sub) d []).
Qed.

End Cleaning.

Lemma clean_arg_plain_text_witness :
  clean_arg Samples.identity "a = b / c" = "a = b / c".
Proof. apply clean_arg_plain_text; reflexivity. Defined.

Lemma make_frame_dict_arguments_witness :
  make_frame Samples.identity (Some []) None "page"
             (ArgDict [(ArgInt 1, "x<noinclude/>y"); (ArgStr "lang", "en")])
  = Ok (Frame [(ArgInt 1, "xy"); (ArgStr "lang", "en")] None "page").
Proof.
  apply (make_frame_dict_arguments Samples.identity [] None "page"
           [(ArgInt 1, "x<noinclude/>y"); (ArgStr "lang", "en")]).
  repeat constructor; simpl; intuition discriminate.
Defined.

End FrameFacts.

(** ** The driver: exceptions, results and the log *)

Module DriverFacts.
Import Sandbox.

Section Calls.
Variable charref_sub : string -> string.
Variable nfc : string -> string.

(** *** The exceptions that leave the driver *)

Lemma frame_arg_step_raises st arg e :
  frame_arg_step charref_sub st arg = Raise e -> e = ValueError.
Proof.
  destruct st as [d num]. unfold frame_arg_step.
  destruct (Re.re_match arg_re arg) as [[e0 caps]|]; [|discriminate].
  destruct (Py.isdigit (Re.group 1 caps)); [|discriminate].
  unfold Py.int_of_digits.
  destruct (NilEmpty.uint_of_string (Re.group 1 caps)); cbn [bind]; [discriminate|].
  now intro H; injection H as <-.
Qed.

Lemma frame_args_loop_raises l :
  forall st e, frame_args_loop charref_sub l st = Raise e -> e = ValueError.
Proof.
  induction l as [|a l IH]; intros st e H; [discriminate|].
  cbn [frame_args_loop] in H.
  destruct (frame_arg_step charref_sub st a) as [st'|e'] eqn:E; cbn [bind] in H.
  - exact (IH _ _ H).
  - injection H as <-. exact (frame_arg_step_raises _ _ _ E).
Qed.

Lemma make_frame_raises rt pframe t args e :
  make_frame charref_sub rt pframe t args = Raise e ->
  e = ValueError \/ (rt = None /\ e = AttributeError "table_from").
Proof.
  unfold make_frame. destruct args as [l|d].
  - destruct (frame_args_loop charref_sub l ([], 1%Z)) as [st|e'] eqn:E; cbn [bind].
    + destruct rt; [discriminate|]. intro H. injection H as <-. now right.
    + intro H. injection H as <-. left. exact (frame_args_loop_raises _ _ _ E).
  - cbn [bind]. destruct rt; [discriminate|]. intro H. injection H as <-. now right.
Qed.

Lemma build_frames_raises rt expander parent args e :
  build_frames charref_sub rt expander parent args = Raise e ->
  e = ValueError \/ (rt = None /\ e = AttributeError "table_from").
Proof.
  unfold build_frames. destruct parent as [[pt pa]|]; cbn [bind].
  - destruct (make_frame charref_sub rt None pt _) as [f|e'] eqn:E; cbn [bind].
    + apply make_frame_raises.
    + intro H. injection H as <-. exact (make_frame_raises _ _ _ _ _ E).
  - apply make_frame_raises.
Qed.

Lemma ensure_ready_no_runtime ctx :
  lua (ensure_ready ctx) = None -> lua ctx = None /\ lua_depth ctx <> 0%Z.
Proof.
  unfold ensure_ready. destruct (lua_depth ctx =? 0)%Z eqn:E.
  - destruct (lua ctx); discriminate.
  - intro H. split; [exact H|]. now apply Z.eqb_neq.
Qed.

(** X12. The exceptions that leave [call_lua_sandbox]. An exception
    leaves it in four cases only: the argument list is empty
    ([IndexError]); an argument has a name of digits that [int] rejects
    ([ValueError]) or, in a nested call, there is no runtime
    ([AttributeError]); the guest call raises something that is neither a
    guest-runtime error nor a decoding error; the guest call returns an
    empty tuple ([IndexError]). A guest-runtime error and a decoding
    error never leave the function. *)
Theorem call_lua_sandbox_exceptions :
  forall guest ctx args expander parent timeout e ctx',
    call_lua_sandbox charref_sub nfc guest ctx args expander parent timeout
    = (Raise e, ctx') ->
    (args = [] /\ e = IndexError)
    \/ (build_frames charref_sub (lua (ensure_ready ctx)) expander parent args = Raise e
        /\ (e = ValueError
            \/ (e = AttributeError "table_from"
                /\ lua ctx = None /\ lua_depth ctx <> 0%Z)))
    \/ (exists frame,
          build_frames charref_sub (lua (ensure_ready ctx)) expander parent args = Ok frame
          /\ let outcome :=
               snd (guest (module_name expander args) (function_name expander args)
                          frame (title (entry_state ctx args expander)) timeout
                          (entry_state ctx args expander)) in
             outcome = RaisesOther e
             \/ (outcome = Returns (RetTuple []) /\ e = IndexError)).
Proof.
  intros guest ctx args expander parent timeout e ctx' H.
  destruct (List.length args <? 2)%nat eqn:Hlen.
  - left. unfold call_lua_sandbox in H. rewrite Hlen in H.
    destruct args as [|a args]; [|discriminate].
    injection H as <- _. split; reflexivity.
  - right. apply Nat.ltb_ge in Hlen.
    destruct (build_frames charref_sub (lua (ensure_ready ctx)) expander parent args)
      as [frame|e'] eqn:Hf.
    + right. exists frame. split; [reflexivity|].
      rewrite (call_through_guest charref_sub nfc guest ctx args expander parent timeout
                 frame Hlen Hf) in H.
      cbv zeta in H.
      destruct (guest _ _ frame _ timeout _) as [ctx_g outcome].
      cbn [snd].
      destruct outcome as [[v|[|v0 [|v1 vs]]]| |ex|ex]; cbn [unpack_outcome] in H;
        try (destruct (truthy _) in H; [discriminate|];
             destruct (report_failure _ _ _ _) in H; discriminate).
      * injection H as <- _. right. split; reflexivity.
      * injection H as <- _. now left.
    + left.
      assert (e' = e).
      { unfold call_lua_sandbox in H.
        replace (List.length args <? 2)%nat with false in H
          by (symmetry; apply Nat.ltb_ge; exact Hlen).
        cbn [lua set_lua_depth] in H. rewrite Hf in H. now injection H. }
      subst e'. split; [reflexivity|].
      destruct (build_frames_raises _ _ _ _ _ Hf) as [->|[Hnone ->]]; [now left|].
      right. split; [reflexivity|]. now apply ensure_ready_no_runtime.
Qed.

(** *** What is logged when the guest fails *)

Lemma firstn_restores (ctx ctx_g : Wtp) :
  firstn (List.length (expand_stack ctx)) (expand_stack ctx_g) = expand_stack ctx ->
  expand_stack (set_lua_depth (pop_to (List.length (expand_stack ctx)) ctx_g)
                              (lua_depth (pop_to (List.length (expand_stack ctx)) ctx_g) - 1))
  = expand_stack ctx.
Proof. intro H. cbn. exact H. Qed.

(** X13. The log after a guest-runtime error with trace text [text].
    When the text names [debug.error], one debug message with the first
    line of the text (source position removed) is added and no trace,
    unless that line says the template is deprecated, when nothing is
    added. Otherwise nothing is added for the two failures that give the
    empty text, and for any other failure exactly one message carrying
    the whole trace: a debug message when the caller's expansion stack
    holds the label [check deprecated lang param usage], an error
    message when not. The stack that decides is the one of the caller:
    what the guest pushed has been taken off before. *)
Theorem call_lua_sandbox_failure_log :
  forall guest ctx args expander parent timeout frame ctx_g e r ctx',
    (2 <= List.length args)%nat ->
    build_frames charref_sub (lua (ensure_ready ctx)) expander parent args = Ok frame ->
    guest (module_name expander args) (function_name expander args) frame
          (title (entry_state ctx args expander)) timeout
          (entry_state ctx args expander) = (ctx_g, RaisesLuaError e) ->
    firstn (List.length (expand_stack ctx)) (expand_stack ctx_g) = expand_stack ctx ->
    call_lua_sandbox charref_sub nfc guest ctx args expander parent timeout = (r, ctx') ->
    let text := failure_text (VExc e) in
    let msg := Re.sub location_re "" (Py.first_line text) in
    diagnostics ctx'
    = (diagnostics ctx_g
       ++ (if Py.contains "'debug.error'" text then
             if Py.startswith msg "This template is deprecated." then []
             else [ {| d_level := Debug; d_sortid := "luaexec/659";
                       d_text := "lua error -- " ++ msg; d_trace := None |} ]
           else if swallowed text then []
           else if existsb (String.eqb "check deprecated lang param usage")
                           (expand_stack ctx)
                then [ {| d_level := Debug; d_sortid := "luaexec/679";
                          d_text := "LUA error but likely not bug -- in #invoke {} parent {}";
                          d_trace := Some text |} ]
                else [ {| d_level := Error; d_sortid := "luaexec/683";
                          d_text := "LUA error in #invoke {} parent {}";
                          d_trace := Some text |} ]))%list.
Proof.
  intros guest ctx args expander parent timeout frame ctx_g e r ctx'
         Hlen Hf Hg Hstack Hcall text msg.
  rewrite (call_on_guest_error _ _ _ _ _ _ _ _ _ _ _ Hlen Hf Hg) in Hcall.
  cbv zeta in Hcall. unfold report_failure in Hcall.
  rewrite (firstn_restores ctx ctx_g Hstack) in Hcall.
  fold text in Hcall. fold msg in Hcall. unfold swallowed. fold text.
  destruct (Py.contains "'debug.error'" text).
  - destruct (Py.startswith msg "This template is deprecated.");
      cbn [negb] in Hcall; injection Hcall as _ <-; cbn.
    + now rewrite app_nil_r.
    + reflexivity.
  - cbn [negb andb].
    destruct (Py.contains translations_marker text);
      [injection Hcall as _ <-; cbn; now rewrite app_nil_r|].
    cbn [orb].
    destruct (Py.contains "attempt to index a nil value (local 'lang')" text
              && Py.contains "in function 'Module:links.getLinkPage'" text);
      [injection Hcall as _ <-; cbn; now rewrite app_nil_r|].
    destruct (existsb _ (expand_stack ctx)); injection Hcall as _ <-; reflexivity.
Qed.

(** *** What is returned when the guest returns *)

(** X14. When the guest call returns and the first value is true for
    Python, the driver returns the second value as text: [str] of it, the
    empty text for [None] and when there is no second value, normalized
    to NFC. Values after the second are not looked at, nothing is
    logged, and the depth counter is the guest's minus one. *)
Theorem call_lua_sandbox_returns_text :
  forall guest ctx args expander parent timeout frame ctx_g ret ok text r ctx',
    (2 <= List.length args)%nat ->
    build_frames charref_sub (lua (ensure_ready ctx)) expander parent args = Ok frame ->
    guest (module_name expander args) (function_name expander args) frame
          (title (entry_state ctx args expander)) timeout
          (entry_state ctx args expander) = (ctx_g, Returns ret) ->
    (ret = RetValue ok /\ text = VStr ""
     \/ ret = RetTuple [ok] /\ text = VStr ""
     \/ exists more, ret = RetTuple (ok :: text :: more)) ->
    truthy ok = true ->
    call_lua_sandbox charref_sub nfc guest ctx args expander parent timeout = (r, ctx') ->
    r = Ok (nfc (match text with VNone => "" | _ => str_of text end))
    /\ diagnostics ctx' = diagnostics ctx_g
    /\ lua_depth ctx' = (lua_depth ctx_g - 1)%Z.
Proof.
  intros guest ctx args expander parent timeout frame ctx_g ret ok text r ctx'
         Hlen Hf Hg Hret Hok Hcall.
  rewrite (call_through_guest charref_sub nfc guest ctx args expander parent timeout
             frame Hlen Hf) in Hcall.
  cbv zeta in Hcall. rewrite Hg in Hcall.
  destruct Hret as [[-> ->]|[[-> ->]|[more ->]]]; cbn [unpack_outcome] in Hcall;
    rewrite Hok in Hcall; injection Hcall as <- <-; cbn; repeat split.
  now destruct text.
Qed.

(** X15. A guest call that returns one value only, and a value that is
    false for Python ([None], [False], 0, the empty text), is a failure
    with an empty trace: the driver returns the execution-error banner
    and logs one message. *)
Theorem call_lua_sandbox_single_false_value :
  forall guest ctx args expander parent timeout frame ctx_g ret v r ctx',
    (2 <= List.length args)%nat ->
    build_frames charref_sub (lua (ensure_ready ctx)) expander parent args = Ok frame ->
    guest (module_name expander args) (function_name expander args) frame
          (title (entry_state ctx args expander)) timeout
          (entry_state ctx args expander) = (ctx_g, Returns ret) ->
    ret = RetValue v \/ ret = RetTuple [v] ->
    truthy v = false ->
    call_lua_sandbox charref_sub nfc guest ctx args expander parent timeout = (r, ctx') ->
    r = Ok (banner "Lua execution error" (module_name expander args)
                   (function_name expander args))
    /\ exists d, diagnostics ctx' = (diagnostics ctx_g ++ [d])%list
                 /\ d_trace d = Some "".
Proof.
  intros guest ctx args expander parent timeout frame ctx_g ret v r ctx'
         Hlen Hf Hg Hret Hv Hcall.
  rewrite (call_through_guest charref_sub nfc guest ctx args expander parent timeout
             frame Hlen Hf) in Hcall.
  cbv zeta in Hcall. rewrite Hg in Hcall.
  assert (Hu : unpack_outcome (Returns ret) ctx_g = (Ok (v, VStr ""), ctx_g))
    by (destruct Hret as [->| ->]; reflexivity).
  rewrite Hu, Hv in Hcall. cbn [failure_text] in Hcall.
  unfold report_failure in Hcall.
  change (Py.contains "'debug.error'" "") with false in Hcall.
  change (Py.contains translations_marker "") with false in Hcall.
  change (Py.contains "attempt to index a nil value (local 'lang')" "") with false in Hcall.
  change (Py.contains "Lua timeout error" "") with false in Hcall.
  cbn [andb] in Hcall.
  destruct (existsb _ _) in Hcall; injection Hcall as <- <-;
    (split; [reflexivity|]); eexists; split; reflexivity.
Qed.

(** X16. A decoding error in the guest call is not a failure: the driver
    returns the empty text (normalized) and adds one debug message with
    no trace; the depth counter is the guest's minus one. *)
Theorem call_lua_sandbox_decoding_error :
  forall guest ctx args expander parent timeout frame ctx_g r ctx',
    (2 <= List.length args)%nat ->
    build_frames charref_sub (lua (ensure_ready ctx)) expander parent args = Ok frame ->
    guest (module_name expander args) (function_name expander args) frame
          (title (entry_state ctx args expander)) timeout
          (entry_state ctx args expander) = (ctx_g, RaisesUnicodeDecodeError) ->
    call_lua_sandbox charref_sub nfc guest ctx args expander parent timeout = (r, ctx') ->
    r = Ok (nfc "")
    /\ diagnostics ctx'
       = (diagnostics ctx_g
          ++ [ {| d_level := Debug; d_sortid := "luaexec/626";
                  d_text := "invalid unicode returned from lua by {}: parent {}";
                  d_trace := None |} ])%list
    /\ lua_depth ctx' = (lua_depth ctx_g - 1)%Z.
Proof.
  intros guest ctx args expander parent timeout frame ctx_g r ctx' Hlen Hf Hg Hcall.
  rewrite (call_through_guest charref_sub nfc guest ctx args expander parent timeout
             frame Hlen Hf) in Hcall.
  cbv zeta in Hcall. rewrite Hg in Hcall. cbn [unpack_outcome truthy] in Hcall.
  injection Hcall as <- <-. repeat split.
Qed.

(** *** Depth and the runtime *)

(** X17. The runtime is prepared at the outermost call only. The guest
    runs at a depth one above the caller's; when the caller's depth is
    not negative, a call made from the state the guest runs in neither
    creates nor resets the runtime: the state its own guest call receives
    has the runtime of the outer one with only the new invocation added,
    at a depth two above the caller's. *)
Theorem nested_call_keeps_runtime :
  forall ctx args expander args' expander',
    (0 <= lua_depth ctx)%Z ->
    let outer := entry_state ctx args expander in
    let inner := entry_state outer args' expander' in
    ensure_ready outer = outer
    /\ lua inner
       = option_map
           (fun ops => (ops ++ [OpInvoke (module_name expander' args')
                                         (function_name expander' args')])%list)
           (lua outer)
    /\ lua_depth inner = (lua_depth ctx + 2)%Z.
Proof.
  intros ctx args expander args' expander' Hd outer inner.
  destruct (entry_state_fields ctx args expander) as (Hdepth & _).
  fold outer in Hdepth.
  assert (Hr : ensure_ready outer = outer).
  { unfold ensure_ready. rewrite Hdepth.
    replace (lua_depth ctx + 1 =? 0)%Z with false by (symmetry; apply Z.eqb_neq; lia).
    reflexivity. }
  split; [exact Hr|]. split.
  - unfold inner, entry_state at 1. cbv zeta. rewrite Hr. reflexivity.
  - destruct (entry_state_fields outer args' expander') as (Hinner & _).
    fold inner in Hinner. rewrite Hinner, Hdepth. lia.
Qed.

(** X18. The depth counter is balanced on every path that returns a
    text: if the guest call leaves the counter as it finds it, a call of
    the driver that returns leaves it as it finds it too. *)
Theorem call_lua_sandbox_depth_balanced :
  forall (guest : guest_fn) ctx args expander parent timeout text ctx',
    (forall m f fr t tm c, lua_depth (fst (guest m f fr t tm c)) = lua_depth c) ->
    call_lua_sandbox charref_sub nfc guest ctx args expander parent timeout
    = (Ok text, ctx') ->
    lua_depth ctx' = lua_depth ctx.
Proof.
  intros guest ctx args expander parent timeout text ctx' Hguest Hcall.
  destruct (call_lua_sandbox_depth_when_returning charref_sub nfc guest ctx args expander
              parent timeout text ctx' Hcall) as [[_ H]|(frame & _ & H)]; [exact H|].
  rewrite H, Hguest.
  destruct (entry_state_fields ctx args expander) as (Hdepth & _).
  rewrite Hdepth. lia.
Qed.

End Calls.

(** *** The banner *)

Lemma escape_no_angle s : Py.forallb_str no_angle (Html.escape s) = true.
Proof.
  unfold Html.escape.
  apply ReFacts.replace_char_forall; [reflexivity|].
  apply (ReFacts.forallb_str_weaken no_angle); [intros a ->; reflexivity|].
  apply ReFacts.replace_char_forall; [reflexivity|].
  apply (ReFacts.forallb_str_weaken no_angle); [intros a ->; reflexivity|].
  apply ReFacts.replace_char_forall; [reflexivity|].
  apply (ReFacts.forallb_str_weaken (fun a => negb (Ascii.eqb a "<"))).
  { intros a Ha. unfold no_angle. rewrite Ha. cbn [andb].
    destruct (Ascii.eqb a ">"); reflexivity. }
  apply ReFacts.replace_char_forall; [reflexivity|].
  apply (ReFacts.forallb_str_weaken (fun _ => true)).
  { intros a _. destruct (Ascii.eqb a "<"); reflexivity. }
  apply ReFacts.replace_char_forall; [reflexivity|].
  clear. induction s as [|a s IH]; [reflexivity|]. exact IH.
Qed.

(** X19. The error banner is one [strong] element whatever the module
    and function names are: between the opening tag and the closing tag
    of the template there is no angle bracket, because both names are
    escaped. *)
Theorem banner_is_one_element :
  forall msg modname modfn,
    In msg ["Lua execution error"; "Lua timeout error"] ->
    exists body,
      Sandbox.banner msg modname modfn
      = ("<strong class=" ++ String Html.dquote "error" ++ String Html.dquote ">")
        ++ body ++ "</strong>"
      /\ Py.forallb_str no_angle body = true.
Proof.
  intros msg modname modfn Hmsg.
  exists (msg ++ " in Module:" ++ Html.escape modname
          ++ " function " ++ Html.escape modfn).
  split.
  - unfold Sandbox.banner. now rewrite !append_assoc.
  - rewrite !ReFacts.forallb_str_append, !escape_no_angle.
    destruct Hmsg as [<-|[<-|[]]]; reflexivity.
Qed.

Lemma banner_is_one_element_witness :
  exists body,
    Sandbox.banner "Lua execution error" "</strong><script>" "f"
    = ("<strong class=" ++ String Html.dquote "error" ++ String Html.dquote ">")
      ++ body ++ "</strong>"
    /\ Py.forallb_str no_angle body = true.
Proof.
  apply banner_is_one_element. left. reflexivity.
Defined.

(** *** Instances *)

Lemma call_lua_sandbox_exceptions_witness :
  exists frame,
    Sandbox.build_frames Samples.identity (lua (Sandbox.ensure_ready Samples.fresh_ctx))
                         Samples.identity None ["m"; "f"] = Ok frame
    /\ snd (Cases.guest_of (Sandbox.RaisesOther TypeError) "m" "f" frame "page" None
              (Sandbox.entry_state Samples.fresh_ctx ["m"; "f"] Samples.identity))
       = Sandbox.RaisesOther TypeError.
Proof.
  destruct (call_lua_sandbox_exceptions Samples.identity Samples.identity
              (Cases.guest_of (Sandbox.RaisesOther TypeError))
              Samples.fresh_ctx ["m"; "f"] Samples.identity None None TypeError
              _ eq_refl)
    as [[H _]|[[H _]|(frame & Hf & [H|[H _]])]]; try discriminate.
  exists frame. split; [exact Hf|exact H].
Defined.

Lemma call_lua_sandbox_failure_log_witness :
  diagnostics
    (snd (Sandbox.call_lua_sandbox Samples.identity Samples.identity
            (Samples.failing_guest "attempt to call a nil value")
            Samples.fresh_ctx ["m"; "f"] Samples.identity None None))
  = [ {| d_level := Error; d_sortid := "luaexec/683";
         d_text := "LUA error in #invoke {} parent {}";
         d_trace :=
           Some (Sandbox.failure_text
                   (Sandbox.VExc
                      {| Sandbox.exc_str := "attempt to call a nil value";
                         Sandbox.exc_traceback :=
                           ["Traceback (most recent call last):"] |})) |} ].
Proof.
  assert (H := fun frame ctx_g e r ctx' =>
                 call_lua_sandbox_failure_log
                   Samples.identity Samples.identity
                   (Samples.failing_guest "attempt to call a nil value")
                   Samples.fresh_ctx ["m"; "f"] Samples.identity None None
                   frame ctx_g e r ctx').
  etransitivity;
    [ eapply H; [simpl; lia | reflexivity | reflexivity | reflexivity | reflexivity ]
    | reflexivity ].
Defined.

Lemma call_lua_sandbox_returns_text_witness :
  fst (Sandbox.call_lua_sandbox Samples.identity Samples.identity
         (Cases.guest_of (Sandbox.Returns
                            (Sandbox.RetTuple [Sandbox.VInt 1; Sandbox.VNone;
                                               Sandbox.VStr "ignored"])))
         Samples.fresh_ctx ["m"; "f"] Samples.identity None None)
  = Ok "".
Proof.
  assert (H := fun frame ctx_g ret ok text r ctx' =>
                 call_lua_sandbox_returns_text
                   Samples.identity Samples.identity
                   (Cases.guest_of (Sandbox.Returns
                                      (Sandbox.RetTuple [Sandbox.VInt 1; Sandbox.VNone;
                                                         Sandbox.VStr "ignored"])))
                   Samples.fresh_ctx ["m"; "f"] Samples.identity None None
                   frame ctx_g ret ok text r ctx').
  edestruct H as [E _];
    [ simpl; lia | reflexivity | reflexivity
    | right; right; eexists; reflexivity | reflexivity | reflexivity | ].
  exact E.
Defined.

Lemma call_lua_sandbox_single_false_value_witness :
  fst (Sandbox.call_lua_sandbox Samples.identity Samples.identity
         (Cases.guest_of (Sandbox.Returns (Sandbox.RetValue Sandbox.VNone)))
         Samples.fresh_ctx ["m"; "f"] Samples.identity None None)
  = Ok (Sandbox.banner "Lua execution error" "m" "f").
Proof.
  assert (H := fun frame ctx_g ret v r ctx' =>
                 call_lua_sandbox_single_false_value
                   Samples.identity Samples.identity
                   (Cases.guest_of (Sandbox.Returns (Sandbox.RetValue Sandbox.VNone)))
                   Samples.fresh_ctx ["m"; "f"] Samples.identity None None
                   frame ctx_g ret v r ctx').
  edestruct H as [E _];
    [ simpl; lia | reflexivity | reflexivity | left; reflexivity | reflexivity
    | reflexivity | ].
  exact E.
Defined.

Lemma call_lua_sandbox_decoding_error_witness :
  fst (Sandbox.call_lua_sandbox Samples.identity Samples.identity
         (Cases.guest_of Sandbox.RaisesUnicodeDecodeError)
         Samples.fresh_ctx ["m"; "f"] Samples.identity None None)
  = Ok "".
Proof.
  assert (H := fun frame ctx_g r ctx' =>
                 call_lua_sandbox_decoding_error
                   Samples.identity Samples.identity
                   (Cases.guest_of Sandbox.RaisesUnicodeDecodeError)
                   Samples.fresh_ctx ["m"; "f"] Samples.identity None None
                   frame ctx_g r ctx').
  edestruct H as [E _];
    [ simpl; lia | reflexivity | reflexivity | reflexivity | ].
  exact E.
Defined.

Lemma nested_call_keeps_runtime_witness :
  lua (Sandbox.entry_state
         (Sandbox.entry_state Samples.fresh_ctx ["m"; "f"] Samples.identity)
         ["n"; "g"] Samples.identity)
  = Some [OpCreate; OpRequirePhase2; OpSetFunctions; OpInvoke "m" "f"; OpInvoke "n" "g"].
Proof.
  destruct (nested_call_keeps_runtime Samples.fresh_ctx ["m"; "f"] Samples.identity
              ["n"; "g"] Samples.identity) as (_ & E & _); [simpl; lia|].
  rewrite E. reflexivity.
Defined.

Lemma call_lua_sandbox_depth_balanced_witness :
  lua_depth
    (snd (Sandbox.call_lua_sandbox Samples.identity Samples.identity
            (Samples.returning_guest "text")
            Samples.fresh_ctx ["m"; "f"] Samples.identity None None))
  = 0%Z.
Proof.
  apply (call_lua_sandbox_depth_balanced Samples.identity Samples.identity
           (Samples.returning_guest "text") Samples.fresh_ctx ["m"; "f"]
           Samples.identity None None "text").
  - intros. reflexivity.
  - reflexivity.
Defined.

End DriverFacts.

(** ** The JSON functions on guest data *)

Module JsonMore.
Import Json JsonData JsonFacts.
Local Open Scope list_scope.

(** *** Measures *)

Lemma listed_from_values ok t :
  forall i, listed_from ok i t = true -> forall kv, In kv t -> ok (snd kv) = true.
Proof.
  induction t as [|kv0 t IH]; intros i H kv []; subst;
    cbn [listed_from] in H; apply andb_true_iff in H as [H Ht];
    apply andb_true_iff in H as [_ Hx].
  - exact Hx.
  - now apply (IH _ Ht).
Qed.

Lemma listed_from_impl (ok ok' : pyobj -> bool) t :
  (forall v, ok v = true -> ok' v = true) ->
  forall i, listed_from ok i t = true -> listed_from ok' i t = true.
Proof.
  intro Himp. induction t as [|kv0 t IH]; intros i H; [reflexivity|].
  cbn [listed_from] in *. apply andb_true_iff in H as [H Ht].
  apply andb_true_iff in H as [Hk Hx].
  now rewrite Hk, (Himp _ Hx), (IH _ Ht).
Qed.

Lemma max_item {A} (f : A -> nat) l a :
  In a l -> (f a <= fold_right (fun x n => Nat.max (f x) n) 0 l)%nat.
Proof.
  induction l as [|b l IH]; intros []; subst; simpl.
  - lia.
  - specialize (IH H). lia.
Qed.

Lemma height_table t :
  height (PTable t) = S (fold_right (fun kv n => Nat.max (height (snd kv)) n) 0%nat t).
Proof. reflexivity. Qed.

Lemma nesting_array l :
  nesting (JArr l) = S (fold_right (fun x n => Nat.max (nesting x) n) 0%nat l).
Proof. reflexivity. Qed.

Lemma nesting_object ms :
  nesting (JObj ms)
  = S (fold_right (fun m n => Nat.max (nesting (snd m)) n) 0%nat ms).
Proof. reflexivity. Qed.

Lemma fits_digits maxd z :
  negb (too_many_digits maxd (digits z)) = true ->
  too_many_digits maxd (digits z) = false.
Proof. now intro H; apply negb_true_iff in H. Qed.

(** *** Loops that do not raise *)

Lemma traverse_total {A B} (f : A -> result B) l :
  (forall a, In a l -> exists b, f a = Ok b) ->
  exists bs, traverse f l = Ok bs.
Proof.
  induction l as [|a l IH]; intro H; [now exists []|].
  destruct (H a (or_introl eq_refl)) as [b Hb].
  destruct IH as [bs Hbs]; [intros; apply H; now right|].
  exists (b :: bs). simpl. now rewrite Hb, Hbs.
Qed.

Lemma two_passes {A B C} (f : A -> result B) (g : B -> result C) l :
  (forall a, In a l -> exists b c, f a = Ok b /\ g b = Ok c) ->
  exists bs cs, traverse f l = Ok bs /\ traverse g bs = Ok cs.
Proof.
  induction l as [|a l IH]; intro H; [now exists [], []|].
  destruct (H a (or_introl eq_refl)) as (b & c & Hb & Hc).
  destruct IH as (bs & cs & Hbs & Hcs); [intros; apply H; now right|].
  exists (b :: bs), (c :: cs). simpl. now rewrite Hb, Hbs, Hc, Hcs.
Qed.

Lemma encode_items_total maxd recurse (dmp : pyobj -> result json) t :
  (forall kv, In kv t ->
              exists name e j, key_str maxd (fst kv) = Ok name
                               /\ recurse (snd kv) = Ok e /\ dmp e = Ok j) ->
  forall acc,
    (forall o, In o acc -> (exists s, fst o = KStr s) /\ exists j, dmp (snd o) = Ok j) ->
    exists ht,
      encode_items maxd recurse t acc = Ok ht
      /\ forall o, In o ht -> (exists s, fst o = KStr s) /\ exists j, dmp (snd o) = Ok j.
Proof.
  induction t as [|[k v] t IH]; intros H acc Hacc.
  - exists acc. split; [reflexivity|exact Hacc].
  - destruct (H (k, v) (or_introl eq_refl)) as (name & e & j & Hn & He & Hj).
    simpl in Hn, He. cbn [encode_items]. rewrite He, Hn. cbn [bind].
    apply IH; [intros; apply H; now right|].
    intros [k0 v0] Ho. apply dict_set_values in Ho as [Ho|[-> ->]].
    + now apply Hacc.
    + simpl. eauto.
Qed.

Lemma coerce_keys_total maxd recurse items :
  (forall it, In it items ->
              exists s, fst it = KStr s /\ returns (coerce_name maxd s) = true
                        /\ exists v, recurse (snd it) = Ok v) ->
  forall x, exists x', coerce_keys maxd recurse items x = Ok x'.
Proof.
  induction items as [|[k v] items IH]; intros H x; [now exists x|].
  destruct (H (k, v) (or_introl eq_refl)) as (s & Hs & Hc & v' & Hv).
  simpl in Hs, Hv. subst k. cbn [coerce_keys]. rewrite Hv. cbn [bind].
  unfold coerce_name in Hc. destruct (Py.isdigit s).
  - destruct (int_of_str maxd s) as [n|e]; [|discriminate]. cbn [bind].
    apply IH. intros; apply H; now right.
  - apply IH. intros; apply H; now right.
Qed.

(** *** Data listed in key order *)

Lemma listed_round_trip n :
  forall v lim h lim' rest rest',
    (height v <= n)%nat ->
    listed v = true ->
    (Z.land (flags_of rest) 1 =? 0)%Z = true ->
    (height v < recursion_depth lim)%nat -> (height v <= json_depth lim)%nat ->
    (height v < recursion_depth lim')%nat -> (height v <= json_depth lim')%nat ->
    ints_fit (int_max_str_digits lim) v = true ->
    ints_fit (int_max_str_digits lim') v = true ->
    round_trip lim h lim' rest rest' v = Ok v.
Proof.
  induction n as [|n IH]; intros v lim h lim' rest rest' Hn Hl Hf Hr Hj Hr' Hj' Hi Hi';
    destruct v as [|b|z|r|s|l|d|t|r|r]; try discriminate;
    try (apply round_trip_scalar;
         [reflexivity|simpl in Hr; lia|simpl in Hr'; lia|
          intros z0 E; try discriminate; injection E as <-;
          split; apply fits_digits; assumption]).
  - rewrite height_table in Hn. lia.
  - rewrite height_table in Hn, Hr, Hj, Hr', Hj'. cbn [listed] in Hl.
    cbn [ints_fit] in Hi, Hi'. rewrite forallb_forall in Hi, Hi'.
    apply (round_trip_listed lim h lim' rest rest' (PTable t) t eq_refl Hf);
      try lia.
    + apply (listed_from_impl listed); [|exact Hl].
      intros v Hv. destruct v; try discriminate; reflexivity.
    + intros kv Hkv.
      pose proof (max_item (fun kv => height (snd kv)) t kv Hkv) as Hh.
      cbv beta in Hh.
      specialize (Hi _ Hkv). specialize (Hi' _ Hkv).
      apply andb_true_iff in Hi as [_ Hi]. apply andb_true_iff in Hi' as [_ Hi'].
      apply IH;
        [lia|exact (listed_from_values _ _ _ Hl _ Hkv)|exact Hf
         |simpl; lia|simpl; lia|simpl; lia|simpl; lia|exact Hi|exact Hi'].
Qed.

(** X20. Data listed in key order comes back unchanged. A value that is
    a scalar, or a table given by its items that the runtime lists under
    the keys 1, 2, ..., N in that order whose values are such values
    again, is encoded with the preserve-keys flag clear to a text that
    decodes, with any flags, to the same value, when on both sides the
    nesting of the value is below the depth the interpreter allows and
    its integers have no more digits than the limit. *)
Theorem json_round_trip_listed :
  forall lim h lim' v rest rest',
    listed v = true ->
    (Z.land (flags_of rest) 1 =? 0)%Z = true ->
    (height v < recursion_depth lim)%nat -> (height v <= json_depth lim)%nat ->
    (height v < recursion_depth lim')%nat -> (height v <= json_depth lim')%nat ->
    ints_fit (int_max_str_digits lim) v = true ->
    ints_fit (int_max_str_digits lim') v = true ->
    round_trip lim h lim' rest rest' v = Ok v.
Proof.
  intros lim h lim' v rest rest'. apply (listed_round_trip (height v)). lia.
Qed.

Lemma json_round_trip_listed_witness :
  round_trip Samples.stock_limits Samples.empty_heap Samples.stock_limits [] [1%Z]
             (PTable [(KInt 1, PStr "a");
                      (KInt 2, PTable [(KInt 1, PInt 7); (KInt 2, PBool true)])])
  = Ok (PTable [(KInt 1, PStr "a");
                (KInt 2, PTable [(KInt 1, PInt 7); (KInt 2, PBool true)])]).
Proof.
  apply json_round_trip_listed; try reflexivity; simpl; lia.
Defined.

(** *** Which values the encoder takes *)

Lemma guest_data_encodes n :
  forall v maxd h flags rd jd,
    (height v <= n)%nat ->
    guest_data v = true ->
    (height v < rd)%nat -> (height v <= jd)%nat ->
    ints_fit maxd v = true ->
    exists e j, encode_value maxd h rd flags v = Ok e /\ json_dumps maxd jd e = Ok j.
Proof.
  induction n as [|n IH]; intros v maxd h flags rd jd Hn Hg Hr Hj Hi;
    (destruct rd as [|rd]; [lia|]);
    destruct v as [|b|z|r|s|l|d|t|r|r]; try discriminate;
    try (rewrite height_table in Hn; lia);
    try (eexists; eexists; split; [reflexivity|]; destruct jd; cbn;
         try (cbn [ints_fit] in Hi; rewrite (fits_digits _ _ Hi)); reflexivity).
  rewrite height_table in Hn, Hr, Hj. cbn [guest_data] in Hg. cbn [ints_fit] in Hi.
  rewrite forallb_forall in Hg, Hi.
  destruct jd as [|jd]; [lia|].
  assert (Hvals : forall kv, In kv t ->
             exists name e j,
               key_str maxd (fst kv) = Ok name
               /\ encode_value maxd h rd flags (snd kv) = Ok e
               /\ json_dumps maxd jd e = Ok j).
  { intros kv Hkv.
    pose proof (max_item (fun kv => height (snd kv)) t kv Hkv) as Hh. cbv beta in Hh.
    specialize (Hi _ Hkv). apply andb_true_iff in Hi as [Hk Hi].
    destruct (IH (snd kv) maxd h flags rd jd) as (e & j & He & Hj');
      try lia; try assumption; [exact (Hg _ Hkv)|].
    assert (Hname : exists name, key_str maxd (fst kv) = Ok name).
    { destruct (fst kv) as [z|[|]|s|r]; simpl; eauto.
      unfold int_to_str. simpl in Hk. rewrite (fits_digits _ _ Hk). eauto. }
    destruct Hname as [name Hname]. exists name, e, j. auto. }
  destruct ((Z.land flags 1 =? 0)%Z && sequential_keys (map fst t)) eqn:Hcase.
  - apply andb_true_iff in Hcase as [Hf Hs].
    rewrite (encode_table_array _ _ _ _ (PTable t) t eq_refl Hf Hs).
    destruct (two_passes (fun kv => encode_value maxd h rd flags (snd kv))
                         (json_dumps maxd jd) t) as (es & js & Hes & Hjs).
    { intros kv Hkv. destruct (Hvals _ Hkv) as (_ & e & j & _ & He & Hj'). eauto. }
    rewrite Hes. cbn [bind]. exists (PList es), (JArr js).
    split; [reflexivity|]. rewrite json_dumps_list, Hjs. reflexivity.
  - apply andb_false_iff in Hcase.
    rewrite (encode_table_object _ _ _ _ (PTable t) t eq_refl Hcase).
    destruct (encode_items_total maxd (encode_value maxd h rd flags)
                                 (json_dumps maxd jd) t Hvals [])
      as (ht & Hht & Hq); [intros o []|].
    rewrite Hht. cbn [bind].
    assert (Hstr : forallb key_is_str (map fst ht) = true).
    { apply forallb_forall. intros k Hk. apply in_map_iff in Hk as (o & <- & Ho).
      destruct (Hq _ Ho) as [[s ->] _]. reflexivity. }
    destruct (traverse_total (dump_member maxd (json_dumps maxd jd)) (sort_items ht))
      as [ms Hms].
    { intros o Ho. apply (Permutation_in _ (sort_items_perm ht)) in Ho.
      destruct (Hq _ Ho) as [[s Hs] [j Hj']].
      exists (s, j). unfold dump_member. rewrite Hs. simpl. now rewrite Hj'. }
    exists (PDict ht). eexists. split; [reflexivity|].
    rewrite (json_dumps_dict _ _ _ Hstr), Hms. reflexivity.
Qed.

Lemma table_in_itself_raises maxd h flags r :
  (exists k, In (k, PRef r) (h r)) ->
  forall rd e, encode_value maxd h rd flags (PRef r) <> Ok e.
Proof.
  intros [k Hk]. induction rd as [|rd IH]; intros e H; [discriminate|].
  cbn [encode_value table_items] in H.
  repeat match type of H with
         | context [if ?b then _ else _] => destruct b
         end.
  all: match type of H with
       | bind ?r _ = _ => destruct r as [y|] eqn:E; [|discriminate]
       end.
  all: try (apply encode_items_ok in E as [outs Houts];
            destruct (Forall2_in_l _ _ _ _ Houts Hk) as (o & _ & _ & _ & _ & Ho);
            exact (IH _ Ho)).
  all: apply traverse_Forall2 in E;
    destruct (Forall2_in_l _ _ _ _ E Hk) as (o & _ & Ho); exact (IH _ Ho).
Qed.

(** X21. The encoder takes what a guest can hand over as data: for
    [nil], a scalar, or a table of such values under any keys, each table
    given by its items, [mw_text_jsonencode] returns a text, with any
    flags, when the nesting of the value is below the depth the
    interpreter allows and its integers, the integer keys included, have
    no more digits than the limit. For a table that holds itself it
    returns no text, whatever the limits. *)
Theorem mw_text_jsonencode_guest_data :
  (forall lim h v rest,
      guest_data v = true ->
      (height v < recursion_depth lim)%nat -> (height v <= json_depth lim)%nat ->
      ints_fit (int_max_str_digits lim) v = true ->
      exists doc, mw_text_jsonencode lim h v rest = Ok doc)
  /\ (forall lim h r rest doc,
         (exists k, In (k, PRef r) (h r)) ->
         mw_text_jsonencode lim h (PRef r) rest <> Ok doc).
Proof.
  split.
  - intros lim h v rest Hg Hr Hj Hi.
    destruct (guest_data_encodes (height v) v (int_max_str_digits lim) h (flags_of rest)
                                 (recursion_depth lim) (json_depth lim))
      as (e & j & He & Hj'); try assumption; [lia|].
    exists j. unfold mw_text_jsonencode. now rewrite He.
  - intros lim h r rest doc Hk H. unfold mw_text_jsonencode in H.
    destruct (encode_value _ _ _ _ _) as [e|] eqn:E; [|discriminate].
    exact (table_in_itself_raises _ _ _ _ Hk _ _ E).
Qed.

Lemma mw_text_jsonencode_guest_data_witness :
  (exists doc,
      mw_text_jsonencode Samples.stock_limits Samples.empty_heap
                         (PTable [(KStr "name", PStr "a"); (KInt 1, PTable [])]) []
      = Ok doc)
  /\ forall doc,
      mw_text_jsonencode Samples.stock_limits Samples.looping_heap (PRef 0) [] <> Ok doc.
Proof.
  split.
  - apply (proj1 mw_text_jsonencode_guest_data); try reflexivity; simpl; lia.
  - intro doc. apply (proj2 mw_text_jsonencode_guest_data).
    exists (KStr "self"). simpl. auto.
Defined.

(** *** Which documents the decoder takes *)

Lemma document_decodes n :
  forall j maxd flags rd jd,
    (nesting j <= n)%nat ->
    (nesting j <= jd)%nat -> (nesting j < rd)%nat ->
    literals_fit maxd j = true ->
    ((Z.land flags 1 =? 1)%Z = true \/ names_convert maxd j = true) ->
    exists p v, json_loads maxd jd j = Ok p /\ decode_value maxd rd flags p = Ok v.
Proof.
  induction n as [|n IH]; intros j maxd flags rd jd Hn Hj Hr Hl Hc;
    (destruct rd as [|rd]; [lia|]);
    destruct j as [|b|z|r|s|l|ms];
    try (rewrite ?nesting_array, ?nesting_object in Hn; lia);
    try (eexists; eexists; split; [cbn; try (cbn [literals_fit] in Hl;
                                             rewrite (fits_digits _ _ Hl)); reflexivity
                                  |reflexivity]).
  - (* an array *)
    rewrite nesting_array in Hn, Hj, Hr. cbn [literals_fit] in Hl.
    rewrite forallb_forall in Hl.
    destruct jd as [|jd]; [lia|].
    destruct (two_passes (json_loads maxd jd) (decode_value maxd rd flags) l)
      as (ps & vs & Hps & Hvs).
    { intros x Hx. pose proof (max_item nesting l x Hx) as Hh.
      apply IH; try lia; [exact (Hl _ Hx)|].
      destruct Hc as [Hc|Hc]; [now left|right].
      cbn [names_convert] in Hc. rewrite forallb_forall in Hc. exact (Hc _ Hx). }
    exists (PList ps). eexists. cbn [json_loads]. rewrite Hps. cbn [bind].
    split; [reflexivity|]. cbn [decode_value]. rewrite Hvs. reflexivity.
  - (* an object *)
    rewrite nesting_object in Hn, Hj, Hr. cbn [literals_fit] in Hl.
    rewrite forallb_forall in Hl.
    destruct jd as [|jd]; [lia|].
    assert (Hmem : forall m, In m ms ->
               exists p v, json_loads maxd jd (snd m) = Ok p
                           /\ decode_value maxd rd flags p = Ok v).
    { intros m Hm. pose proof (max_item (fun m => nesting (snd m)) ms m Hm) as Hh.
      cbv beta in Hh.
      apply IH; try lia; [exact (Hl _ Hm)|].
      destruct Hc as [Hc|Hc]; [now left|right].
      cbn [names_convert] in Hc. rewrite forallb_forall in Hc.
      specialize (Hc _ Hm). now apply andb_true_iff in Hc as [_ Hc]. }
    destruct (traverse_total
                (fun m : string * json =>
                   v <- json_loads maxd jd (snd m) ;; Ok (fst m, v)) ms) as [vs Hvs].
    { intros m Hm. destruct (Hmem _ Hm) as (p & _ & Hp & _).
      exists (fst m, p). now rewrite Hp. }
    cbn [json_loads]. rewrite Hvs. cbn [bind].
    exists (PDict (dict_of_members vs)).
    apply load_members_Forall2 in Hvs.
    destruct (dict_of_members_facts vs [] (NoDup_nil _)) as [_ Kd]. cbv zeta in Kd.
    fold (dict_of_members vs) in Kd.
    assert (Hent : forall it, In it (dict_of_members vs) ->
               exists s m, fst it = KStr s /\ In m ms /\ fst m = s
                           /\ exists v, decode_value maxd rd flags (snd it) = Ok v).
    { intros [key val] Hit. destruct (Kd _ _ Hit) as [[]|(s & -> & Hs)].
      destruct (Forall2_in_r _ _ _ _ Hvs Hs) as (m & Hm & Hk & Hp).
      simpl in Hk, Hp. exists s, m. split; [reflexivity|]. split; [exact Hm|].
      split; [now rewrite Hk|].
      destruct (Hmem _ Hm) as (p & v & Hp' & Hv). rewrite Hp in Hp'.
      injection Hp' as <-. eauto. }
    destruct ((Z.land flags 1 =? 1)%Z) eqn:Hf.
    + rewrite (decode_object_preserved _ _ _ _ Hf).
      destruct (traverse_total
                  (fun kv : pykey * pyobj =>
                     v' <- decode_value maxd rd flags (snd kv) ;; Ok (fst kv, v'))
                  (dict_of_members vs)) as [d' Hd'].
      { intros it Hit. destruct (Hent _ Hit) as (_ & _ & _ & _ & _ & v & Hv).
        exists (fst it, v). now rewrite Hv. }
      unfold recurse_values. rewrite Hd'. eexists. split; reflexivity.
    + rewrite (decode_object_result _ _ _ _ Hf).
      destruct Hc as [Hc|Hc]; [discriminate|].
      cbn [names_convert] in Hc. rewrite forallb_forall in Hc.
      destruct (coerce_keys_total maxd (decode_value maxd rd flags) (dict_of_members vs))
        with (x := dict_of_members vs) as [x' Hx'].
      { intros it Hit. destruct (Hent _ Hit) as (s & m & Hs & Hm & Hk & Hv).
        exists s. split; [exact Hs|]. split; [|exact Hv].
        specialize (Hc _ Hm). apply andb_true_iff in Hc as [Hc _]. now rewrite Hk in Hc. }
      rewrite Hx'. eexists. split; reflexivity.
Qed.

(** X22. Which documents the decoder takes. [mw_text_jsondecode] returns
    a value for a document when its nesting is below the depth the
    interpreter allows, its integer literals have no more digits than the
    limit and, unless the preserve-keys flag is set, [int] accepts every
    member name that [isdigit] accepts. *)
Theorem mw_text_jsondecode_returns :
  forall lim doc rest,
    (nesting doc <= json_depth lim)%nat -> (nesting doc < recursion_depth lim)%nat ->
    literals_fit (int_max_str_digits lim) doc = true ->
    ((Z.land (flags_of rest) 1 =? 1)%Z = true
     \/ names_convert (int_max_str_digits lim) doc = true) ->
    exists v, mw_text_jsondecode lim doc rest = Ok v.
Proof.
  intros lim doc rest Hj Hr Hl Hc.
  destruct (document_decodes (nesting doc) doc (int_max_str_digits lim) (flags_of rest)
                             (recursion_depth lim) (json_depth lim))
    as (p & v & Hp & Hv); try assumption; [lia|].
  exists v. unfold mw_text_jsondecode. now rewrite Hp.
Qed.

Lemma mw_text_jsondecode_returns_witness :
  exists v,
    mw_text_jsondecode Samples.stock_limits
                       (JObj [("7", JArr [JInt 1; JNull]); ("name", JStr "a")]) []
    = Ok v.
Proof.
  apply mw_text_jsondecode_returns;
    [simpl; lia|simpl; lia|reflexivity|right; reflexivity].
Defined.

(** A member name that is the superscript two makes the decoder raise
    when keys are not preserved, and not when they are. *)
Example mw_text_jsondecode_superscript_name :
  mw_text_jsondecode Samples.stock_limits
                     (JObj [(String (Py.chr 178) "", JInt 1)]) []
  = Raise ValueError
  /\ mw_text_jsondecode Samples.stock_limits
                        (JObj [(String (Py.chr 178) "", JInt 1)]) [1%Z]
     = Ok (PTable [(KStr (String (Py.chr 178) ""), PInt 1)]).
Proof. split; reflexivity. Qed.

(** Past the limits the two functions raise: a table nested deeper than
    the interpreter allows, and an integer literal with more digits than
    the limit. *)
Example json_beyond_the_limits :
  mw_text_jsonencode {| recursion_depth := 2; json_depth := 2; int_max_str_digits := 4300 |}
                     Samples.empty_heap
                     (PTable [(KInt 1, PTable [(KInt 1, PTable [])])]) []
  = Raise RecursionError
  /\ mw_text_jsondecode {| recursion_depth := 9; json_depth := 9; int_max_str_digits := 2 |}
                        (JArr [JInt 100]) []
     = Raise ValueError.
Proof. split; reflexivity. Qed.

End JsonMore.

(** ** Labels and descriptions *)

Module WikidataFacts.
Import Wikidata.

Lemma cache_find_first c item_id v :
  cache_find ((item_id, v) :: c) item_id = Some v.
Proof. cbn [cache_find]. now rewrite String.eqb_refl. Qed.

Lemma query_wikidata_stored http c item_id v c1 sent :
  query_wikidata http c item_id = (Ok v, c1, sent) ->
  cache_find c1 item_id = Some v.
Proof.
  unfold query_wikidata. destruct (cache_find c item_id) as [v0|] eqn:E.
  - intro H. injection H as <- <- _. exact E.
  - destruct (query_wikidata_body http item_id) as [v0|e]; [|discriminate].
    intro H. injection H as <- <- _. apply cache_find_first.
Qed.

(** X23. When the first query for an item gets a response, the label is
    returned exactly when the response is [ok] and has at least one
    binding: it is then the [value] of [itemLabel] in the first binding,
    or the item id itself when the binding has no such entry. For a
    response that is not [ok], or that has no binding,
    [mw_wikibase_getlabel] raises [AttributeError] instead of returning
    the item id. One request is sent in every case. *)
Theorem mw_wikibase_getlabel_first_call :
  forall http c item_id r bindings,
    cache_find c item_id = None ->
    http item_id = Ok r ->
    r_bindings r = Ok bindings ->
    mw_wikibase_getlabel http c item_id
    = (match (if r_ok r then bindings else []) with
       | binding :: _ =>
           Ok (dict_get (dict_get binding "itemLabel" []) "value" item_id)
       | [] => Raise (AttributeError "get")
       end,
       (item_id, if r_ok r then hd_error bindings else None) :: c,
       [item_id]).
Proof.
  intros http c item_id r bindings Hc Hr Hb.
  unfold mw_wikibase_getlabel, query_wikidata, query_wikidata_body.
  rewrite Hc, Hr. cbn [bind]. destruct (r_ok r).
  - rewrite Hb. cbn [bind]. destruct bindings as [|b bs]; reflexivity.
  - reflexivity.
Qed.

Lemma mw_wikibase_getlabel_first_call_witness :
  mw_wikibase_getlabel Cases.service_up [] "Q42" = (Ok "Douglas Adams",
     [("Q42", Some [("itemLabel", [("type", "literal"); ("value", "Douglas Adams")])])],
     ["Q42"])
  /\ fst (fst (mw_wikibase_getlabel Cases.service_down [] "Q42"))
     = Raise (AttributeError "get").
Proof.
  split.
  - exact (mw_wikibase_getlabel_first_call Cases.service_up [] "Q42" _ _
             eq_refl eq_refl eq_refl).
  - rewrite (mw_wikibase_getlabel_first_call Cases.service_down [] "Q42" _ _
               eq_refl eq_refl eq_refl).
    reflexivity.
Defined.

(** X24. Answers are kept for the life of the memo table, failures
    included. Once a query for an item has returned, be it a binding or
    [None], every later request for the label or the description of that
    item is answered from the table: nothing is sent, the table does not
    change, and the answer does not depend on what the service would say
    now. A label that failed with [AttributeError] fails again in the
    same way. *)
Theorem wikidata_answers_are_kept :
  forall http http' c item_id item_data c1 sent,
    query_wikidata http c item_id = (Ok item_data, c1, sent) ->
    query_wikidata http' c1 item_id = (Ok item_data, c1, [])
    /\ mw_wikibase_getlabel http' c1 item_id
       = (value_of "itemLabel" item_data item_id, c1, [])
    /\ mw_wikibase_getdescription http' c1 item_id
       = (value_of "itemDescription" item_data item_id, c1, [])
    /\ fst (fst (mw_wikibase_getlabel http c item_id))
       = value_of "itemLabel" item_data item_id.
Proof.
  intros http http' c item_id item_data c1 sent H.
  pose proof (query_wikidata_stored _ _ _ _ _ _ H) as Hs.
  assert (Hq : query_wikidata http' c1 item_id = (Ok item_data, c1, []))
    by (unfold query_wikidata; now rewrite Hs).
  repeat split.
  - exact Hq.
  - unfold mw_wikibase_getlabel. now rewrite Hq.
  - unfold mw_wikibase_getdescription. now rewrite Hq.
  - unfold mw_wikibase_getlabel. now rewrite H.
Qed.

Lemma wikidata_answers_are_kept_witness :
  let c1 := snd (fst (query_wikidata Cases.service_down [] "Q42")) in
  mw_wikibase_getlabel Cases.service_up c1 "Q42"
  = (Raise (AttributeError "get"), c1, []).
Proof.
  exact (proj1 (proj2 (wikidata_answers_are_kept
                         Cases.service_down Cases.service_up [] "Q42" None _ _ eq_refl))).
Defined.

End WikidataFacts.
